(** * pg_surgery: heap_force_kill / heap_force_freeze

    A shallow embedding of [heap_surgery.c] and the properties of its
    tuple-surgery engine.  The C code works on PostgreSQL's page format
    through the macros of [storage/itemid.h], [storage/bufpage.h],
    [storage/itemptr.h] and [access/htup_details.h]; the parts of those
    headers the code uses are written out below with the constants they
    have in PostgreSQL. *)

From Stdlib Require Import ZArith Lia Ascii.
From stdpp Require Import base tactics option list gmap sorting.

Local Open Scope Z_scope.

(** ** Machine integers *)

(** [OffsetNumber] is [uint16]; storing an [int] into it keeps the low
    16 bits. *)
Definition uint16 (z : Z) : Z := z mod 65536.

(** [BlockNumber] is [uint32]; the code compares block numbers and does
    no arithmetic on them. *)
Definition BlockNumber := N.
Bind Scope N_scope with BlockNumber.
Definition OffsetNumber := Z.
Definition TransactionId := Z.

Definition InvalidBlockNumber : BlockNumber := 4294967295%N.
Definition InvalidTransactionId : TransactionId := 0.
Definition FrozenTransactionId : TransactionId := 2.

(** ** Item pointers (tids) *)

(** [ip_blkid] is the block number that the two halves of
    [BlockIdData] spell. *)
Record ItemPointerData : Type := mkTid {
  ip_blkid : BlockNumber;
  ip_posid : OffsetNumber
}.

Definition ItemPointerGetBlockNumberNoCheck (tid : ItemPointerData) := ip_blkid tid.
Definition ItemPointerGetOffsetNumberNoCheck (tid : ItemPointerData) := ip_posid tid.
Definition ItemPointerSet (blkno : BlockNumber) (offno : OffsetNumber) := mkTid blkno offno.

(** [ItemPointerCompare]: block number first, then offset number. *)
Definition ItemPointerCompare (arg1 arg2 : ItemPointerData) : Z :=
  let b1 := ItemPointerGetBlockNumberNoCheck arg1 in
  let b2 := ItemPointerGetBlockNumberNoCheck arg2 in
  if (b1 <? b2)%N then -1
  else if (b2 <? b1)%N then 1
  else if ItemPointerGetOffsetNumberNoCheck arg1 <? ItemPointerGetOffsetNumberNoCheck arg2 then -1
  else if ItemPointerGetOffsetNumberNoCheck arg2 <? ItemPointerGetOffsetNumberNoCheck arg1 then 1
  else 0.

Definition ItemPointerEquals (p1 p2 : ItemPointerData) : bool :=
  ItemPointerCompare p1 p2 =? 0.

(** A tid as the array decoder delivers it: a 32-bit block number and a
    16-bit offset number. *)
Definition tid_wf (tid : ItemPointerData) : Prop :=
  (ip_blkid tid < 4294967296)%N /\ 0 <= ip_posid tid < 65536.

(** ** Line pointers *)

Inductive lp_flag : Type := LP_UNUSED | LP_NORMAL | LP_REDIRECT | LP_DEAD.

Record ItemIdData : Type := mkItemId {
  lp_off : Z;
  lp_flags : lp_flag;
  lp_len : Z
}.

Definition ItemIdIsRedirected (itemid : ItemIdData) : bool :=
  match lp_flags itemid with LP_REDIRECT => true | _ => false end.
Definition ItemIdIsUsed (itemid : ItemIdData) : bool :=
  match lp_flags itemid with LP_UNUSED => false | _ => true end.
Definition ItemIdIsDead (itemid : ItemIdData) : bool :=
  match lp_flags itemid with LP_DEAD => true | _ => false end.
Definition ItemIdIsNormal (itemid : ItemIdData) : bool :=
  match lp_flags itemid with LP_NORMAL => true | _ => false end.
Definition ItemIdGetRedirect (itemid : ItemIdData) : OffsetNumber := lp_off itemid.
Definition ItemIdSetDead (itemid : ItemIdData) : ItemIdData :=
  {| lp_off := 0; lp_flags := LP_DEAD; lp_len := 0 |}.

(** ** Tuple headers *)

Definition HEAP_XMIN_COMMITTED : Z := 0x0100.
Definition HEAP_XMIN_INVALID : Z := 0x0200.
Definition HEAP_XMIN_FROZEN : Z := Z.lor HEAP_XMIN_COMMITTED HEAP_XMIN_INVALID.
Definition HEAP_XMAX_INVALID : Z := 0x0800.
Definition HEAP_MOVED_OFF : Z := 0x4000.
Definition HEAP_MOVED_IN : Z := 0x8000.
Definition HEAP_MOVED : Z := Z.lor HEAP_MOVED_OFF HEAP_MOVED_IN.
Definition HEAP_XACT_MASK : Z := 0xFFF0.
Definition HEAP_KEYS_UPDATED : Z := 0x2000.
Definition HEAP_HOT_UPDATED : Z := 0x4000.

Record HeapTupleHeaderData : Type := mkHeapTupleHeader {
  t_xmin : TransactionId;
  t_xmax : TransactionId;
  t_xvac : TransactionId;          (* t_field3: union of t_cid and t_xvac *)
  t_ctid : ItemPointerData;
  t_infomask2 : Z;
  t_infomask : Z
}.

Definition HeapTupleHeaderSetXmin (xid : TransactionId) (tup : HeapTupleHeaderData) :=
  {| t_xmin := xid; t_xmax := t_xmax tup; t_xvac := t_xvac tup; t_ctid := t_ctid tup;
     t_infomask2 := t_infomask2 tup; t_infomask := t_infomask tup |}.
Definition HeapTupleHeaderSetXmax (xid : TransactionId) (tup : HeapTupleHeaderData) :=
  {| t_xmin := t_xmin tup; t_xmax := xid; t_xvac := t_xvac tup; t_ctid := t_ctid tup;
     t_infomask2 := t_infomask2 tup; t_infomask := t_infomask tup |}.
Definition HeapTupleHeaderSetXvac (xid : TransactionId) (tup : HeapTupleHeaderData) :=
  {| t_xmin := t_xmin tup; t_xmax := t_xmax tup; t_xvac := xid; t_ctid := t_ctid tup;
     t_infomask2 := t_infomask2 tup; t_infomask := t_infomask tup |}.
Definition set_t_ctid (ctid : ItemPointerData) (tup : HeapTupleHeaderData) :=
  {| t_xmin := t_xmin tup; t_xmax := t_xmax tup; t_xvac := t_xvac tup; t_ctid := ctid;
     t_infomask2 := t_infomask2 tup; t_infomask := t_infomask tup |}.
Definition set_t_infomask (m : Z) (tup : HeapTupleHeaderData) :=
  {| t_xmin := t_xmin tup; t_xmax := t_xmax tup; t_xvac := t_xvac tup; t_ctid := t_ctid tup;
     t_infomask2 := t_infomask2 tup; t_infomask := m |}.
Definition set_t_infomask2 (m : Z) (tup : HeapTupleHeaderData) :=
  {| t_xmin := t_xmin tup; t_xmax := t_xmax tup; t_xvac := t_xvac tup; t_ctid := t_ctid tup;
     t_infomask2 := m; t_infomask := t_infomask tup |}.

(** ** Pages *)

Definition PD_ALL_VISIBLE : Z := 0x0004.

(** A page: its header flags, its line pointer array, and the tuple
    headers found at each byte offset of the page ([PageGetItem] is
    [page + lp_off], so two line pointers with one [lp_off] share one
    header). *)
Record Page : Type := mkPage {
  pd_flags : Z;
  pd_linp : list ItemIdData;
  pd_tuples : Z -> HeapTupleHeaderData
}.

(** The number of line pointers, which is what [pd_lower] encodes. *)
Definition PageGetMaxOffsetNumber (page : Page) : OffsetNumber :=
  Z.of_nat (length (pd_linp page)).

(** [PageGetItemId(page, offno)] is [&pd_linp[offno - 1]]; outside the
    array there is no line pointer to read. *)
Definition PageGetItemId (page : Page) (offno : OffsetNumber) : option ItemIdData :=
  if 1 <=? offno then pd_linp page !! Z.to_nat (offno - 1) else None.

Definition PageGetItem (page : Page) (itemid : ItemIdData) : HeapTupleHeaderData :=
  pd_tuples page (lp_off itemid).

Definition PageIsAllVisible (page : Page) : bool :=
  negb (Z.land (pd_flags page) PD_ALL_VISIBLE =? 0).

Definition PageClearAllVisible (page : Page) : Page :=
  {| pd_flags := Z.land (pd_flags page) (Z.lnot PD_ALL_VISIBLE);
     pd_linp := pd_linp page; pd_tuples := pd_tuples page |}.

(** Store through an [ItemId] pointer into the line pointer array. *)
Definition set_item (offno : OffsetNumber) (itemid : ItemIdData) (page : Page) : Page :=
  {| pd_flags := pd_flags page;
     pd_linp := <[Z.to_nat (offno - 1) := itemid]> (pd_linp page);
     pd_tuples := pd_tuples page |}.

(** Store through a [HeapTupleHeader] pointer into the page. *)
Definition set_tuple (off : Z) (tup : HeapTupleHeaderData) (page : Page) : Page :=
  {| pd_flags := pd_flags page;
     pd_linp := pd_linp page;
     pd_tuples := fun o => if o =? off then tup else pd_tuples page o |}.

(** ** The visibility map *)

Definition VISIBILITYMAP_ALL_VISIBLE : Z := 0x01.

Definition visibilitymap_get_status (vm : gmap N Z) (blkno : BlockNumber) : Z :=
  default 0 (vm !! blkno).

Definition visibilitymap_clear (blkno : BlockNumber) (flags : Z) (vm : gmap N Z) : gmap N Z :=
  alter (fun bits => Z.land bits (Z.lnot flags)) blkno vm.

(** ** Relations, notices, and the observable trace *)

Definition RELKIND_RELATION : ascii := "r"%char.
Definition RELKIND_MATVIEW : ascii := "m"%char.
Definition RELKIND_TOASTVALUE : ascii := "t"%char.

Record Relation : Type := mkRelation {
  rd_relkind : ascii;
  rd_needs_wal : bool;             (* RelationNeedsWAL *)
  rd_pages : list Page;            (* main fork, by block number *)
  rd_vm : gmap N Z                 (* visibility map bits, by block number *)
}.

Definition RelationGetNumberOfBlocks (rel : Relation) : N :=
  N.of_nat (length (rd_pages rel)).

Inductive Notice : Type :=
| BlockOutOfRange (blkno : BlockNumber)
| OffsetOutOfRange (blkno : BlockNumber) (offno : OffsetNumber)
| AlreadyUnused (blkno : BlockNumber) (offno : OffsetNumber)
| AlreadyDead (blkno : BlockNumber) (offno : OffsetNumber).

Inductive Event : Type :=
| EvNotice (n : Notice)
| EvRelationOpen
| EvReadBuffer (blkno : BlockNumber)         (* ReadBuffer + LockBufferForCleanup *)
| EvVmPin (blkno : BlockNumber)              (* visibilitymap_pin *)
| EvVmClear (blkno : BlockNumber)            (* visibilitymap_clear *)
| EvMarkBufferDirty (blkno : BlockNumber)
| EvLogNewPage (blkno : BlockNumber)         (* log_newpage_buffer(buf, true) *)
| EvLogNewVmPage (blkno : BlockNumber)       (* log_newpage_buffer(vmbuf, false) *)
| EvUnlockReleaseBuffer (blkno : BlockNumber)
| EvReleaseVmBuffer (blkno : BlockNumber)
| EvRelationClose.

Inductive ErrCode : Type :=
| RecoveryInProgress
| NullValueNotAllowed
| EmptyTidArray
| WrongObjectType
| NotOwner.

(** What a call leaves behind: the relation and the trace of notices
    and storage accesses, oldest first. *)
Record World : Type := mkWorld {
  w_rel : Relation;
  w_log : list Event
}.

Definition emit (ev : Event) (w : World) : World :=
  {| w_rel := w_rel w; w_log := w_log w ++ [ev] |}.

(** ** Outcomes *)

(** A run either returns, raises an [ereport(ERROR)] (the world is kept
    as it is at the raise), reads outside the line pointer array (what
    memory holds there is not part of the model), or is still running
    when the fuel is spent. *)
Inductive result (A : Type) : Type :=
| Ok (a : A)
| Error (e : ErrCode) (w : World)
| Stuck
| Timeout.
Arguments Ok {A} a.
Arguments Error {A} e w.
Arguments Stuck {A}.
Arguments Timeout {A}.

#[global] Instance result_ret : MRet result := fun A a => Ok a.
#[global] Instance result_bind : MBind result := fun A B k m =>
  match m with
  | Ok a => k a
  | Error e w => Error e w
  | Stuck => Stuck
  | Timeout => Timeout
  end.

(** ** heap_force_common: the per-tuple work *)

Inductive HeapTupleForceOption : Type := HEAP_FORCE_KILL | HEAP_FORCE_FREEZE.

(** The state of one pass over a page, from [LockBufferForCleanup] to
    [UnlockReleaseBuffer]: the page in the buffer, the visibility map,
    the trace, and the two flags of the loop body. *)
Record Session : Type := mkSession {
  s_page : Page;
  s_vm : gmap N Z;
  s_log : list Event;
  did_modify_page : bool;
  did_modify_vm : bool
}.

Definition ereport_notice (n : Notice) (s : Session) : Session :=
  {| s_page := s_page s; s_vm := s_vm s; s_log := s_log s ++ [EvNotice n];
     did_modify_page := did_modify_page s; did_modify_vm := did_modify_vm s |}.

(** Lines 193-199: follow redirections from the line pointer at
    [offno]; the answer is the offset number [itemid] ends up pointing
    at, with the line pointer read there.  One unit of fuel per trip
    round the [while]. *)
Fixpoint follow_redirects (fuel : nat) (page : Page) (offno : OffsetNumber)
  : result (OffsetNumber * ItemIdData) :=
  match PageGetItemId page offno with
  | None => Stuck
  | Some itemid =>
      if ItemIdIsRedirected itemid then
        match fuel with
        | O => Timeout
        | S fuel' => follow_redirects fuel' page (ItemIdGetRedirect itemid)
        end
      else Ok (offno, itemid)
  end.

(** Lines 219-236. *)
Definition force_kill_item (blkno : BlockNumber) (cur : OffsetNumber)
    (itemid : ItemIdData) (s : Session) : Session :=
  let page := set_item cur (ItemIdSetDead itemid) (s_page s) in
  if PageIsAllVisible page then
    {| s_page := PageClearAllVisible page;
       s_vm := visibilitymap_clear blkno VISIBILITYMAP_ALL_VISIBLE (s_vm s);
       s_log := s_log s ++ [EvVmClear blkno];
       did_modify_page := true;
       did_modify_vm := true |}
  else
    {| s_page := page; s_vm := s_vm s; s_log := s_log s;
       did_modify_page := true; did_modify_vm := did_modify_vm s |}.

(** Lines 244-275, on the header [htup] points at. *)
Definition freeze_header (blkno : BlockNumber) (offno : OffsetNumber)
    (htup : HeapTupleHeaderData) : HeapTupleHeaderData :=
  let ctid := ItemPointerSet blkno offno in
  let htup :=
    if negb (ItemPointerEquals ctid (t_ctid htup))
    then set_t_ctid (ItemPointerSet blkno offno) htup else htup in
  let htup := HeapTupleHeaderSetXmin FrozenTransactionId htup in
  let htup := HeapTupleHeaderSetXmax InvalidTransactionId htup in
  let htup :=
    if negb (Z.land (t_infomask htup) HEAP_MOVED =? 0) then
      if negb (Z.land (t_infomask htup) HEAP_MOVED_OFF =? 0)
      then HeapTupleHeaderSetXvac InvalidTransactionId htup
      else HeapTupleHeaderSetXvac FrozenTransactionId htup
    else htup in
  let htup := set_t_infomask (Z.land (t_infomask htup) (Z.lnot HEAP_XACT_MASK)) htup in
  let htup := set_t_infomask
                (Z.lor (t_infomask htup) (Z.lor HEAP_XMIN_FROZEN HEAP_XMAX_INVALID)) htup in
  let htup := set_t_infomask2 (Z.land (t_infomask2 htup) (Z.lnot HEAP_HOT_UPDATED)) htup in
  let htup := set_t_infomask2 (Z.land (t_infomask2 htup) (Z.lnot HEAP_KEYS_UPDATED)) htup in
  htup.

(** Lines 237-276. *)
Definition force_freeze_item (blkno : BlockNumber) (offno : OffsetNumber)
    (itemid : ItemIdData) (s : Session) : Session :=
  let htup := PageGetItem (s_page s) itemid in
  {| s_page := set_tuple (lp_off itemid) (freeze_header blkno offno htup) (s_page s);
     s_vm := s_vm s; s_log := s_log s;
     did_modify_page := true; did_modify_vm := did_modify_vm s |}.

(** Lines 180-276: the body of the [for] loop over [offnos], for
    [offnos[i] = offno]. *)
Definition heap_force_item (fuel : nat) (heap_force_opt : HeapTupleForceOption)
    (blkno : BlockNumber) (maxoffset : OffsetNumber) (offno : OffsetNumber)
    (s : Session) : result Session :=
  if (offno =? 0) || (maxoffset <? offno) then
    Ok (ereport_notice (OffsetOutOfRange blkno offno) s)
  else
    '(cur, itemid) ← follow_redirects fuel (s_page s) offno;
    if negb (ItemIdIsUsed itemid) || ItemIdIsDead itemid then
      if negb (ItemIdIsUsed itemid)
      then Ok (ereport_notice (AlreadyUnused blkno offno) s)
      else Ok (ereport_notice (AlreadyDead blkno offno) s)
    else
      match heap_force_opt with
      | HEAP_FORCE_KILL => Ok (force_kill_item blkno cur itemid s)
      | HEAP_FORCE_FREEZE => Ok (force_freeze_item blkno offno itemid s)
      end.

(** Lines 178-277: [for (i = 0; i < noffs; i++)]. *)
Fixpoint heap_force_items (fuel : nat) (heap_force_opt : HeapTupleForceOption)
    (blkno : BlockNumber) (maxoffset : OffsetNumber) (offnos : list OffsetNumber)
    (s : Session) : result Session :=
  match offnos with
  | [] => Ok s
  | offno :: rest =>
      s' ← heap_force_item fuel heap_force_opt blkno maxoffset offno s;
      heap_force_items fuel heap_force_opt blkno maxoffset rest s'
  end.

(** ** heap_force_common: one page *)

Definition emit_if (b : bool) (ev : Event) (log : list Event) : list Event :=
  if b then log ++ [ev] else log.

Definition set_page (blkno : BlockNumber) (page : Page) (vm : gmap N Z) (rel : Relation)
  : Relation :=
  {| rd_relkind := rd_relkind rel; rd_needs_wal := rd_needs_wal rel;
     rd_pages := <[N.to_nat blkno := page]> (rd_pages rel); rd_vm := vm |}.

(** Lines 161-176: read and lock the buffer, and pin the visibility
    map page when the page is all-visible and tuples are to be killed. *)
Definition pin_vm (heap_force_opt : HeapTupleForceOption) (page : Page) : bool :=
  match heap_force_opt with
  | HEAP_FORCE_KILL => PageIsAllVisible page
  | HEAP_FORCE_FREEZE => false
  end.

Definition session_start (heap_force_opt : HeapTupleForceOption)
    (blkno : BlockNumber) (page : Page) (w : World) : Session :=
  {| s_page := page; s_vm := rd_vm (w_rel w);
     s_log := emit_if (pin_vm heap_force_opt page) (EvVmPin blkno)
                (w_log w ++ [EvReadBuffer blkno]);
     did_modify_page := false; did_modify_vm := false |}.

(** Lines 283-302: mark dirty, write WAL, release the buffers.  [page]
    is the page as it was read, which decided whether [vmbuf] is
    pinned. *)
Definition session_finish (heap_force_opt : HeapTupleForceOption)
    (blkno : BlockNumber) (page : Page) (s : Session) (w : World) : World :=
  let log := s_log s in
  let log := emit_if (did_modify_page s) (EvMarkBufferDirty blkno) log in
  let log := emit_if (did_modify_page s && rd_needs_wal (w_rel w))
               (EvLogNewPage blkno) log in
  let log := emit_if (did_modify_vm s && rd_needs_wal (w_rel w))
               (EvLogNewVmPage blkno) log in
  let log := log ++ [EvUnlockReleaseBuffer blkno] in
  let log := emit_if (pin_vm heap_force_opt page) (EvReleaseVmBuffer blkno) log in
  {| w_rel := set_page blkno (s_page s) (s_vm s) (w_rel w); w_log := log |}.

(** Lines 149-302: the body of the [do ... while] once [blkno] and the
    [noffs] offsets of the group are known.  The calls of lines 159-173
    that come before the critical section, [CHECK_FOR_INTERRUPTS],
    [ReadBuffer], [LockBufferForCleanup] and [visibilitymap_pin], are
    taken to succeed: a cancel request or an I/O failure there would
    end the call with an [ereport(ERROR)] that this function does not
    have.  What is proved of it is about calls in which they succeed. *)
Definition heap_force_page (fuel : nat) (heap_force_opt : HeapTupleForceOption)
    (nblocks : N) (blkno : BlockNumber) (offnos : list OffsetNumber)
    (w : World) : result World :=
  if (nblocks <=? blkno)%N then
    Ok (emit (EvNotice (BlockOutOfRange blkno)) w)
  else
    match rd_pages (w_rel w) !! N.to_nat blkno with
    | None => Stuck
    | Some page =>
        s ← heap_force_items fuel heap_force_opt blkno
              (PageGetMaxOffsetNumber page) offnos
              (session_start heap_force_opt blkno page w);
        Ok (session_finish heap_force_opt blkno page s w)
    end.

(** ** Grouping tids by page *)

(** Lines 321-328. *)
Definition tidcmp (a b : ItemPointerData) : Z := ItemPointerCompare a b.

(** The C library's [qsort]: the array in ascending order of [cmp].
    Elements that [tidcmp] finds equal are equal tids, so every sorting
    algorithm produces this same array. *)
Definition qsort {A : Type} (cmp : A -> A -> Z) (base : list A) : list A :=
  @merge_sort A (fun a b => cmp a b <= 0) (fun a b => decide (cmp a b <= 0)) base.

(** Lines 400-413: the [for] loop of [tids_same_page_fetch_offnums];
    [rest] is [tids[i .. ntids)], and [start] is [*next_start_ptr]. *)
Fixpoint fetch_offnums_loop (rest : list ItemPointerData) (i start : Z)
    (prev_blkno : BlockNumber) (offnos : list OffsetNumber)
  : Z * BlockNumber * list OffsetNumber :=
  match rest with
  | [] => (i, prev_blkno, offnos)
  | tid :: rest' =>
      let blkno := ItemPointerGetBlockNumberNoCheck tid in
      let offno := ItemPointerGetOffsetNumberNoCheck tid in
      if (i =? start) || (prev_blkno =? blkno)%N then
        fetch_offnums_loop rest' (i + 1) start blkno
          (<[Z.to_nat (i - start) := offno]> offnos)
      else (i, prev_blkno, offnos)
  end.

(** Lines 389-417.  [ntids] is the length of [tids]; the result is the
    returned block number, the new [*next_start_ptr] (an [OffsetNumber],
    so the [int] stored into it is cut to 16 bits), and [offnos]. *)
Definition tids_same_page_fetch_offnums (tids : list ItemPointerData)
    (next_start_ptr : OffsetNumber) (offnos : list OffsetNumber)
  : BlockNumber * OffsetNumber * list OffsetNumber :=
  let '(i, prev_blkno, offnos) :=
    fetch_offnums_loop (drop (Z.to_nat next_start_ptr) tids)
      next_start_ptr next_start_ptr InvalidBlockNumber offnos in
  (prev_blkno, uint16 i, offnos).

(** Lines 121-303: the [do ... while (next_start_ptr != ntids)] loop,
    for any loop body working on the group just fetched.  One unit of
    fuel per iteration. *)
Section PageGroupLoop.
Context {St : Type}.
Variable body : BlockNumber -> list OffsetNumber -> St -> result St.
Variable tids : list ItemPointerData.
Variable ntids : Z.

Fixpoint page_group_loop (fuel : nat) (offnos : list OffsetNumber)
    (curr_start_ptr next_start_ptr : OffsetNumber) (st : St) : result St :=
  match fuel with
  | O => Timeout
  | S fuel' =>
      let '(blkno, next_start_ptr, offnos) :=
        tids_same_page_fetch_offnums tids next_start_ptr offnos in
      let noffs := uint16 (next_start_ptr - curr_start_ptr) in
      let curr_start_ptr := next_start_ptr in
      st ← body blkno (take (Z.to_nat noffs) offnos) st;
      if next_start_ptr =? ntids then Ok st
      else page_group_loop fuel' offnos curr_start_ptr next_start_ptr st
  end.
End PageGroupLoop.

(** The page groups the loop hands to its body, in order. *)
Definition page_groups (fuel : nat) (tids : list ItemPointerData)
  : result (list (BlockNumber * list OffsetNumber)) :=
  page_group_loop (fun blkno offnos acc => Ok (acc ++ [(blkno, offnos)]))
    tids (Z.of_nat (length tids)) fuel
    (replicate (length tids) 0) 0 0 [].

(** ** Validation *)

(** A tid array as the caller passes it: [None] is a null element. *)
Definition ArrayType := list (option ItemPointerData).

Definition array_contains_nulls (ta : ArrayType) : bool :=
  existsb (fun e => match e with None => true | Some _ => false end) ta.

Definition ARR_DATA_PTR (ta : ArrayType) : list ItemPointerData := omap id ta.

(** Lines 336-350. *)
Definition sanity_check_tid_array (ta : ArrayType) (w : World) : result Z :=
  if array_contains_nulls ta then Error NullValueNotAllowed w
  else
    let ntids := Z.of_nat (length ta) in
    if ntids =? 0 then Error EmptyTidArray w else Ok ntids.

(** Lines 358-379; [is_owner] is the answer of [pg_class_ownercheck]. *)
Definition sanity_check_relation (is_owner : bool) (rel : Relation) (w : World)
  : result unit :=
  if negb (Ascii.eqb (rd_relkind rel) RELKIND_RELATION) &&
     negb (Ascii.eqb (rd_relkind rel) RELKIND_MATVIEW) &&
     negb (Ascii.eqb (rd_relkind rel) RELKIND_TOASTVALUE)
  then Error WrongObjectType w
  else if negb is_owner then Error NotOwner w
  else Ok tt.

(** ** heap_force_common *)

(** Lines 80-311.  [in_recovery] is the answer of [RecoveryInProgress];
    [relation_open] finds the relation.  No cancel request is pending
    at the [CHECK_FOR_INTERRUPTS] of line 159; the one of line 198 is
    inside the critical section, where interrupts are held off.  The
    memory [palloc] returns for [offnos] is modelled as zeroes; the
    loop reads it only where the fetch has written it. *)
Definition heap_force_common (fuel : nat) (in_recovery is_owner : bool)
    (ta : ArrayType) (heap_force_opt : HeapTupleForceOption) (w : World)
  : result World :=
  if in_recovery then Error RecoveryInProgress w
  else
    ntids ← sanity_check_tid_array ta w;
    let w := emit EvRelationOpen w in
    _ ← sanity_check_relation is_owner (w_rel w) w;
    let tids := ARR_DATA_PTR ta in
    let tids := if 1 <? ntids then qsort tidcmp tids else tids in
    let offnos := replicate (Z.to_nat ntids) 0 in
    let nblocks := RelationGetNumberOfBlocks (w_rel w) in
    w ← page_group_loop (heap_force_page fuel heap_force_opt nblocks)
          tids ntids fuel offnos 0 0 w;
    Ok (emit EvRelationClose w).

Definition heap_force_kill (fuel : nat) (in_recovery is_owner : bool)
    (ta : ArrayType) (w : World) : result World :=
  heap_force_common fuel in_recovery is_owner ta HEAP_FORCE_KILL w.

Definition heap_force_freeze (fuel : nat) (in_recovery is_owner : bool)
    (ta : ArrayType) (w : World) : result World :=
  heap_force_common fuel in_recovery is_owner ta HEAP_FORCE_FREEZE w.

(** * Vocabulary of the properties *)

(** ** Frozen headers *)

(** What [freeze_header] leaves in a header. *)
Record frozen_header (blkno : BlockNumber) (offno : OffsetNumber)
    (old new : HeapTupleHeaderData) : Prop := {
  frozen_xmin : t_xmin new = FrozenTransactionId;
  frozen_xmax : t_xmax new = InvalidTransactionId;
  frozen_ctid : t_ctid new = ItemPointerSet blkno offno;
  frozen_xact_bits :
    Z.land (t_infomask new) HEAP_XACT_MASK = Z.lor HEAP_XMIN_FROZEN HEAP_XMAX_INVALID;
  frozen_other_bits :
    Z.land (t_infomask new) (Z.lnot HEAP_XACT_MASK) =
    Z.land (t_infomask old) (Z.lnot HEAP_XACT_MASK);
  frozen_hot_updated : Z.land (t_infomask2 new) HEAP_HOT_UPDATED = 0;
  frozen_keys_updated : Z.land (t_infomask2 new) HEAP_KEYS_UPDATED = 0
}.

(** The visibility fields of a frozen header, as [freeze_header]
    leaves them. *)
Definition frozen_visibility (htup : HeapTupleHeaderData) : Prop :=
  t_xmin htup = FrozenTransactionId /\
  t_xmax htup = InvalidTransactionId /\
  Z.land (t_infomask htup) HEAP_XACT_MASK = Z.lor HEAP_XMIN_FROZEN HEAP_XMAX_INVALID /\
  Z.land (t_infomask2 htup) HEAP_HOT_UPDATED = 0 /\
  Z.land (t_infomask2 htup) HEAP_KEYS_UPDATED = 0.

(** Force-freeze never writes a line pointer, and what it writes into a
    tuple header is a frozen header on the same block. *)
Definition freeze_preserved (blkno : BlockNumber) (off : Z) (page0 page : Page) : Prop :=
  pd_linp page = pd_linp page0 /\
  (frozen_visibility (pd_tuples page0 off) /\ ip_blkid (t_ctid (pd_tuples page0 off)) = blkno ->
   frozen_visibility (pd_tuples page off) /\ ip_blkid (t_ctid (pd_tuples page off)) = blkno).

(** ** Redirect chains *)

(** [resolves_to page offno cur]: the redirections that start at
    [offno] stay inside the line pointer array and end, after finitely
    many line pointers, at the one at [cur], which is not a redirect. *)
Inductive resolves_to (page : Page) : OffsetNumber -> OffsetNumber -> Prop :=
| resolves_here offno itemid :
    PageGetItemId page offno = Some itemid ->
    ItemIdIsRedirected itemid = false ->
    resolves_to page offno offno
| resolves_redirect offno itemid cur :
    PageGetItemId page offno = Some itemid ->
    ItemIdIsRedirected itemid = true ->
    resolves_to page (ItemIdGetRedirect itemid) cur ->
    resolves_to page offno cur.

(** The same, counting the redirections followed. *)
Inductive resolves_in (page : Page) : nat -> OffsetNumber -> OffsetNumber -> Prop :=
| resolves_in_here offno itemid :
    PageGetItemId page offno = Some itemid ->
    ItemIdIsRedirected itemid = false ->
    resolves_in page O offno offno
| resolves_in_redirect n offno itemid cur :
    PageGetItemId page offno = Some itemid ->
    ItemIdIsRedirected itemid = true ->
    resolves_in page n (ItemIdGetRedirect itemid) cur ->
    resolves_in page (S n) offno cur.

(** ** Steps of a call *)

(** The notices of the loop body, for the tid [(blkno, offno)]. *)
Inductive item_notice (blkno : BlockNumber) (offno : OffsetNumber) : Notice -> Prop :=
| notice_offset : item_notice blkno offno (OffsetOutOfRange blkno offno)
| notice_unused : item_notice blkno offno (AlreadyUnused blkno offno)
| notice_dead : item_notice blkno offno (AlreadyDead blkno offno).

(** Everything the loop body can do to a session. *)
Inductive item_step (heap_force_opt : HeapTupleForceOption)
    (blkno : BlockNumber) (offno : OffsetNumber) (s : Session) : Session -> Prop :=
| step_skip n :
    item_notice blkno offno n ->
    item_step heap_force_opt blkno offno s (ereport_notice n s)
| step_kill cur itemid :
    heap_force_opt = HEAP_FORCE_KILL ->
    PageGetItemId (s_page s) cur = Some itemid ->
    ItemIdIsNormal itemid = true ->
    item_step heap_force_opt blkno offno s (force_kill_item blkno cur itemid s)
| step_freeze cur itemid :
    heap_force_opt = HEAP_FORCE_FREEZE ->
    PageGetItemId (s_page s) cur = Some itemid ->
    ItemIdIsNormal itemid = true ->
    item_step heap_force_opt blkno offno s (force_freeze_item blkno offno itemid s).

(** The world while a session on [blkno] is under way: the buffer is
    the page of the relation. *)
Definition session_world (blkno : BlockNumber) (s : Session) (rel : Relation) : World :=
  {| w_rel := set_page blkno (s_page s) (s_vm s) rel; w_log := s_log s |}.

(** A call advances by trace events and by the work on single tids. *)
Inductive world_step (heap_force_opt : HeapTupleForceOption) : World -> World -> Prop :=
| ws_emit w ev :
    world_step heap_force_opt w (emit ev w)
| ws_item rel blkno offno s s' :
    (N.to_nat blkno < length (rd_pages rel))%nat ->
    item_step heap_force_opt blkno offno s s' ->
    world_step heap_force_opt (session_world blkno s rel) (session_world blkno s' rel).

(** ** Validation *)

(** The five conditions that are fatal to a call. *)
Inductive fatal_error_applies (in_recovery is_owner : bool) (ta : ArrayType)
    (rel : Relation) : ErrCode -> Prop :=
| fatal_recovery :
    in_recovery = true ->
    fatal_error_applies in_recovery is_owner ta rel RecoveryInProgress
| fatal_nulls :
    None ∈ ta ->
    fatal_error_applies in_recovery is_owner ta rel NullValueNotAllowed
| fatal_empty :
    ta = [] ->
    fatal_error_applies in_recovery is_owner ta rel EmptyTidArray
| fatal_kind :
    rd_relkind rel <> RELKIND_RELATION ->
    rd_relkind rel <> RELKIND_MATVIEW ->
    rd_relkind rel <> RELKIND_TOASTVALUE ->
    fatal_error_applies in_recovery is_owner ta rel WrongObjectType
| fatal_owner :
    is_owner = false ->
    fatal_error_applies in_recovery is_owner ta rel NotOwner.

(** The relation kind passes [sanity_check_relation]. *)
Definition relkind_supported (rel : Relation) : bool :=
  negb (negb (Ascii.eqb (rd_relkind rel) RELKIND_RELATION) &&
        negb (Ascii.eqb (rd_relkind rel) RELKIND_MATVIEW) &&
        negb (Ascii.eqb (rd_relkind rel) RELKIND_TOASTVALUE)).

(** ** Page groups *)

(** The longest prefix of [tids] on block [blkno]. *)
Fixpoint same_block_run (blkno : BlockNumber) (tids : list ItemPointerData)
  : list ItemPointerData :=
  match tids with
  | [] => []
  | tid :: rest =>
      if (blkno =? ip_blkid tid)%N then tid :: same_block_run blkno rest else []
  end.

(** The maximal runs of tids on one block, each as the block number
    and the offsets of the run. *)
Fixpoint group_tids (tids : list ItemPointerData)
  : list (BlockNumber * list OffsetNumber) :=
  match tids with
  | [] => []
  | tid :: rest =>
      match group_tids rest with
      | (blkno, offnos) :: groups =>
          if (ip_blkid tid =? blkno)%N
          then (blkno, ip_posid tid :: offnos) :: groups
          else (ip_blkid tid, [ip_posid tid]) :: (blkno, offnos) :: groups
      | [] => [(ip_blkid tid, [ip_posid tid])]
      end
  end.

(** The tids a list of groups stands for. *)
Definition ungroup (groups : list (BlockNumber * list OffsetNumber))
  : list ItemPointerData :=
  concat (map (fun g => map (mkTid (fst g)) (snd g)) groups).

(** A loop body applied to each group in turn. *)
Fixpoint run_groups {St : Type}
    (body : BlockNumber -> list OffsetNumber -> St -> result St)
    (groups : list (BlockNumber * list OffsetNumber)) (st : St) : result St :=
  match groups with
  | [] => Ok st
  | (blkno, offnos) :: groups' =>
      st' ← body blkno offnos st; run_groups body groups' st'
  end.

(** The order [tidcmp] sorts by. *)
Definition tid_le (a b : ItemPointerData) : Prop := tidcmp a b <= 0.

(** The array the page loop works on (lines 107-115). *)
Definition sorted_tids (tids : list ItemPointerData) : list ItemPointerData :=
  if 1 <? Z.of_nat (length tids) then qsort tidcmp tids else tids.

(** What the groups of a sorted array look like. *)
Record groups_ordered (groups : list (BlockNumber * list OffsetNumber)) : Prop := {
  offsets_ascending : Forall (fun g => Sorted Z.le (snd g)) groups;
  blocks_increasing : StronglySorted N.lt (map fst groups);
  blocks_once : NoDup (map fst groups)
}.

(** ** Line pointers and visibility across a call *)

(** Some line pointer that was normal on [page] is dead on [page']. *)
Definition marked_dead (page page' : Page) : Prop :=
  exists (i : nat) (itemid itemid' : ItemIdData),
    pd_linp page !! i = Some itemid /\ pd_linp page' !! i = Some itemid' /\
    ItemIdIsNormal itemid = true /\ ItemIdIsDead itemid' = true.

(** The coupling between a page that was all-visible in [rel0] and
    the visibility state, at any moment of a force-kill call. *)
Definition visibility_coupled (rel0 rel : Relation) : Prop :=
  forall (blkno : BlockNumber) (page0 : Page),
    rd_pages rel0 !! N.to_nat blkno = Some page0 ->
    PageIsAllVisible page0 = true ->
    exists page,
      rd_pages rel !! N.to_nat blkno = Some page /\
      (page = page0 \/
       (marked_dead page0 page /\ PageIsAllVisible page = false /\
        Z.land (visibilitymap_get_status (rd_vm rel) blkno)
          VISIBILITYMAP_ALL_VISIBLE = 0)).

(** A line pointer is as it was, or was normal and is dead now. *)
Definition slot_preserved (itemid0 itemid : ItemIdData) : Prop :=
  itemid = itemid0 \/ (ItemIdIsNormal itemid0 = true /\ ItemIdIsDead itemid = true).

(** The same for each line pointer of a page, and for each page of a
    relation. *)
Definition linp_preserved (page0 page : Page) : Prop :=
  Forall2 slot_preserved (pd_linp page0) (pd_linp page).

Definition pages_preserved (rel0 rel : Relation) : Prop :=
  Forall2 linp_preserved (rd_pages rel0) (rd_pages rel).

(** ** Traces *)

(** The events of a call on one tid that changes nothing and reports
    the notice [n]. *)
Definition untouched_page_events (opt : HeapTupleForceOption) (blkno : BlockNumber)
    (page : Page) (n : Notice) : list Event :=
  [EvRelationOpen; EvReadBuffer blkno] ++
  (if pin_vm opt page then [EvVmPin blkno] else []) ++
  [EvNotice n; EvUnlockReleaseBuffer blkno] ++
  (if pin_vm opt page then [EvReleaseVmBuffer blkno] else []) ++
  [EvRelationClose].

(** The block a notice, or an event, is about. *)
Definition notice_block (n : Notice) : BlockNumber :=
  match n with
  | BlockOutOfRange blkno => blkno
  | OffsetOutOfRange blkno _ => blkno
  | AlreadyUnused blkno _ => blkno
  | AlreadyDead blkno _ => blkno
  end.

Definition event_block (ev : Event) : option BlockNumber :=
  match ev with
  | EvNotice n => Some (notice_block n)
  | EvRelationOpen | EvRelationClose => None
  | EvReadBuffer blkno | EvVmPin blkno | EvVmClear blkno | EvMarkBufferDirty blkno
  | EvLogNewPage blkno | EvLogNewVmPage blkno | EvUnlockReleaseBuffer blkno
  | EvReleaseVmBuffer blkno => Some blkno
  end.

(** [log] is [log0] followed by events that all satisfy [P]. *)
Definition extends (P : Event -> Prop) (log0 log : list Event) : Prop :=
  exists evs, log = log0 ++ evs /\ Forall P evs.

(** The events of a pass over a block of the relation are about that
    block, start with its read, and hold no BlockOutOfRange notice. *)
Definition in_range_event (blkno : BlockNumber) (ev : Event) : Prop :=
  event_block ev = Some blkno /\ ev <> EvNotice (BlockOutOfRange blkno).

(** An event that, if it is about a block past the end of the
    relation, is the BlockOutOfRange notice for that block. *)
Definition out_of_range_only_notice (nblocks : N) (ev : Event) : Prop :=
  forall blkno,
    event_block ev = Some blkno -> (nblocks <= blkno)%N ->
    ev = EvNotice (BlockOutOfRange blkno).

(** ** Relations on which calls return *)

(** Every line pointer of the page starts a redirect chain that ends
    inside the page. *)
Definition page_chains_ok (page : Page) : Prop :=
  forall offno, 1 <= offno <= PageGetMaxOffsetNumber page ->
    exists cur, resolves_to page offno cur.

(** A relation of [nblocks] pages whose redirect chains end and whose
    line pointer arrays are no longer than [fuel]. *)
Definition relation_ok (nblocks : N) (fuel : nat) (rel : Relation) : Prop :=
  length (rd_pages rel) = N.to_nat nblocks /\
  Forall (fun page => page_chains_ok page /\ (length (pd_linp page) <= fuel)%nat)
    (rd_pages rel).

(** ** Further vocabulary *)

(** *** What a call may write *)

(** A line pointer after a force-kill: as it was, or it was normal and
    has been set dead. *)
Definition killed_slot (itemid0 itemid : ItemIdData) : Prop :=
  itemid = itemid0 \/
  (ItemIdIsNormal itemid0 = true /\ itemid = ItemIdSetDead itemid0).

(** A page after a force-kill: no tuple header is written, and the
    page is as it was or has lost PD_ALL_VISIBLE. *)
Definition kill_frame_page (page0 page : Page) : Prop :=
  Forall2 killed_slot (pd_linp page0) (pd_linp page) /\
  pd_tuples page = pd_tuples page0 /\
  (page = page0 \/
   pd_flags page = Z.land (pd_flags page0) (Z.lnot PD_ALL_VISIBLE)).

(** A relation after a force-kill: the visibility map bits of a block
    are as they were, or have lost the all-visible bit. *)
Definition kill_frame (rel0 rel : Relation) : Prop :=
  Forall2 kill_frame_page (rd_pages rel0) (rd_pages rel) /\
  forall blkno : BlockNumber,
    rd_vm rel !! blkno = rd_vm rel0 !! blkno \/
    rd_vm rel !! blkno =
      (fun bits => Z.land bits (Z.lnot VISIBILITYMAP_ALL_VISIBLE)) <$> rd_vm rel0 !! blkno.

(** A page of block [blkno] after a force-freeze: line pointers and
    flags are as they were, and a header that was written belongs to a
    normal line pointer and is one [freeze_header] of what it was. *)
Definition freeze_frame_page (blkno : BlockNumber) (page0 page : Page) : Prop :=
  pd_linp page = pd_linp page0 /\
  pd_flags page = pd_flags page0 /\
  forall off,
    pd_tuples page off = pd_tuples page0 off \/
    exists offno itemid,
      itemid ∈ pd_linp page0 /\ ItemIdIsNormal itemid = true /\
      lp_off itemid = off /\
      pd_tuples page off = freeze_header blkno offno (pd_tuples page0 off).

Definition freeze_frame (rel0 rel : Relation) : Prop :=
  rd_vm rel = rd_vm rel0 /\
  length (rd_pages rel) = length (rd_pages rel0) /\
  forall (blkno : BlockNumber) page0,
    rd_pages rel0 !! N.to_nat blkno = Some page0 ->
    exists page,
      rd_pages rel !! N.to_nat blkno = Some page /\
      freeze_frame_page blkno page0 page.

(** *** One pass over a page *)

Definition opt_ev (b : bool) (ev : Event) : list Event := if b then [ev] else [].

(** What the loop body adds to the trace while it works on the group
    [offnos] of block [blkno]: a notice for one of the offsets, or the
    clearing of the visibility map bit by a force-kill. *)
Definition item_event (opt : HeapTupleForceOption) (blkno : BlockNumber)
    (offnos : list OffsetNumber) (ev : Event) : Prop :=
  (exists offno n, offno ∈ offnos /\ item_notice blkno offno n /\ ev = EvNotice n) \/
  (opt = HEAP_FORCE_KILL /\ ev = EvVmClear blkno).

(** How the session [s'] follows from [s] when the loop body has run
    over offsets among [offnos] and added [evs] to the trace. *)
Record session_extends (opt : HeapTupleForceOption) (blkno : BlockNumber)
    (offnos : list OffsetNumber) (s s' : Session) (evs : list Event) : Prop := {
  se_log : s_log s' = s_log s ++ evs;
  se_events : Forall (item_event opt blkno offnos) evs;
  se_page_kept : did_modify_page s' = false -> s_page s' = s_page s;
  se_page_flag : did_modify_page s = true -> did_modify_page s' = true;
  se_vm_kept : did_modify_vm s' = false -> s_vm s' = s_vm s;
  se_vm_flag : did_modify_vm s = true -> did_modify_vm s' = true;
  se_vm_cleared :
    did_modify_vm s' = true -> did_modify_vm s = true \/ EvVmClear blkno ∈ evs;
  se_clear :
    EvVmClear blkno ∈ evs ->
    PageIsAllVisible (s_page s) = true /\ opt = HEAP_FORCE_KILL /\
    did_modify_page s' = true /\ did_modify_vm s' = true;
  se_all_visible :
    PageIsAllVisible (s_page s') = true -> PageIsAllVisible (s_page s) = true;
  se_vm_frame : forall b : BlockNumber, b <> blkno -> s_vm s' !! b = s_vm s !! b
}.

(** What a pass over block [blkno] leaves in the trace and in the
    relation, for the events [evs] it added. *)
Definition page_written (blkno : BlockNumber) (rel rel' : Relation)
    (evs : list Event) : Prop :=
  rd_pages rel' !! N.to_nat blkno = rd_pages rel !! N.to_nat blkno \/
  (EvMarkBufferDirty blkno ∈ evs /\
   (rd_needs_wal rel = true -> EvLogNewPage blkno ∈ evs)).

Definition vm_written (blkno : BlockNumber) (rel rel' : Relation)
    (evs : list Event) : Prop :=
  rd_vm rel' !! blkno = rd_vm rel !! blkno \/
  (EvVmClear blkno ∈ evs /\
   (rd_needs_wal rel = true -> EvLogNewVmPage blkno ∈ evs)).

(** *** The trace of a call *)

(** The events of one pass over a block of the relation: the read and
    lock, the pin of the visibility map page, the events of the loop
    body, the dirtying and logging, and the releases. *)
Definition session_events (opt : HeapTupleForceOption) (wal : bool)
    (blkno : BlockNumber) (offnos : list OffsetNumber) (evs : list Event) : Prop :=
  exists (pinned modified vm_modified : bool) (ievs : list Event),
    evs = [EvReadBuffer blkno] ++ opt_ev pinned (EvVmPin blkno) ++ ievs ++
          opt_ev modified (EvMarkBufferDirty blkno) ++
          opt_ev (modified && wal) (EvLogNewPage blkno) ++
          opt_ev (vm_modified && wal) (EvLogNewVmPage blkno) ++
          [EvUnlockReleaseBuffer blkno] ++
          opt_ev pinned (EvReleaseVmBuffer blkno) /\
    Forall (item_event opt blkno offnos) ievs /\
    (pinned = true -> opt = HEAP_FORCE_KILL) /\
    (vm_modified = true -> pinned = true) /\
    (EvVmClear blkno ∈ ievs -> pinned = true).

(** The events of one trip round the do-while loop, for the group
    [g]. *)
Definition group_events (opt : HeapTupleForceOption) (wal : bool) (nblocks : N)
    (g : BlockNumber * list OffsetNumber) (evs : list Event) : Prop :=
  if (nblocks <=? g.1)%N then evs = [EvNotice (BlockOutOfRange g.1)]
  else session_events opt wal g.1 g.2 evs.

(** The blocks read, in the order of the trace. *)
Definition read_blocks (evs : list Event) : list BlockNumber :=
  omap (fun ev => match ev with EvReadBuffer blkno => Some blkno | _ => None end) evs.

(** The events an operation can produce at all on a relation that
    needs WAL or does not. *)
Definition event_allowed (opt : HeapTupleForceOption) (wal : bool) (ev : Event) : bool :=
  match ev with
  | EvVmPin _ | EvVmClear _ | EvReleaseVmBuffer _ =>
      match opt with HEAP_FORCE_KILL => true | HEAP_FORCE_FREEZE => false end
  | EvLogNewVmPage _ =>
      match opt with HEAP_FORCE_KILL => wal | HEAP_FORCE_FREEZE => false end
  | EvLogNewPage _ => wal
  | _ => true
  end.

(** *** The buffer protocol *)

(** Where a call stands with the storage manager: the relation not yet
    opened; opened with no buffer held; the buffer of [blkno] locked,
    with the visibility map page pinned or not and the buffer marked
    dirty or not; only the visibility map page still pinned; the
    relation closed. *)
Inductive Protocol : Type :=
| PIdle
| POpen
| PLocked (blkno : BlockNumber) (pinned dirty : bool)
| PVmPinned (blkno : BlockNumber)
| PClosed.

(** The event is about block [blkno]. *)
Definition event_about (blkno : BlockNumber) (ev : Event) : bool :=
  match event_block ev with
  | Some b => (b =? blkno)%N
  | None => false
  end.

(** The accesses the buffer manager and the visibility map allow in
    each state: the visibility map page is cleared or logged only while
    pinned, a page is logged only once its buffer is marked dirty, and
    nothing is read while a buffer is held. *)
Definition protocol_step (st : Protocol) (ev : Event) : option Protocol :=
  match st with
  | PIdle =>
      match ev with EvRelationOpen => Some POpen | _ => None end
  | POpen =>
      match ev with
      | EvNotice (BlockOutOfRange _) => Some POpen
      | EvReadBuffer blkno => Some (PLocked blkno false false)
      | EvRelationClose => Some PClosed
      | _ => None
      end
  | PLocked blkno pinned dirty =>
      if event_about blkno ev then
        match ev with
        | EvNotice (BlockOutOfRange _) => None
        | EvNotice _ => Some st
        | EvVmPin _ => if pinned then None else Some (PLocked blkno true dirty)
        | EvVmClear _ => if pinned then Some st else None
        | EvMarkBufferDirty _ => Some (PLocked blkno pinned true)
        | EvLogNewPage _ => if dirty then Some st else None
        | EvLogNewVmPage _ => if pinned then Some st else None
        | EvUnlockReleaseBuffer _ =>
            Some (if pinned then PVmPinned blkno else POpen)
        | _ => None
        end
      else None
  | PVmPinned blkno =>
      match ev with
      | EvReleaseVmBuffer b => if (b =? blkno)%N then Some POpen else None
      | _ => None
      end
  | PClosed => None
  end.

Fixpoint protocol_run (st : Protocol) (evs : list Event) : option Protocol :=
  match evs with
  | [] => Some st
  | ev :: evs' =>
      match protocol_step st ev with
      | Some st' => protocol_run st' evs'
      | None => None
      end
  end.

(** *** What a notice reports *)

(** The redirections from [offno] end at [cur], where the line pointer
    is [itemid]. *)
Definition chain_target (page : Page) (offno cur : OffsetNumber)
    (itemid : ItemIdData) : Prop :=
  resolves_to page offno cur /\ PageGetItemId page cur = Some itemid.

(** What makes the loop body skip a row identifier with the notice
    [n], said of the page as the call found it.  A force-kill reports
    as dead also what an earlier row identifier of the same batch has
    made it kill. *)
Definition notice_reason (opt : HeapTupleForceOption) (page : Page) (n : Notice) : Prop :=
  match n with
  | BlockOutOfRange _ => False
  | OffsetOutOfRange _ offno => offno = 0 \/ PageGetMaxOffsetNumber page < offno
  | AlreadyUnused _ offno =>
      exists cur itemid,
        chain_target page offno cur itemid /\ ItemIdIsUsed itemid = false
  | AlreadyDead _ offno =>
      exists cur itemid,
        chain_target page offno cur itemid /\
        (ItemIdIsDead itemid = true \/
         (opt = HEAP_FORCE_KILL /\ ItemIdIsNormal itemid = true))
  end.


(** A page in the course of a call, against the page before it. *)
Definition page_between (opt : HeapTupleForceOption) (page0 page : Page) : Prop :=
  linp_preserved page0 page /\
  (opt = HEAP_FORCE_FREEZE -> pd_linp page = pd_linp page0).

(** *** Redirections that end, and that never end *)

(** The redirections from [offno] pass through the line pointer at
    [o]. *)
Inductive chain_visits (page : Page) (offno : OffsetNumber) : OffsetNumber -> Prop :=
| visits_start : chain_visits page offno offno
| visits_next o itemid :
    chain_visits page offno o ->
    PageGetItemId page o = Some itemid ->
    ItemIdIsRedirected itemid = true ->
    chain_visits page offno (ItemIdGetRedirect itemid).

(** The redirections from [offno] stay inside the line pointer array. *)
Definition chain_in_page (page : Page) (offno : OffsetNumber) : Prop :=
  forall o, chain_visits page offno o -> 1 <= o <= PageGetMaxOffsetNumber page.

(** The redirections from [offno] run in a cycle: [offno] is among
    line pointers that are all redirects to one another. *)
Definition redirect_cycle (page : Page) (offno : OffsetNumber) : Prop :=
  exists offnos : list OffsetNumber,
    offno ∈ offnos /\
    Forall (fun o => exists itemid,
              PageGetItemId page o = Some itemid /\
              ItemIdIsRedirected itemid = true /\
              ItemIdGetRedirect itemid ∈ offnos) offnos.

(** *** Writes *)

(** The events that change storage. *)
Definition event_writes (ev : Event) : bool :=
  match ev with
  | EvVmClear _ | EvMarkBufferDirty _ | EvLogNewPage _ | EvLogNewVmPage _ => true
  | _ => false
  end.

(** No row identifier of the batch reaches a normal line pointer of
    the relation. *)
Definition nothing_to_do (ta : ArrayType) (rel : Relation) : Prop :=
  forall tid page cur itemid,
    Some tid ∈ ta ->
    rd_pages rel !! N.to_nat (ip_blkid tid) = Some page ->
    chain_target page (ip_posid tid) cur itemid ->
    ItemIdIsNormal itemid = false.

(** *** Tuples the batch does not reach *)

(** Some row identifier of the batch, on block [blkno], has
    redirections that end at [cur]. *)
Definition reached (ta : ArrayType) (blkno : BlockNumber) (page : Page)
    (cur : OffsetNumber) : Prop :=
  exists tid,
    Some tid ∈ ta /\ ip_blkid tid = blkno /\ resolves_to page (ip_posid tid) cur.

(** The page [page] against [page0], when only the offsets in [named]
    have been worked on: a line pointer that the redirections from
    those offsets do not end at is as it was, and so is a tuple header
    that no normal line pointer they end at points to. *)
Definition untouched_page (opt : HeapTupleForceOption) (named : OffsetNumber -> Prop)
    (page0 page : Page) : Prop :=
  page_between opt page0 page /\
  (forall cur,
     (forall offno, named offno -> ~ resolves_to page0 offno cur) ->
     PageGetItemId page cur = PageGetItemId page0 cur) /\
  (forall off,
     (forall offno cur itemid,
        named offno -> chain_target page0 offno cur itemid ->
        ItemIdIsNormal itemid = true -> lp_off itemid <> off) ->
     pd_tuples page off = pd_tuples page0 off).

(** ** Sample states *)

Module Sample.
Definition hdr (off : Z) : HeapTupleHeaderData :=
  {| t_xmin := 700 + off; t_xmax := 0; t_xvac := 0;
     t_ctid := ItemPointerSet 0%N 1;
     t_infomask2 := 0x4005; t_infomask := 0x0902 |}.

(** An all-visible page with five line pointers: a normal one, a
    redirect to the third, a normal one, a dead one, an unused one. *)
Definition page : Page :=
  {| pd_flags := PD_ALL_VISIBLE;
     pd_linp := [ mkItemId 100 LP_NORMAL 28; mkItemId 3 LP_REDIRECT 0;
                  mkItemId 200 LP_NORMAL 28; mkItemId 0 LP_DEAD 0;
                  mkItemId 0 LP_UNUSED 0 ];
     pd_tuples := hdr |}.

(** A damaged page: its only line pointer redirects to itself. *)
Definition cyclic_page : Page :=
  {| pd_flags := 0;
     pd_linp := [ mkItemId 1 LP_REDIRECT 0 ];
     pd_tuples := hdr |}.

Definition rel : Relation :=
  {| rd_relkind := RELKIND_RELATION; rd_needs_wal := true;
     rd_pages := [page];
     rd_vm := {[ 0%N := VISIBILITYMAP_ALL_VISIBLE ]} |}.

Definition cyclic_rel : Relation :=
  {| rd_relkind := RELKIND_RELATION; rd_needs_wal := true;
     rd_pages := [cyclic_page]; rd_vm := ∅ |}.

Definition world : World := {| w_rel := rel; w_log := [] |}.
Definition cyclic_world : World := {| w_rel := cyclic_rel; w_log := [] |}.

Definition session : Session :=
  {| s_page := page; s_vm := rd_vm rel; s_log := [];
     did_modify_page := false; did_modify_vm := false |}.

(** A batch of 65536 tids, all naming tuple (0, 1). *)
Definition big_batch : list ItemPointerData :=
  replicate (Z.to_nat 65536) (mkTid 0%N 1).

(** The outcome of sample calls. *)
Definition returned (r : result World) : World :=
  match r with Ok w' => w' | _ => world end.

Definition frozen_world : World :=
  returned (heap_force_freeze 5 false true [Some (mkTid 0%N 2)] world).

Definition killed_world : World :=
  returned (heap_force_kill 5 false true [Some (mkTid 0%N 2)] world).

(** An index: a relation kind the functions do not support. *)
Definition index_rel : Relation :=
  {| rd_relkind := "i"%char; rd_needs_wal := true;
     rd_pages := [page]; rd_vm := ∅ |}.

Definition index_world : World := {| w_rel := index_rel; w_log := [] |}.

(** A relation of two blocks that needs no WAL. *)
Definition two_block_rel : Relation :=
  {| rd_relkind := RELKIND_RELATION; rd_needs_wal := false;
     rd_pages := [page; page];
     rd_vm := {[ 0%N := 1; 1%N := 3 ]} |}.

Definition two_block_world : World := {| w_rel := two_block_rel; w_log := [] |}.
End Sample.

(** * Properties *)

(** ** Item pointers *)

Lemma ItemPointerCompare_eq (a b : ItemPointerData) :
  ItemPointerCompare a b = 0 <-> a = b.
Proof.
  destruct a as [b1 o1], b as [b2 o2].
  unfold ItemPointerCompare, ItemPointerGetBlockNumberNoCheck,
    ItemPointerGetOffsetNumberNoCheck; simpl.
  split.
  - destruct (N.ltb_spec b1 b2), (N.ltb_spec b2 b1), (Z.ltb_spec o1 o2),
      (Z.ltb_spec o2 o1); try discriminate; intros _; f_equal; lia.
  - intros [= -> ->]. rewrite !N.ltb_irrefl, !Z.ltb_irrefl. reflexivity.
Qed.

Lemma ItemPointerEquals_spec (a b : ItemPointerData) :
  ItemPointerEquals a b = true <-> a = b.
Proof.
  unfold ItemPointerEquals. rewrite Z.eqb_eq. apply ItemPointerCompare_eq.
Qed.

(** ** Freezing a tuple header *)

Lemma land_clear_set (m mask bits : Z) :
  Z.land bits mask = bits ->
  Z.land (Z.lor (Z.land m (Z.lnot mask)) bits) mask = bits.
Proof.
  intros Hb.
  rewrite Z.land_lor_distr_l, <- Z.land_assoc, (Z.land_comm (Z.lnot mask)).
  rewrite Z.land_lnot_diag, Z.land_0_r, Z.lor_0_l. exact Hb.
Qed.

Lemma land_clear_keep (m mask bits : Z) :
  Z.land bits mask = bits ->
  Z.land (Z.lor (Z.land m (Z.lnot mask)) bits) (Z.lnot mask) = Z.land m (Z.lnot mask).
Proof.
  intros Hb.
  rewrite Z.land_lor_distr_l, <- Z.land_assoc, Z.land_diag.
  rewrite <- Hb, <- Z.land_assoc, Z.land_lnot_diag, Z.land_0_r, Z.lor_0_r.
  reflexivity.
Qed.

Lemma land_cleared (m mask : Z) : Z.land (Z.land m (Z.lnot mask)) mask = 0.
Proof.
  rewrite <- Z.land_assoc, (Z.land_comm (Z.lnot mask)), Z.land_lnot_diag.
  apply Z.land_0_r.
Qed.

Lemma freeze_header_xmin blkno offno htup :
  t_xmin (freeze_header blkno offno htup) = FrozenTransactionId.
Proof. unfold freeze_header. repeat case_match; reflexivity. Qed.

Lemma freeze_header_xmax blkno offno htup :
  t_xmax (freeze_header blkno offno htup) = InvalidTransactionId.
Proof. unfold freeze_header. repeat case_match; reflexivity. Qed.

Lemma freeze_header_ctid blkno offno htup :
  t_ctid (freeze_header blkno offno htup) = ItemPointerSet blkno offno.
Proof.
  unfold freeze_header.
  destruct (ItemPointerEquals (ItemPointerSet blkno offno) (t_ctid htup)) eqn:E.
  - apply ItemPointerEquals_spec in E. simpl. repeat case_match; simpl; congruence.
  - simpl. repeat case_match; reflexivity.
Qed.

Lemma freeze_header_infomask blkno offno htup :
  t_infomask (freeze_header blkno offno htup) =
  Z.lor (Z.land (t_infomask htup) (Z.lnot HEAP_XACT_MASK))
        (Z.lor HEAP_XMIN_FROZEN HEAP_XMAX_INVALID).
Proof. unfold freeze_header. repeat case_match; reflexivity. Qed.

Lemma freeze_header_infomask2 blkno offno htup :
  t_infomask2 (freeze_header blkno offno htup) =
  Z.land (Z.land (t_infomask2 htup) (Z.lnot HEAP_HOT_UPDATED)) (Z.lnot HEAP_KEYS_UPDATED).
Proof. unfold freeze_header. repeat case_match; reflexivity. Qed.

Lemma freeze_header_frozen blkno offno htup :
  frozen_header blkno offno htup (freeze_header blkno offno htup).
Proof.
  split.
  - apply freeze_header_xmin.
  - apply freeze_header_xmax.
  - apply freeze_header_ctid.
  - rewrite freeze_header_infomask. apply land_clear_set. reflexivity.
  - rewrite freeze_header_infomask. apply land_clear_keep. reflexivity.
  - rewrite freeze_header_infomask2.
    rewrite <- Z.land_assoc, (Z.land_comm (Z.lnot HEAP_KEYS_UPDATED)), Z.land_assoc.
    rewrite land_cleared. reflexivity.
  - rewrite freeze_header_infomask2. apply land_cleared.
Qed.

(** ** Redirect chains *)

Lemma resolves_to_in page offno cur :
  resolves_to page offno cur <-> exists n, resolves_in page n offno cur.
Proof.
  split.
  - induction 1 as [offno itemid Hget Hred | offno itemid cur Hget Hred _ [n IH]].
    + exists O. econstructor; eassumption.
    + exists (S n). econstructor; eassumption.
  - intros [n Hn]. induction Hn.
    + econstructor 1; eassumption.
    + econstructor 2; eassumption.
Qed.

Lemma resolves_in_det page n m offno cur cur' :
  resolves_in page n offno cur -> resolves_in page m offno cur' ->
  n = m /\ cur = cur'.
Proof.
  intros Hn. revert m cur'.
  induction Hn as [offno itemid Hget Hred | n offno itemid cur Hget Hred Hn IH];
    intros m cur' Hm; inversion Hm; subst; try congruence.
  - auto.
  - assert (itemid0 = itemid) by congruence. subst.
    destruct (IH _ _ H1) as [-> ->]. auto.
Qed.

Lemma PageGetItemId_range page offno itemid :
  PageGetItemId page offno = Some itemid ->
  1 <= offno <= PageGetMaxOffsetNumber page.
Proof.
  unfold PageGetItemId, PageGetMaxOffsetNumber.
  destruct (1 <=? offno) eqn:E; [|discriminate].
  intros H%lookup_lt_Some. lia.
Qed.

Lemma resolves_in_range page n offno cur :
  resolves_in page n offno cur -> 1 <= offno <= PageGetMaxOffsetNumber page.
Proof. destruct 1; eapply PageGetItemId_range; eassumption. Qed.

(** The offsets a chain passes through are pairwise distinct: a
    repeated one would resolve in two different numbers of steps. *)
Lemma resolves_in_visited page n offno cur :
  resolves_in page n offno cur ->
  exists visited : list Z,
    length visited = S n /\ NoDup visited /\
    forall v, v ∈ visited ->
      exists m, (m <= n)%nat /\ resolves_in page m v cur.
Proof.
  induction 1 as [offno itemid Hget Hred | n offno itemid cur Hget Hred Hn IH].
  - exists [offno]. split; [reflexivity|]. split.
    + apply NoDup_singleton.
    + intros v ->%list_elem_of_singleton. exists O. split; [lia|].
      econstructor; eassumption.
  - destruct IH as (visited & Hlen & Hnd & Hall).
    exists (offno :: visited). split; [simpl; lia|]. split.
    + apply NoDup_cons. split; [|assumption].
      intros Hin. destruct (Hall _ Hin) as (m & Hm & Hres).
      assert (Hfull : resolves_in page (S n) offno cur)
        by (econstructor; eassumption).
      destruct (resolves_in_det _ _ _ _ _ _ Hfull Hres). lia.
    + intros v [->|Hin]%elem_of_cons.
      * exists (S n). split; [lia|]. econstructor; eassumption.
      * destruct (Hall _ Hin) as (m & Hm & Hres). exists m. split; [lia|assumption].
Qed.

Lemma resolves_in_bound page n offno cur :
  resolves_in page n offno cur -> (n < length (pd_linp page))%nat.
Proof.
  intros H. destruct (resolves_in_visited _ _ _ _ H) as (visited & Hlen & Hnd & Hall).
  assert (Hsub : visited ⊆+ seqZ 1 (PageGetMaxOffsetNumber page)).
  { apply NoDup_submseteq; [assumption|].
    intros v Hv. destruct (Hall _ Hv) as (m & _ & Hres).
    apply resolves_in_range in Hres. apply elem_of_seqZ. lia. }
  apply submseteq_length in Hsub.
  rewrite length_seqZ in Hsub. unfold PageGetMaxOffsetNumber in Hsub. lia.
Qed.

Lemma follow_redirects_resolves_in page n offno cur :
  resolves_in page n offno cur ->
  forall fuel, (n <= fuel)%nat ->
  exists itemid,
    follow_redirects fuel page offno = Ok (cur, itemid) /\
    PageGetItemId page cur = Some itemid /\
    ItemIdIsRedirected itemid = false.
Proof.
  induction 1 as [offno itemid Hget Hred | n offno itemid cur Hget Hred Hn IH];
    intros fuel Hfuel.
  - exists itemid. destruct fuel; simpl; rewrite Hget, Hred; auto.
  - destruct fuel as [|fuel]; [lia|].
    destruct (IH fuel) as (it & Hf & Hit); [lia|].
    exists it. simpl. rewrite Hget, Hred. auto.
Qed.

Lemma follow_redirects_Ok page fuel offno cur itemid :
  follow_redirects fuel page offno = Ok (cur, itemid) ->
  PageGetItemId page cur = Some itemid /\
  ItemIdIsRedirected itemid = false /\
  exists n, (n <= fuel)%nat /\ resolves_in page n offno cur.
Proof.
  revert offno. induction fuel as [|fuel IH]; intros offno; simpl;
    destruct (PageGetItemId page offno) as [it|] eqn:Hget; try discriminate;
    destruct (ItemIdIsRedirected it) eqn:Hred; try discriminate.
  - intros [= <- <-]. repeat split; try assumption.
    exists O. split; [lia|]. econstructor; eassumption.
  - intros H. destruct (IH _ H) as (Hc & Hr & n & Hn & Hres).
    repeat split; try assumption.
    exists (S n). split; [lia|]. econstructor; eassumption.
  - intros [= <- <-]. repeat split; try assumption.
    exists O. split; [lia|]. econstructor; eassumption.
Qed.

(** Fuel beyond what the chain needs changes nothing. *)
Lemma follow_redirects_mono page fuel fuel' offno r :
  follow_redirects fuel page offno = Ok r -> (fuel <= fuel')%nat ->
  follow_redirects fuel' page offno = Ok r.
Proof.
  destruct r as [cur itemid]. intros H Hle.
  destruct (follow_redirects_Ok _ _ _ _ _ H) as (Hget & _ & n & Hn & Hres).
  destruct (follow_redirects_resolves_in _ _ _ _ Hres fuel') as (it & Hf & Hit & _); [lia|].
  congruence.
Qed.

(** ** One targeted tuple *)

Lemma ItemId_flag_cases itemid :
  ItemIdIsUsed itemid = true -> ItemIdIsDead itemid = false ->
  ItemIdIsRedirected itemid = false -> ItemIdIsNormal itemid = true.
Proof.
  unfold ItemIdIsUsed, ItemIdIsDead, ItemIdIsRedirected, ItemIdIsNormal.
  destruct (lp_flags itemid); congruence.
Qed.

Lemma ItemIdIsNormal_inv itemid :
  ItemIdIsNormal itemid = true ->
  ItemIdIsUsed itemid = true /\ ItemIdIsDead itemid = false /\
  ItemIdIsRedirected itemid = false.
Proof.
  unfold ItemIdIsUsed, ItemIdIsDead, ItemIdIsRedirected, ItemIdIsNormal.
  destruct (lp_flags itemid); intros; try discriminate; auto.
Qed.

Lemma heap_force_item_step fuel opt blkno maxoffset offno s s' :
  heap_force_item fuel opt blkno maxoffset offno s = Ok s' ->
  item_step opt blkno offno s s'.
Proof.
  unfold heap_force_item.
  destruct ((offno =? 0) || (maxoffset <? offno)).
  { intros [= <-]. constructor. constructor. }
  destruct (follow_redirects fuel (s_page s) offno) as [[cur itemid]| | |] eqn:Hf;
    simpl; try discriminate.
  destruct (follow_redirects_Ok _ _ _ _ _ Hf) as (Hget & Hred & _).
  destruct (ItemIdIsUsed itemid) eqn:Hused; simpl.
  2:{ intros [= <-]. constructor. constructor. }
  destruct (ItemIdIsDead itemid) eqn:Hdead.
  { intros [= <-]. constructor. constructor. }
  pose proof (ItemId_flag_cases _ Hused Hdead Hred) as Hnormal.
  destruct opt; intros [= <-].
  - eapply step_kill; eauto.
  - eapply step_freeze; eauto.
Qed.

(** What the loop body does when the target resolves. *)
Lemma heap_force_item_resolved fuel opt blkno maxoffset offno s cur itemid :
  offno <> 0 -> offno <= maxoffset ->
  follow_redirects fuel (s_page s) offno = Ok (cur, itemid) ->
  heap_force_item fuel opt blkno maxoffset offno s =
  if negb (ItemIdIsUsed itemid) then Ok (ereport_notice (AlreadyUnused blkno offno) s)
  else if ItemIdIsDead itemid then Ok (ereport_notice (AlreadyDead blkno offno) s)
  else match opt with
       | HEAP_FORCE_KILL => Ok (force_kill_item blkno cur itemid s)
       | HEAP_FORCE_FREEZE => Ok (force_freeze_item blkno offno itemid s)
       end.
Proof.
  intros H0 Hmax Hf. unfold heap_force_item.
  replace (offno =? 0) with false by (symmetry; apply Z.eqb_neq; assumption).
  replace (maxoffset <? offno) with false by (symmetry; apply Z.ltb_ge; assumption).
  simpl. rewrite Hf. simpl.
  destruct (ItemIdIsUsed itemid), (ItemIdIsDead itemid); reflexivity.
Qed.

(** C1.  A targeted row identifier [(blkno, offno)] whose offset is in
    range and whose redirections end at a normal line pointer: the
    force-freeze loop body returns, and the tuple header of that line
    pointer then has xmin = FrozenTransactionId, xmax =
    InvalidTransactionId, t_ctid = (blkno, offno), the bits of
    HEAP_XACT_MASK equal to exactly HEAP_XMIN_FROZEN | HEAP_XMAX_INVALID
    (the other infomask bits as before), and HEAP_HOT_UPDATED and
    HEAP_KEYS_UPDATED clear. *)
Theorem force_freeze_sets_header :
  forall fuel blkno maxoffset offno s cur itemid,
    offno <> 0 -> offno <= maxoffset ->
    follow_redirects fuel (s_page s) offno = Ok (cur, itemid) ->
    ItemIdIsNormal itemid = true ->
    exists s',
      heap_force_item fuel HEAP_FORCE_FREEZE blkno maxoffset offno s = Ok s' /\
      frozen_header blkno offno
        (PageGetItem (s_page s) itemid) (PageGetItem (s_page s') itemid).
Proof.
  intros fuel blkno maxoffset offno s cur itemid H0 Hmax Hf Hnormal.
  destruct (ItemIdIsNormal_inv _ Hnormal) as (Hused & Hdead & _).
  exists (force_freeze_item blkno offno itemid s). split.
  - rewrite (heap_force_item_resolved _ _ _ _ _ _ _ _ H0 Hmax Hf), Hused, Hdead.
    reflexivity.
  - unfold force_freeze_item, PageGetItem, set_tuple; simpl.
    rewrite Z.eqb_refl. apply freeze_header_frozen.
Qed.

Lemma force_freeze_sets_header_witness :
  exists s',
    heap_force_item 5 HEAP_FORCE_FREEZE 0%N 5 2 Sample.session = Ok s' /\
    frozen_header 0%N 2
      (PageGetItem (s_page Sample.session) (mkItemId 200 LP_NORMAL 28))
      (PageGetItem (s_page s') (mkItemId 200 LP_NORMAL 28)).
Proof.
  apply (force_freeze_sets_header 5 0%N 5 2 Sample.session 3 (mkItemId 200 LP_NORMAL 28));
    [lia | lia | reflexivity | reflexivity].
Defined.

(** C8 (as stated, refuted).  On a page whose line pointer redirects to
    itself the [while] loop of lines 194-199 never reaches a
    non-redirect line pointer, whatever the number of iterations
    allowed. *)
Lemma follow_redirects_cycle_never_ends :
  ~ exists fuel r, follow_redirects fuel Sample.cyclic_page 1 = Ok r.
Proof.
  intros (fuel & r & H). induction fuel as [|fuel IH]; simpl in H.
  - discriminate.
  - apply IH. exact H.
Qed.

(** On that page no force-kill call aimed at the line pointer returns,
    whatever the fuel. *)
Lemma heap_force_kill_cycle_never_returns fuel :
  heap_force_kill fuel false true [Some (mkTid 0 1)] Sample.cyclic_world = Timeout.
Proof.
  destruct fuel as [|fuel]; [reflexivity|].
  assert (Hf : follow_redirects (S fuel) Sample.cyclic_page 1 = Timeout).
  { generalize (S fuel). intros n. induction n as [|n IH]; [reflexivity | exact IH]. }
  unfold heap_force_kill, heap_force_common. simpl.
  unfold tids_same_page_fetch_offnums, heap_force_page. simpl.
  unfold heap_force_item. simpl orb. cbv iota.
  change (s_page (session_start HEAP_FORCE_KILL 0 Sample.cyclic_page
                    (emit EvRelationOpen Sample.cyclic_world)))
    with Sample.cyclic_page.
  rewrite Hf. reflexivity.
Qed.

Lemma resolves_in_to page n offno cur :
  resolves_in page n offno cur -> resolves_to page offno cur.
Proof.
  induction 1 as [offno itemid Hget Hred | n offno itemid cur Hget Hred _ IH].
  - eapply resolves_here; eassumption.
  - eapply resolves_redirect; eassumption.
Qed.

Lemma redirect_cycle_unresolved page offno cur :
  redirect_cycle page offno -> ~ resolves_to page offno cur.
Proof.
  intros (offnos & Hin & Hall) Hres. rewrite Forall_forall in Hall.
  induction Hres as [offno it Hit Hred | offno it cur Hit Hred _ IH];
    destruct (Hall _ Hin) as (it' & Hit' & Hred' & Hnext);
    assert (it' = it) by congruence; subst it'.
  - congruence.
  - apply IH. exact Hnext.
Qed.

Lemma PageGetItemId_in_range page offno :
  1 <= offno <= PageGetMaxOffsetNumber page ->
  exists itemid, PageGetItemId page offno = Some itemid.
Proof.
  unfold PageGetItemId, PageGetMaxOffsetNumber. intros Hr.
  replace (1 <=? offno) with true by (symmetry; apply Z.leb_le; lia).
  apply lookup_lt_is_Some. lia.
Qed.

(** Offsets inside the array, no two alike, are no more than the array
    has line pointers. *)
Lemma offsets_pigeonhole page (visited : list OffsetNumber) :
  NoDup visited ->
  (forall x, x ∈ visited -> 1 <= x <= PageGetMaxOffsetNumber page) ->
  (length visited <= length (pd_linp page))%nat.
Proof.
  intros Hnd Hrange.
  assert (Hsub : visited ⊆+ seqZ 1 (PageGetMaxOffsetNumber page)).
  { apply NoDup_submseteq; [assumption|].
    intros v Hv. apply elem_of_seqZ. specialize (Hrange v Hv). lia. }
  apply submseteq_length in Hsub.
  rewrite length_seqZ in Hsub. unfold PageGetMaxOffsetNumber in Hsub. lia.
Qed.

(** A chain that stays inside the array and is not part of a cycle of
    redirects ends: the loop, having come through [visited] to [o]
    without meeting a line pointer twice, gets from [o] to a line
    pointer that is not a redirect. *)
Lemma chain_ends page offno :
  chain_in_page page offno ->
  ~ redirect_cycle page offno ->
  forall (n : nat) (visited : list OffsetNumber) (o : OffsetNumber),
    chain_visits page offno o ->
    offno ∈ visited ++ [o] ->
    (forall x, x ∈ visited ->
       exists itemid,
         PageGetItemId page x = Some itemid /\
         ItemIdIsRedirected itemid = true /\
         ItemIdGetRedirect itemid ∈ visited ++ [o]) ->
    NoDup (visited ++ [o]) ->
    (forall x, x ∈ visited ++ [o] -> 1 <= x <= PageGetMaxOffsetNumber page) ->
    (length (pd_linp page) <= length visited + n)%nat ->
    exists cur, resolves_to page o cur.
Proof.
  intros Hin_page Hacyclic.
  induction n as [|n IH]; intros visited o Hvisit Hstart Hclosed Hnd Hrange Hlen.
  - exfalso. pose proof (offsets_pigeonhole page _ Hnd Hrange) as Hp.
    rewrite length_app in Hp. simpl in Hp. lia.
  - destruct (PageGetItemId_in_range page o) as [itemid Hget].
    { apply Hrange. apply elem_of_app. right. apply list_elem_of_here. }
    destruct (ItemIdIsRedirected itemid) eqn:Hred.
    2:{ exists o. eapply resolves_here; eassumption. }
    pose proof (visits_next _ _ _ _ Hvisit Hget Hred) as Hnext.
    destruct (decide (ItemIdGetRedirect itemid ∈ visited ++ [o])) as [Hseen|Hnew].
    + exfalso. apply Hacyclic. exists (visited ++ [o]). split; [exact Hstart|].
      apply Forall_forall. intros x [Hx|Hx%list_elem_of_singleton]%elem_of_app.
      * apply Hclosed. exact Hx.
      * subst x. exists itemid. auto.
    + destruct (IH (visited ++ [o]) (ItemIdGetRedirect itemid)) as [cur Hres].
      * exact Hnext.
      * apply elem_of_app. by left.
      * intros x [Hx|Hx%list_elem_of_singleton]%elem_of_app.
        -- destruct (Hclosed x Hx) as (it & Hit & Hr & Ht).
           exists it. split; [exact Hit|]. split; [exact Hr|].
           apply elem_of_app. by left.
        -- subst x. exists itemid. split; [exact Hget|]. split; [exact Hred|].
           apply elem_of_app. right. apply list_elem_of_here.
      * apply NoDup_app. split; [exact Hnd|]. split; [|apply NoDup_singleton].
        intros x Hx ->%list_elem_of_singleton. exact (Hnew Hx).
      * intros x [Hx|Hx%list_elem_of_singleton]%elem_of_app.
        -- apply Hrange. exact Hx.
        -- subst x. apply Hin_page. exact Hnext.
      * rewrite length_app. simpl. lia.
      * exists cur. eapply resolves_redirect; eassumption.
Qed.

(** On a chain that ends, the loop makes fewer trips than the page has
    line pointers. *)
Lemma follow_redirects_bounded page offno cur :
  resolves_to page offno cur ->
  exists n itemid,
    (n < length (pd_linp page))%nat /\
    (forall fuel, (n <= fuel)%nat ->
       follow_redirects fuel page offno = Ok (cur, itemid)) /\
    PageGetItemId page cur = Some itemid /\
    ItemIdIsRedirected itemid = false.
Proof.
  intros [n Hn]%resolves_to_in.
  pose proof (resolves_in_bound _ _ _ _ Hn) as Hbound.
  destruct (follow_redirects_resolves_in _ _ _ _ Hn n) as (itemid & _ & Hget & Hred);
    [lia|].
  exists n, itemid. repeat split; try assumption.
  intros fuel Hfuel.
  destruct (follow_redirects_resolves_in _ _ _ _ Hn fuel Hfuel) as (it & Hf & Hget' & _).
  congruence.
Qed.

(** C8 (amended).  When the redirections from the targeted offset stay
    inside the line pointer array and do not cycle, the loop ends after
    fewer iterations than the page has line pointers, at a line pointer
    that is not a redirect. *)
Theorem follow_redirects_terminates :
  forall page offno,
    chain_in_page page offno ->
    ~ redirect_cycle page offno ->
    exists cur n itemid,
      (n < length (pd_linp page))%nat /\
      (forall fuel, (n <= fuel)%nat ->
         follow_redirects fuel page offno = Ok (cur, itemid)) /\
      PageGetItemId page cur = Some itemid /\
      ItemIdIsRedirected itemid = false.
Proof.
  intros page offno Hin_page Hacyclic.
  destruct (chain_ends page offno Hin_page Hacyclic (length (pd_linp page)) [] offno)
    as [cur Hres].
  - constructor.
  - apply list_elem_of_here.
  - intros x Hx. inversion Hx.
  - apply NoDup_singleton.
  - intros x ->%list_elem_of_singleton. apply Hin_page. constructor.
  - simpl. lia.
  - exists cur. apply follow_redirects_bounded. exact Hres.
Qed.

Lemma sample_chain_visits o : chain_visits Sample.page 2 o -> o = 2 \/ o = 3.
Proof.
  induction 1 as [|o itemid _ IH Hget Hred]; [by left|].
  destruct IH as [-> | ->]; vm_compute in Hget; injection Hget as <-.
  - by right.
  - discriminate.
Defined.

Lemma follow_redirects_terminates_witness :
  exists cur n itemid,
    (n < length (pd_linp Sample.page))%nat /\
    (forall fuel, (n <= fuel)%nat ->
       follow_redirects fuel Sample.page 2 = Ok (cur, itemid)) /\
    PageGetItemId Sample.page cur = Some itemid /\
    ItemIdIsRedirected itemid = false.
Proof.
  apply (follow_redirects_terminates Sample.page 2).
  - intros o [-> | ->]%sample_chain_visits; vm_compute; split; discriminate.
  - intros (offnos & Hin & Hall). rewrite Forall_forall in Hall.
    destruct (Hall 2 Hin) as (it & Hget & _ & Hnext).
    vm_compute in Hget. injection Hget as <-.
    destruct (Hall _ Hnext) as (it3 & Hget3 & Hred3 & _).
    vm_compute in Hget3. injection Hget3 as <-. discriminate.
Defined.

(** ** Validation *)

Lemma array_contains_nulls_spec (ta : ArrayType) :
  array_contains_nulls ta = true <-> None ∈ ta.
Proof.
  unfold array_contains_nulls. induction ta as [|[tid|] ta IH]; simpl.
  - split; [discriminate | intros H; inversion H].
  - rewrite IH. split; [intros H; by right | intros H; by inversion H].
  - split; [intros _; by left | reflexivity].
Qed.

(** C3.  When any of the fatal conditions holds (recovery in progress,
    a null in the array, an empty array, a relation kind other than
    table / materialized view / TOAST table, caller not owner), the call
    raises one of the fatal errors that apply; at that point the
    relation, its pages and its visibility map are as they were, and
    the trace holds nothing new except possibly the opening of the
    relation: no page was read or written. *)
Theorem heap_force_common_fatal :
  forall fuel in_recovery is_owner ta opt w e,
    fatal_error_applies in_recovery is_owner ta (w_rel w) e ->
    exists e' w',
      heap_force_common fuel in_recovery is_owner ta opt w = Error e' w' /\
      fatal_error_applies in_recovery is_owner ta (w_rel w) e' /\
      w_rel w' = w_rel w /\
      (w_log w' = w_log w \/ w_log w' = w_log w ++ [EvRelationOpen]).
Proof.
  intros fuel in_recovery is_owner ta opt w e He.
  unfold heap_force_common.
  destruct in_recovery eqn:Hrec.
  { exists RecoveryInProgress, w. repeat split; auto. by constructor. }
  unfold sanity_check_tid_array.
  destruct (array_contains_nulls ta) eqn:Hnull.
  { exists NullValueNotAllowed, w. repeat split; auto.
    constructor. by apply array_contains_nulls_spec. }
  destruct (Z.of_nat (length ta) =? 0) eqn:Hlen.
  { exists EmptyTidArray, w. repeat split; auto.
    constructor. destruct ta; [done | simpl in Hlen; lia]. }
  simpl. unfold sanity_check_relation.
  destruct (negb (Ascii.eqb (rd_relkind (w_rel w)) RELKIND_RELATION) &&
            negb (Ascii.eqb (rd_relkind (w_rel w)) RELKIND_MATVIEW) &&
            negb (Ascii.eqb (rd_relkind (w_rel w)) RELKIND_TOASTVALUE)) eqn:Hkind.
  { exists WrongObjectType, (emit EvRelationOpen w). repeat split; auto.
    apply andb_true_iff in Hkind as [Hkind Ht].
    apply andb_true_iff in Hkind as [Hr Hm].
    apply negb_true_iff, Ascii.eqb_neq in Hr, Hm, Ht.
    by constructor. }
  destruct is_owner eqn:Hown.
  2:{ exists NotOwner, (emit EvRelationOpen w). repeat split; auto. by constructor. }
  exfalso. inversion He; subst; try discriminate.
  - apply array_contains_nulls_spec in H. congruence.
  - apply Ascii.eqb_neq in H, H0, H1. simpl in Hkind.
    rewrite H, H0, H1 in Hkind. discriminate.
Qed.

Lemma heap_force_common_fatal_witness :
  exists e' w',
    heap_force_common 8 false false [Some (mkTid 0%N 1)] HEAP_FORCE_KILL Sample.world
      = Error e' w' /\
    fatal_error_applies false false [Some (mkTid 0%N 1)] (w_rel Sample.world) e' /\
    w_rel w' = w_rel Sample.world /\
    (w_log w' = w_log Sample.world \/
     w_log w' = w_log Sample.world ++ [EvRelationOpen]).
Proof.
  apply (heap_force_common_fatal 8 false false [Some (mkTid 0%N 1)] HEAP_FORCE_KILL
           Sample.world NotOwner).
  apply fatal_owner. reflexivity.
Defined.

(** ** Page groups *)

Lemma same_block_run_length blkno tids :
  (length (same_block_run blkno tids) <= length tids)%nat.
Proof.
  induction tids as [|tid rest IH]; simpl; [lia|].
  destruct (blkno =? ip_blkid tid)%N; simpl; lia.
Qed.

Lemma group_tids_cons tid rest :
  group_tids (tid :: rest) =
  (ip_blkid tid, ip_posid tid :: map ip_posid (same_block_run (ip_blkid tid) rest))
    :: group_tids (drop (length (same_block_run (ip_blkid tid) rest)) rest).
Proof.
  revert tid. induction rest as [|tid2 rest IH]; intros tid; [reflexivity|].
  change (group_tids (tid :: tid2 :: rest)) with
    (match group_tids (tid2 :: rest) with
     | (blkno, offnos) :: groups =>
         if (ip_blkid tid =? blkno)%N
         then (blkno, ip_posid tid :: offnos) :: groups
         else (ip_blkid tid, [ip_posid tid]) :: (blkno, offnos) :: groups
     | [] => [(ip_blkid tid, [ip_posid tid])]
     end).
  rewrite (IH tid2). simpl same_block_run.
  destruct (N.eqb_spec (ip_blkid tid) (ip_blkid tid2)) as [Heq|Hne].
  - rewrite Heq. reflexivity.
  - simpl. rewrite <- (IH tid2). reflexivity.
Qed.

Lemma ungroup_group_tids tids : ungroup (group_tids tids) = tids.
Proof.
  induction tids as [|[blkno offno] rest IH]; [reflexivity|].
  simpl. destruct (group_tids rest) as [|[b offs] groups] eqn:Hg.
  - unfold ungroup in IH. simpl in IH. subst rest. reflexivity.
  - destruct (N.eqb_spec blkno b) as [->|Hne].
    + unfold ungroup in *. simpl in *. rewrite <- IH. reflexivity.
    + unfold ungroup in *. simpl in *. rewrite <- IH. reflexivity.
Qed.

(** *** The fetch loop *)

Lemma take_S_insert {A} (l : list A) (k : nat) (x : A) :
  (k < length l)%nat -> take (S k) (<[k := x]> l) = take k l ++ [x].
Proof.
  intros Hk. erewrite take_S_r by (apply list_lookup_insert_eq; assumption).
  rewrite take_insert_ge by lia. reflexivity.
Qed.

Lemma fetch_offnums_loop_run rest : forall i start blkno offnos,
  start < i ->
  (Z.to_nat (i - start) + length rest <= length offnos)%nat ->
  exists offnos',
    fetch_offnums_loop rest i start blkno offnos =
      (i + Z.of_nat (length (same_block_run blkno rest)), blkno, offnos') /\
    length offnos' = length offnos /\
    take (Z.to_nat (i - start) + length (same_block_run blkno rest)) offnos' =
      take (Z.to_nat (i - start)) offnos ++ map ip_posid (same_block_run blkno rest).
Proof.
  induction rest as [|tid rest IH]; intros i start blkno offnos Hi Hlen; simpl.
  - exists offnos. rewrite Z.add_0_r, Nat.add_0_r, app_nil_r. auto.
  - replace (i =? start) with false by (symmetry; apply Z.eqb_neq; lia).
    unfold ItemPointerGetBlockNumberNoCheck, ItemPointerGetOffsetNumberNoCheck. simpl.
    destruct (N.eqb_spec blkno (ip_blkid tid)) as [Heq|Hne]; simpl.
    + subst blkno. simpl in Hlen.
      destruct (IH (i + 1) start (ip_blkid tid)
                  (<[Z.to_nat (i - start) := ip_posid tid]> offnos))
        as (offnos' & Hf & Hl & Ht); [lia | rewrite length_insert; lia |].
      exists offnos'. rewrite Hf. split; [|split].
      * f_equal. f_equal. lia.
      * rewrite Hl. apply length_insert.
      * replace (Z.to_nat (i - start) +
                 S (length (same_block_run (ip_blkid tid) rest)))%nat
          with (Z.to_nat (i + 1 - start) +
                length (same_block_run (ip_blkid tid) rest))%nat by lia.
        rewrite Ht.
        replace (Z.to_nat (i + 1 - start)) with (S (Z.to_nat (i - start))) by lia.
        rewrite take_S_insert by lia.
        rewrite <- app_assoc. reflexivity.
    + exists offnos. rewrite Z.add_0_r, Nat.add_0_r, app_nil_r. auto.
Qed.

Lemma tids_same_page_fetch_offnums_run tids c offnos tid rest :
  0 <= c ->
  drop (Z.to_nat c) tids = tid :: rest ->
  (S (length rest) <= length offnos)%nat ->
  exists offnos',
    tids_same_page_fetch_offnums tids c offnos =
      (ip_blkid tid,
       uint16 (c + 1 + Z.of_nat (length (same_block_run (ip_blkid tid) rest))),
       offnos') /\
    length offnos' = length offnos /\
    take (S (length (same_block_run (ip_blkid tid) rest))) offnos' =
      ip_posid tid :: map ip_posid (same_block_run (ip_blkid tid) rest).
Proof.
  intros Hc Hdrop Hlen. unfold tids_same_page_fetch_offnums.
  rewrite Hdrop. simpl. rewrite Z.eqb_refl. simpl.
  unfold ItemPointerGetBlockNumberNoCheck, ItemPointerGetOffsetNumberNoCheck.
  destruct (fetch_offnums_loop_run rest (c + 1) c (ip_blkid tid)
              (<[Z.to_nat (c - c) := ip_posid tid]> offnos))
    as (offnos' & Hf & Hl & Ht); [lia | rewrite length_insert; lia |].
  rewrite Hf. exists offnos'. split; [|split].
  - do 3 f_equal; lia.
  - rewrite Hl. apply length_insert.
  - replace (Z.to_nat (c + 1 - c)) with 1%nat in Ht by lia.
    replace (Z.to_nat (c - c)) with 0%nat in Ht by lia.
    simpl in Ht. rewrite Ht.
    destruct offnos; [simpl in Hlen; lia | reflexivity].
Qed.

(** *** The do-while loop *)

Lemma uint16_small z : 0 <= z <= 65535 -> uint16 z = z.
Proof. intros H. unfold uint16. apply Z.mod_small. lia. Qed.

Lemma uint16_range z : 0 <= uint16 z < 65536.
Proof. unfold uint16. apply Z.mod_pos_bound. lia. Qed.

Lemma tids_same_page_fetch_offnums_cursor tids c offnos blkno next offnos' :
  tids_same_page_fetch_offnums tids c offnos = (blkno, next, offnos') ->
  0 <= next < 65536.
Proof.
  unfold tids_same_page_fetch_offnums.
  destruct (fetch_offnums_loop _ _ _ _ _) as [[i prev] offs].
  intros [= _ <- _]. apply uint16_range.
Qed.

(** With at most 65535 tids the cursors never wrap, and the loop is the
    body applied to each maximal same-block run of the array. *)
Lemma page_group_loop_run_groups {St : Type}
    (body : BlockNumber -> list OffsetNumber -> St -> result St)
    (tids : list ItemPointerData) :
  Z.of_nat (length tids) <= 65535 ->
  forall fuel c offnos st,
    0 <= c < Z.of_nat (length tids) ->
    length offnos = length tids ->
    (length tids - Z.to_nat c <= fuel)%nat ->
    page_group_loop body tids (Z.of_nat (length tids)) fuel offnos c c st =
    run_groups body (group_tids (drop (Z.to_nat c) tids)) st.
Proof.
  intros Hsmall. induction fuel as [|fuel IH]; intros c offnos st Hc Hoff Hfuel; [lia|].
  destruct (drop (Z.to_nat c) tids) as [|tid rest] eqn:Hdrop.
  { apply (f_equal length) in Hdrop. rewrite length_drop in Hdrop. simpl in Hdrop. lia. }
  assert (Hrest : (Z.to_nat c + S (length rest) = length tids)%nat).
  { apply (f_equal length) in Hdrop. rewrite length_drop in Hdrop. simpl in Hdrop. lia. }
  destruct (tids_same_page_fetch_offnums_run tids c offnos tid rest)
    as (offnos' & Hf & Hl & Ht); [lia | assumption | lia |].
  pose proof (same_block_run_length (ip_blkid tid) rest) as Hrun.
  set (k := length (same_block_run (ip_blkid tid) rest)) in *.
  rewrite group_tids_cons. fold k.
  simpl. rewrite Hf.
  rewrite (uint16_small (c + 1 + Z.of_nat k)) by lia.
  replace (c + 1 + Z.of_nat k - c) with (Z.of_nat (S k)) by lia.
  rewrite (uint16_small (Z.of_nat (S k))) by lia.
  rewrite Nat2Z.id, Ht.
  destruct (body (ip_blkid tid)
              (ip_posid tid :: map ip_posid (same_block_run (ip_blkid tid) rest)) st)
    as [st'| | |]; simpl; try reflexivity.
  destruct (Z.eqb_spec (c + 1 + Z.of_nat k) (Z.of_nat (length tids))) as [Hend|Hmore].
  - rewrite drop_ge by lia. reflexivity.
  - rewrite IH; [|lia|lia|lia].
    replace (Z.to_nat (c + 1 + Z.of_nat k)) with (Z.to_nat c + S k)%nat by lia.
    rewrite <- drop_drop, Hdrop. reflexivity.
Qed.

(** With 65536 tids or more the 16-bit cursor can never equal [ntids]:
    the loop has no exit. *)
Lemma page_group_loop_no_exit {St : Type}
    (body : BlockNumber -> list OffsetNumber -> St -> result St)
    (tids : list ItemPointerData) (ntids : Z) :
  65536 <= ntids ->
  forall fuel offnos curr next st st',
    page_group_loop body tids ntids fuel offnos curr next st <> Ok st'.
Proof.
  intros Hbig. induction fuel as [|fuel IH]; intros offnos curr next st st'; simpl;
    [discriminate|].
  destruct (tids_same_page_fetch_offnums tids next offnos) as [[blkno next'] offnos'] eqn:Hf.
  apply tids_same_page_fetch_offnums_cursor in Hf.
  destruct (body _ _ _) as [st1| | |]; simpl; try discriminate.
  replace (next' =? ntids) with false by (symmetry; apply Z.eqb_neq; lia).
  apply IH.
Qed.

Lemma page_group_loop_spins {St : Type}
    (body : BlockNumber -> list OffsetNumber -> St -> result St)
    (tids : list ItemPointerData) (ntids : Z) :
  65536 <= ntids ->
  (forall blkno offnos st, exists st', body blkno offnos st = Ok st') ->
  forall fuel offnos curr next st,
    page_group_loop body tids ntids fuel offnos curr next st = Timeout.
Proof.
  intros Hbig Hbody. induction fuel as [|fuel IH]; intros offnos curr next st; simpl;
    [reflexivity|].
  destruct (tids_same_page_fetch_offnums tids next offnos) as [[blkno next'] offnos'] eqn:Hf.
  apply tids_same_page_fetch_offnums_cursor in Hf.
  destruct (Hbody blkno (take (Z.to_nat (uint16 (next' - curr))) offnos') st) as [st' ->].
  simpl.
  replace (next' =? ntids) with false by (symmetry; apply Z.eqb_neq; lia).
  apply IH.
Qed.

Lemma page_groups_no_exit (tids : list ItemPointerData) :
  65536 <= Z.of_nat (length tids) ->
  forall fuel, page_groups fuel tids = Timeout.
Proof.
  intros Hbig fuel. unfold page_groups.
  apply page_group_loop_spins; [assumption|]. eauto.
Qed.

Lemma run_groups_collect (groups acc : list (BlockNumber * list OffsetNumber)) :
  run_groups (fun blkno offnos acc => Ok (acc ++ [(blkno, offnos)])) groups acc =
  Ok (acc ++ groups).
Proof.
  revert acc. induction groups as [|[b offs] groups IH]; intros acc; simpl.
  - rewrite app_nil_r. reflexivity.
  - rewrite IH, <- app_assoc. reflexivity.
Qed.

Lemma page_groups_eq (tids : list ItemPointerData) :
  tids <> [] ->
  Z.of_nat (length tids) <= 65535 ->
  page_groups (length tids) tids = Ok (group_tids tids).
Proof.
  intros Hne Hsmall. unfold page_groups.
  rewrite page_group_loop_run_groups;
    [| assumption | destruct tids; [done | simpl; lia]
     | apply length_replicate | lia].
  simpl drop. apply run_groups_collect.
Qed.

(** C10.  The loop cursors are 16-bit.  For a non-empty array of at
    most 65535 tids, the do-while loop with [ntids] iterations allowed
    returns, and the groups it hands to its body, taken together, are
    the array itself: each tid is examined exactly once, in order.  For
    a longer array the loop never returns. *)
Theorem page_group_loop_terminates :
  forall tids : list ItemPointerData,
    tids <> [] ->
    (Z.of_nat (length tids) <= 65535 ->
     exists groups,
       page_groups (length tids) tids = Ok groups /\ ungroup groups = tids) /\
    (65535 < Z.of_nat (length tids) ->
     forall fuel, page_groups fuel tids = Timeout).
Proof.
  intros tids Hne. split.
  - intros Hsmall. exists (group_tids tids). split.
    + by apply page_groups_eq.
    + apply ungroup_group_tids.
  - intros Hbig. apply page_groups_no_exit. lia.
Qed.

Lemma page_group_loop_terminates_witness :
  (exists groups,
     page_groups 3 [mkTid 0%N 1; mkTid 0%N 4; mkTid 2%N 1] = Ok groups /\
     ungroup groups = [mkTid 0%N 1; mkTid 0%N 4; mkTid 2%N 1]).
Proof.
  apply (page_group_loop_terminates [mkTid 0%N 1; mkTid 0%N 4; mkTid 2%N 1]).
  - discriminate.
  - simpl. lia.
Defined.

(** ** Sorting *)

Lemma tid_le_spec a b :
  tid_le a b <->
  (ip_blkid a < ip_blkid b)%N \/ (ip_blkid a = ip_blkid b /\ ip_posid a <= ip_posid b).
Proof.
  unfold tid_le, tidcmp, ItemPointerCompare, ItemPointerGetBlockNumberNoCheck,
    ItemPointerGetOffsetNumberNoCheck.
  destruct (N.ltb_spec (ip_blkid a) (ip_blkid b)), (N.ltb_spec (ip_blkid b) (ip_blkid a)),
    (Z.ltb_spec (ip_posid a) (ip_posid b)), (Z.ltb_spec (ip_posid b) (ip_posid a));
    split; intros; lia.
Qed.

#[global] Instance tid_le_total : Total tid_le.
Proof. intros a b. rewrite !tid_le_spec. lia. Qed.

#[global] Instance tid_le_trans : Transitive tid_le.
Proof. intros a b c. rewrite !tid_le_spec. lia. Qed.

#[global] Instance tid_le_antisymm : AntiSymm (=) tid_le.
Proof.
  intros [b1 o1] [b2 o2]. rewrite !tid_le_spec. simpl. intros H1 H2.
  f_equal; lia.
Qed.

Lemma qsort_tidcmp_sorted tids : Sorted tid_le (qsort tidcmp tids).
Proof. unfold qsort. apply (Sorted_merge_sort tid_le). Qed.

Lemma qsort_tidcmp_perm tids : qsort tidcmp tids ≡ₚ tids.
Proof. unfold qsort. apply (merge_sort_Permutation tid_le). Qed.

(** Whatever algorithm the C library uses, a sorted permutation of the
    array is this one. *)
Lemma qsort_tidcmp_unique tids sorted :
  Sorted tid_le sorted -> sorted ≡ₚ tids -> sorted = qsort tidcmp tids.
Proof.
  intros Hs Hp. apply (Sorted_unique tid_le); try assumption.
  - apply qsort_tidcmp_sorted.
  - rewrite Hp. symmetry. apply qsort_tidcmp_perm.
Qed.

Lemma sorted_tids_sorted tids : Sorted tid_le (sorted_tids tids).
Proof.
  unfold sorted_tids. destruct (Z.ltb_spec 1 (Z.of_nat (length tids))).
  - apply qsort_tidcmp_sorted.
  - destruct tids as [|t [|t' tids]]; simpl in *; try lia; repeat constructor.
Qed.

Lemma sorted_tids_perm tids : sorted_tids tids ≡ₚ tids.
Proof.
  unfold sorted_tids. destruct (1 <? Z.of_nat (length tids)); [|reflexivity].
  apply qsort_tidcmp_perm.
Qed.

Lemma sorted_tids_length tids : length (sorted_tids tids) = length tids.
Proof. apply Permutation_length, sorted_tids_perm. Qed.

(** ** The grouping invariant *)

Lemma StronglySorted_lt_NoDup (l : list N) : StronglySorted N.lt l -> NoDup l.
Proof.
  induction 1 as [|x l Hl IH Hx]; constructor; [|assumption].
  intros Hin. rewrite Forall_forall in Hx. specialize (Hx _ Hin). lia.
Qed.

Lemma group_tids_head tid rest :
  exists offnos groups,
    group_tids (tid :: rest) = (ip_blkid tid, ip_posid tid :: offnos) :: groups.
Proof. rewrite group_tids_cons. eauto. Qed.

Lemma group_tids_sorted tids :
  Sorted tid_le tids ->
  Forall (fun g => Sorted Z.le (snd g)) (group_tids tids) /\
  Sorted N.lt (map fst (group_tids tids)).
Proof.
  induction 1 as [|tid rest Hrest IH Hhd]; [split; constructor|].
  destruct IH as [IHoff IHblk].
  destruct rest as [|tid2 rest'].
  { simpl. split; repeat constructor. }
  destruct (group_tids_head tid2 rest') as (offs & groups & Hg).
  change (group_tids (tid :: tid2 :: rest')) with
    (match group_tids (tid2 :: rest') with
     | (blkno, offnos) :: groups =>
         if (ip_blkid tid =? blkno)%N
         then (blkno, ip_posid tid :: offnos) :: groups
         else (ip_blkid tid, [ip_posid tid]) :: (blkno, offnos) :: groups
     | [] => [(ip_blkid tid, [ip_posid tid])]
     end).
  rewrite Hg in *. inversion Hhd as [|? ? Hle]; subst.
  apply tid_le_spec in Hle.
  inversion IHoff as [|? ? Hoffs Hgroups]; subst. simpl in Hoffs.
  destruct (N.eqb_spec (ip_blkid tid) (ip_blkid tid2)) as [Heq|Hne].
  - split.
    + constructor; [|assumption]. simpl.
      constructor; [assumption|]. constructor. lia.
    + exact IHblk.
  - split.
    + constructor; [simpl; repeat constructor|]. assumption.
    + simpl. constructor; [exact IHblk|]. constructor. simpl. lia.
Qed.

Lemma group_tids_ordered tids :
  Sorted tid_le tids -> groups_ordered (group_tids tids).
Proof.
  intros Hs. destruct (group_tids_sorted tids Hs) as [Hoff Hblk].
  assert (Hss : StronglySorted N.lt (map fst (group_tids tids))).
  { apply Sorted_StronglySorted; [|assumption]. intros x y z. apply N.lt_trans. }
  split; [assumption | assumption | by apply StronglySorted_lt_NoDup].
Qed.

(** The grouping invariant of the Page Grouper, for arrays the 16-bit
    cursors can index. *)
Lemma page_groups_ordered (batch : list ItemPointerData) :
  batch <> [] ->
  Z.of_nat (length batch) <= 65535 ->
  exists groups,
    page_groups (length batch) (sorted_tids batch) = Ok groups /\
    ungroup groups = sorted_tids batch /\
    groups_ordered groups.
Proof.
  intros Hne Hsmall.
  exists (group_tids (sorted_tids batch)). split; [|split].
  - rewrite <- (sorted_tids_length batch). apply page_groups_eq.
    + intros E. apply (f_equal length) in E. rewrite sorted_tids_length in E.
      destruct batch; [done | discriminate].
    + by rewrite sorted_tids_length.
  - apply ungroup_group_tids.
  - apply group_tids_ordered, sorted_tids_sorted.
Qed.

(** ** Runs as sequences of steps *)

Lemma set_page_id blkno page rel :
  rd_pages rel !! N.to_nat blkno = Some page ->
  set_page blkno page (rd_vm rel) rel = rel.
Proof.
  intros H. destruct rel. unfold set_page. simpl in *.
  rewrite list_insert_id by assumption. reflexivity.
Qed.

Lemma item_step_length opt blkno offno s s' :
  item_step opt blkno offno s s' ->
  length (pd_linp (s_page s')) = length (pd_linp (s_page s)).
Proof.
  destruct 1; simpl; try reflexivity.
  unfold force_kill_item. destruct (PageIsAllVisible _); simpl; apply length_insert.
Qed.

Lemma emit_if_steps opt b ev w :
  rtc (world_step opt) w {| w_rel := w_rel w; w_log := emit_if b ev (w_log w) |}.
Proof.
  destruct b; simpl.
  - apply rtc_once. apply (ws_emit opt w ev).
  - destruct w. apply rtc_refl.
Qed.

Section Items.
Variables (fuel : nat) (opt : HeapTupleForceOption) (blkno : BlockNumber)
  (maxoffset : OffsetNumber) (rel : Relation).
Hypothesis blkno_valid : (N.to_nat blkno < length (rd_pages rel))%nat.

Lemma heap_force_items_steps offnos : forall s s',
  heap_force_items fuel opt blkno maxoffset offnos s = Ok s' ->
  rtc (world_step opt) (session_world blkno s rel) (session_world blkno s' rel).
Proof.
  induction offnos as [|offno rest IH]; intros s s'; simpl.
  - intros [= <-]. apply rtc_refl.
  - destruct (heap_force_item fuel opt blkno maxoffset offno s) as [s1| | |] eqn:H1;
      simpl; try discriminate.
    intros H. eapply rtc_l; [|apply IH; exact H].
    apply (ws_item opt rel blkno offno); [assumption|].
    eapply heap_force_item_step; eassumption.
Qed.

(** Every offset of the group gets its turn. *)
Lemma heap_force_items_covers offnos offno : forall s s',
  offno ∈ offnos ->
  heap_force_items fuel opt blkno maxoffset offnos s = Ok s' ->
  exists s1 s2,
    rtc (world_step opt) (session_world blkno s rel) (session_world blkno s1 rel) /\
    heap_force_item fuel opt blkno maxoffset offno s1 = Ok s2 /\
    rtc (world_step opt) (session_world blkno s2 rel) (session_world blkno s' rel) /\
    length (pd_linp (s_page s1)) = length (pd_linp (s_page s)).
Proof.
  induction offnos as [|o rest IH]; intros s s' Hin; [inversion Hin|].
  simpl.
  destruct (heap_force_item fuel opt blkno maxoffset o s) as [s1| | |] eqn:H1;
    simpl; try discriminate.
  intros H. apply elem_of_cons in Hin as [->|Hin].
  - exists s, s1. repeat split; try assumption.
    + apply rtc_refl.
    + eapply heap_force_items_steps; eassumption.
  - destruct (IH _ _ Hin H) as (sa & sb & Hpre & Hitem & Hpost & Hlen).
    exists sa, sb. repeat split; try assumption.
    + eapply rtc_l; [|exact Hpre].
      apply (ws_item opt rel blkno o); [assumption|].
      eapply heap_force_item_step; eassumption.
    + rewrite Hlen. eapply item_step_length, heap_force_item_step; eassumption.
Qed.
End Items.

Lemma session_start_steps opt blkno page w :
  rd_pages (w_rel w) !! N.to_nat blkno = Some page ->
  rtc (world_step opt) w
    (session_world blkno (session_start opt blkno page w) (w_rel w)).
Proof.
  intros Hpage. unfold session_world, session_start. simpl.
  rewrite (set_page_id _ _ _ Hpage).
  eapply rtc_l; [apply (ws_emit opt w (EvReadBuffer blkno))|].
  apply (emit_if_steps opt _ _ (emit (EvReadBuffer blkno) w)).
Qed.

Lemma session_finish_steps opt blkno page s w :
  rtc (world_step opt) (session_world blkno s (w_rel w))
    (session_finish opt blkno page s w).
Proof.
  unfold session_finish.
  eapply rtc_trans.
  { apply (emit_if_steps opt (did_modify_page s) (EvMarkBufferDirty blkno)). }
  eapply rtc_trans.
  { apply (emit_if_steps opt (did_modify_page s && rd_needs_wal (w_rel w))
             (EvLogNewPage blkno)). }
  eapply rtc_trans.
  { apply (emit_if_steps opt (did_modify_vm s && rd_needs_wal (w_rel w))
             (EvLogNewVmPage blkno)). }
  eapply rtc_l.
  { apply (ws_emit opt _ (EvUnlockReleaseBuffer blkno)). }
  apply (emit_if_steps opt (pin_vm opt page) (EvReleaseVmBuffer blkno)).
Qed.

(** What [heap_force_page] is on a block of the relation. *)
Lemma heap_force_page_in_range fuel opt nblocks blkno offnos w w' :
  (blkno < nblocks)%N ->
  heap_force_page fuel opt nblocks blkno offnos w = Ok w' ->
  exists page s,
    rd_pages (w_rel w) !! N.to_nat blkno = Some page /\
    heap_force_items fuel opt blkno (PageGetMaxOffsetNumber page) offnos
      (session_start opt blkno page w) = Ok s /\
    w' = session_finish opt blkno page s w.
Proof.
  intros Hlt. unfold heap_force_page.
  replace (nblocks <=? blkno)%N with false by (symmetry; apply N.leb_gt; assumption).
  destruct (rd_pages (w_rel w) !! N.to_nat blkno) as [page|] eqn:Hpage; [|discriminate].
  destruct (heap_force_items _ _ _ _ _ _) as [s| | |] eqn:Hitems; simpl; try discriminate.
  intros [= <-]. eauto.
Qed.

Lemma heap_force_page_out_of_range fuel opt nblocks blkno offnos w :
  (nblocks <= blkno)%N ->
  heap_force_page fuel opt nblocks blkno offnos w =
  Ok (emit (EvNotice (BlockOutOfRange blkno)) w).
Proof.
  intros Hle. unfold heap_force_page.
  replace (nblocks <=? blkno)%N with true by (symmetry; apply N.leb_le; assumption).
  reflexivity.
Qed.

Lemma heap_force_page_steps fuel opt nblocks blkno offnos w w' :
  heap_force_page fuel opt nblocks blkno offnos w = Ok w' ->
  rtc (world_step opt) w w'.
Proof.
  destruct (N.le_gt_cases nblocks blkno) as [Hout|Hin].
  - rewrite heap_force_page_out_of_range by assumption.
    intros [= <-]. apply rtc_once, ws_emit.
  - intros H. destruct (heap_force_page_in_range _ _ _ _ _ _ _ Hin H)
      as (page & s & Hpage & Hitems & ->).
    eapply rtc_trans; [apply session_start_steps; eassumption|].
    eapply rtc_trans; [|apply session_finish_steps].
    eapply heap_force_items_steps; [|eassumption].
    apply lookup_lt_Some in Hpage. assumption.
Qed.

(** Every offset of a group on a block of the relation gets its turn,
    against the page as the session has it by then. *)
Lemma heap_force_page_covers fuel opt nblocks blkno offnos offno w w' :
  (blkno < nblocks)%N ->
  offno ∈ offnos ->
  heap_force_page fuel opt nblocks blkno offnos w = Ok w' ->
  exists s1 s2,
    (N.to_nat blkno < length (rd_pages (w_rel w)))%nat /\
    rtc (world_step opt) w (session_world blkno s1 (w_rel w)) /\
    heap_force_item fuel opt blkno (PageGetMaxOffsetNumber (s_page s1)) offno s1 = Ok s2 /\
    rtc (world_step opt) (session_world blkno s2 (w_rel w)) w'.
Proof.
  intros Hin Hoff H.
  destruct (heap_force_page_in_range _ _ _ _ _ _ _ Hin H)
    as (page & s & Hpage & Hitems & ->).
  pose proof (lookup_lt_Some _ _ _ Hpage) as Hvalid.
  destruct (heap_force_items_covers fuel opt blkno (PageGetMaxOffsetNumber page)
              (w_rel w) Hvalid offnos offno _ _ Hoff Hitems)
    as (s1 & s2 & Hpre & Hitem & Hpost & Hlen).
  exists s1, s2. split; [assumption|]. split; [|split].
  - eapply rtc_trans; [apply session_start_steps; eassumption | exact Hpre].
  - unfold PageGetMaxOffsetNumber in *. rewrite Hlen. exact Hitem.
  - eapply rtc_trans; [exact Hpost | apply session_finish_steps].
Qed.

(** ** Whole calls *)

Lemma run_groups_app {St : Type}
    (body : BlockNumber -> list OffsetNumber -> St -> result St) groups1 groups2 st :
  run_groups body (groups1 ++ groups2) st =
  (st1 ← run_groups body groups1 st; run_groups body groups2 st1).
Proof.
  revert st. induction groups1 as [|[b offs] groups1 IH]; intros st; simpl; [reflexivity|].
  destruct (body b offs st); simpl; auto.
Qed.

Lemma run_groups_steps {St : Type} (R : relation St)
    (body : BlockNumber -> list OffsetNumber -> St -> result St) groups :
  (forall blkno offnos st st', body blkno offnos st = Ok st' -> rtc R st st') ->
  forall st st', run_groups body groups st = Ok st' -> rtc R st st'.
Proof.
  intros Hbody. induction groups as [|[b offs] groups IH]; intros st st'; simpl.
  - intros [= <-]. apply rtc_refl.
  - destruct (body b offs st) as [st1| | |] eqn:H1; simpl; try discriminate.
    intros H. eapply rtc_trans; [eapply Hbody; eassumption | apply IH; assumption].
Qed.

(** More fuel for the do-while loop does not change what it returns. *)
Lemma page_group_loop_mono {St : Type}
    (body : BlockNumber -> list OffsetNumber -> St -> result St) tids ntids :
  forall fuel fuel' offnos curr next st st',
    page_group_loop body tids ntids fuel offnos curr next st = Ok st' ->
    (fuel <= fuel')%nat ->
    page_group_loop body tids ntids fuel' offnos curr next st = Ok st'.
Proof.
  induction fuel as [|fuel IH]; intros fuel' offnos curr next st st'; simpl;
    [discriminate|].
  intros H Hle. destruct fuel' as [|fuel']; [lia|]. simpl.
  destruct (tids_same_page_fetch_offnums tids next offnos) as [[blkno next'] offnos'].
  destruct (body _ _ _) as [st1| | |]; simpl in *; try discriminate.
  destruct (next' =? ntids); [assumption|].
  apply IH; [assumption | lia].
Qed.

Lemma ARR_DATA_PTR_no_nulls (ta : ArrayType) :
  array_contains_nulls ta = false -> ta = Some <$> ARR_DATA_PTR ta.
Proof.
  unfold array_contains_nulls, ARR_DATA_PTR.
  induction ta as [|[tid|] ta IH]; simpl; [reflexivity| |discriminate].
  intros H. f_equal. apply IH. assumption.
Qed.

Lemma ARR_DATA_PTR_fmap (tids : list ItemPointerData) :
  ARR_DATA_PTR (Some <$> tids) = tids.
Proof.
  unfold ARR_DATA_PTR. induction tids as [|tid tids IH]; simpl; [reflexivity|].
  f_equal. exact IH.
Qed.

(** A call that returns has passed validation, had at most 65535 tids,
    and has run the page body over the groups of the sorted array. *)
Lemma heap_force_common_Ok fuel in_recovery is_owner ta opt w w' :
  heap_force_common fuel in_recovery is_owner ta opt w = Ok w' ->
  exists tids w1,
    in_recovery = false /\ is_owner = true /\
    ta = Some <$> tids /\ tids <> [] /\ Z.of_nat (length tids) <= 65535 /\
    run_groups (heap_force_page fuel opt (RelationGetNumberOfBlocks (w_rel w)))
      (group_tids (sorted_tids tids)) (emit EvRelationOpen w) = Ok w1 /\
    w' = emit EvRelationClose w1.
Proof.
  unfold heap_force_common.
  destruct in_recovery; [discriminate|].
  unfold sanity_check_tid_array.
  destruct (array_contains_nulls ta) eqn:Hnull; [discriminate|].
  destruct (Z.eqb_spec (Z.of_nat (length ta)) 0) as [|Hlen]; [discriminate|].
  simpl. unfold sanity_check_relation.
  destruct (negb _ && negb _ && negb _); [discriminate|].
  destruct is_owner; [|discriminate].
  simpl.
  destruct (page_group_loop _ _ _ _ _ _ _ _) as [w1| | |] eqn:Hloop; simpl;
    try discriminate.
  intros [= <-].
  apply ARR_DATA_PTR_no_nulls in Hnull.
  set (tids := ARR_DATA_PTR ta) in *.
  assert (Hlta : length ta = length tids).
  { rewrite Hnull at 1. apply length_fmap. }
  rewrite Hlta in *.
  exists tids, w1.
  assert (Hsmall : Z.of_nat (length tids) <= 65535).
  { destruct (Z_le_gt_dec (Z.of_nat (length tids)) 65535) as [|Hbig]; [assumption|].
    exfalso. eapply (page_group_loop_no_exit (heap_force_page fuel opt
      (RelationGetNumberOfBlocks (w_rel w)))); [|exact Hloop]. lia. }
  repeat split; try assumption.
  { intros E. rewrite E in Hlen. simpl in Hlen. lia. }
  fold (sorted_tids tids) in Hloop.
  apply (page_group_loop_mono _ _ _ _ (fuel + length tids)) in Hloop; [|lia].
  rewrite <- (sorted_tids_length tids) in Hloop.
  rewrite page_group_loop_run_groups in Hloop.
  - exact Hloop.
  - rewrite sorted_tids_length. assumption.
  - rewrite sorted_tids_length. lia.
  - rewrite Nat2Z.id, sorted_tids_length. apply length_replicate.
  - rewrite sorted_tids_length. lia.
Qed.

Lemma heap_force_common_steps fuel in_recovery is_owner ta opt w w' :
  heap_force_common fuel in_recovery is_owner ta opt w = Ok w' ->
  rtc (world_step opt) w w'.
Proof.
  intros H. apply heap_force_common_Ok in H
    as (tids & w1 & _ & _ & _ & _ & _ & Hrun & ->).
  eapply rtc_l; [apply (ws_emit opt w EvRelationOpen)|].
  eapply rtc_r; [|apply ws_emit].
  eapply (run_groups_steps (world_step opt)); [|exact Hrun].
  intros blkno offnos st st'. apply heap_force_page_steps.
Qed.

Lemma run_groups_covers {St : Type} (R : relation St)
    (body : BlockNumber -> list OffsetNumber -> St -> result St) groups blkno offnos :
  (forall blkno offnos st st', body blkno offnos st = Ok st' -> rtc R st st') ->
  (blkno, offnos) ∈ groups ->
  forall st st', run_groups body groups st = Ok st' ->
  exists st1 st2,
    rtc R st st1 /\ body blkno offnos st1 = Ok st2 /\ rtc R st2 st'.
Proof.
  intros Hbody Hin st st' Hrun.
  apply list_elem_of_split in Hin as (groups1 & groups2 & ->).
  rewrite run_groups_app in Hrun.
  destruct (run_groups body groups1 st) as [st1| | |] eqn:H1; simpl in Hrun;
    try discriminate.
  destruct (body blkno offnos st1) as [st2| | |] eqn:H2; simpl in Hrun;
    try discriminate.
  exists st1, st2. repeat split; try assumption.
  - eapply run_groups_steps; eassumption.
  - eapply run_groups_steps; eassumption.
Qed.

Lemma elem_of_ungroup tid groups :
  tid ∈ ungroup groups <->
  exists offnos, (ip_blkid tid, offnos) ∈ groups /\ ip_posid tid ∈ offnos.
Proof.
  unfold ungroup. induction groups as [|[b offs] groups IH]; simpl.
  - split; [intros H; inversion H | intros (? & H & _); inversion H].
  - rewrite elem_of_app, IH, list_elem_of_fmap. split.
    + intros [(o & -> & Ho) | (offnos & Hin & Ho)].
      * exists offs. simpl. split; [by left | assumption].
      * exists offnos. split; [by right | assumption].
    + intros (offnos & Hin & Ho). apply elem_of_cons in Hin as [[= <- <-]|Hin].
      * left. exists (ip_posid tid). split; [by destruct tid | assumption].
      * right. eauto.
Qed.

Lemma elem_of_group_tids tid tids :
  tid ∈ tids ->
  exists offnos, (ip_blkid tid, offnos) ∈ group_tids tids /\ ip_posid tid ∈ offnos.
Proof. rewrite <- (ungroup_group_tids tids) at 1. apply elem_of_ungroup. Qed.

(** Every tid of the array on a block of the relation gets its turn in
    a call that returns. *)
Lemma heap_force_common_covers fuel in_recovery is_owner ta opt w w' tid :
  heap_force_common fuel in_recovery is_owner ta opt w = Ok w' ->
  Some tid ∈ ta ->
  (ip_blkid tid < RelationGetNumberOfBlocks (w_rel w))%N ->
  exists rel1 s1 s2,
    (N.to_nat (ip_blkid tid) < length (rd_pages rel1))%nat /\
    rtc (world_step opt) w (session_world (ip_blkid tid) s1 rel1) /\
    heap_force_item fuel opt (ip_blkid tid) (PageGetMaxOffsetNumber (s_page s1))
      (ip_posid tid) s1 = Ok s2 /\
    rtc (world_step opt) (session_world (ip_blkid tid) s2 rel1) w'.
Proof.
  intros H Hta Hblk. apply heap_force_common_Ok in H
    as (tids & w1 & _ & _ & -> & _ & _ & Hrun & ->).
  apply list_elem_of_fmap in Hta as (tid' & [= <-] & Hin).
  rewrite <- (sorted_tids_perm tids) in Hin.
  apply elem_of_group_tids in Hin as (offnos & Hgroup & Hoff).
  destruct (run_groups_covers (world_step opt) _ _ _ _
              (fun b o st st' => heap_force_page_steps fuel opt _ b o st st')
              Hgroup _ _ Hrun) as (wa & wb & Hpre & Hpage & Hpost).
  destruct (heap_force_page_covers _ _ _ _ _ _ _ _ Hblk Hoff Hpage)
    as (s1 & s2 & Hvalid & Hpre' & Hitem & Hpost').
  exists (w_rel wa), s1, s2. split; [assumption|]. split; [|split].
  - eapply rtc_l; [apply (ws_emit opt w EvRelationOpen)|].
    eapply rtc_trans; eassumption.
  - assumption.
  - eapply rtc_r; [|apply ws_emit]. eapply rtc_trans; eassumption.
Qed.

(** The trace only grows. *)
Lemma item_step_log opt blkno offno s s' :
  item_step opt blkno offno s s' -> exists evs, s_log s' = s_log s ++ evs.
Proof.
  destruct 1; simpl.
  - eauto.
  - unfold force_kill_item. destruct (PageIsAllVisible _); simpl; [eauto|].
    exists []. by rewrite app_nil_r.
  - exists []. by rewrite app_nil_r.
Qed.

Lemma world_steps_log opt w w' :
  rtc (world_step opt) w w' -> exists evs, w_log w' = w_log w ++ evs.
Proof.
  induction 1 as [w|w w1 w2 Hstep _ [evs IH]].
  - exists []. by rewrite app_nil_r.
  - destruct Hstep as [w ev | rel blkno offno s s' _ Hitem].
    + exists (ev :: evs). rewrite IH. simpl. by rewrite <- app_assoc.
    + destruct (item_step_log _ _ _ _ _ Hitem) as [evs1 H1]. simpl in *.
      exists (evs1 ++ evs). rewrite IH, H1. by rewrite <- app_assoc.
Qed.

(** ** Force-freeze and the visibility state *)

Lemma world_step_freeze_visibility w w' :
  world_step HEAP_FORCE_FREEZE w w' ->
  rd_vm (w_rel w') = rd_vm (w_rel w) /\
  pd_flags <$> rd_pages (w_rel w') = pd_flags <$> rd_pages (w_rel w).
Proof.
  destruct 1 as [w ev | rel blkno offno s s' _ Hitem]; [auto|].
  destruct Hitem as [n _ | cur itemid Hopt _ _ | cur itemid _ _ _]; simpl.
  - auto.
  - discriminate.
  - split; [reflexivity|]. rewrite !list_fmap_insert. reflexivity.
Qed.

(** C9.  A force-freeze call that returns leaves the flags of every
    page, and with them the all-visible flag, and the visibility map
    bits of every block as they were. *)
Theorem force_freeze_keeps_visibility :
  forall fuel in_recovery is_owner ta w w',
    heap_force_freeze fuel in_recovery is_owner ta w = Ok w' ->
    forall blkno : BlockNumber,
      pd_flags <$> (rd_pages (w_rel w') !! N.to_nat blkno) =
        pd_flags <$> (rd_pages (w_rel w) !! N.to_nat blkno) /\
      PageIsAllVisible <$> (rd_pages (w_rel w') !! N.to_nat blkno) =
        PageIsAllVisible <$> (rd_pages (w_rel w) !! N.to_nat blkno) /\
      visibilitymap_get_status (rd_vm (w_rel w')) blkno =
        visibilitymap_get_status (rd_vm (w_rel w)) blkno.
Proof.
  intros fuel in_recovery is_owner ta w w' H blkno.
  apply heap_force_common_steps in H.
  assert (Hinv : rd_vm (w_rel w') = rd_vm (w_rel w) /\
                 pd_flags <$> rd_pages (w_rel w') = pd_flags <$> rd_pages (w_rel w)).
  { induction H as [w|w w1 w2 Hstep _ IH]; [auto|].
    destruct (world_step_freeze_visibility _ _ Hstep) as [Hvm Hfl].
    destruct IH as [IHvm IHfl]. split; congruence. }
  destruct Hinv as [Hvm Hfl].
  assert (Hflags : pd_flags <$> (rd_pages (w_rel w') !! N.to_nat blkno) =
                   pd_flags <$> (rd_pages (w_rel w) !! N.to_nat blkno)).
  { rewrite <- !list_lookup_fmap, Hfl. reflexivity. }
  split; [exact Hflags|]. split; [|by rewrite Hvm].
  destruct (rd_pages (w_rel w') !! N.to_nat blkno) as [p'|],
    (rd_pages (w_rel w) !! N.to_nat blkno) as [p|]; simpl in *; try congruence.
  unfold PageIsAllVisible. injection Hflags as ->. reflexivity.
Qed.

Lemma force_freeze_keeps_visibility_witness :
  pd_flags <$> (rd_pages (w_rel Sample.frozen_world) !! N.to_nat 0) =
    pd_flags <$> (rd_pages (w_rel Sample.world) !! N.to_nat 0) /\
  PageIsAllVisible <$> (rd_pages (w_rel Sample.frozen_world) !! N.to_nat 0) =
    PageIsAllVisible <$> (rd_pages (w_rel Sample.world) !! N.to_nat 0) /\
  visibilitymap_get_status (rd_vm (w_rel Sample.frozen_world)) 0 =
    visibilitymap_get_status (rd_vm (w_rel Sample.world)) 0.
Proof.
  apply (force_freeze_keeps_visibility 5 false true [Some (mkTid 0%N 2)] Sample.world).
  reflexivity.
Defined.

(** ** Force-kill and the visibility state *)

Lemma not_marked_dead_self page : ~ marked_dead page page.
Proof.
  intros (i & it & it' & H1 & H2 & Hn & Hd).
  assert (it' = it) by congruence. subst.
  unfold ItemIdIsNormal, ItemIdIsDead in *. destruct (lp_flags it); discriminate.
Qed.

Lemma all_visible_cleared page : PageIsAllVisible (PageClearAllVisible page) = false.
Proof.
  unfold PageIsAllVisible, PageClearAllVisible. simpl.
  rewrite land_cleared. reflexivity.
Qed.

Lemma visibilitymap_clear_status blkno flags vm :
  Z.land (visibilitymap_get_status (visibilitymap_clear blkno flags vm) blkno) flags = 0.
Proof.
  unfold visibilitymap_get_status, visibilitymap_clear.
  rewrite lookup_alter_eq. destruct (vm !! blkno); simpl.
  - apply land_cleared.
  - reflexivity.
Qed.

Lemma visibilitymap_clear_status_ne blkno blkno' flags vm :
  blkno <> blkno' ->
  visibilitymap_get_status (visibilitymap_clear blkno flags vm) blkno' =
  visibilitymap_get_status vm blkno'.
Proof.
  intros Hne. unfold visibilitymap_get_status, visibilitymap_clear.
  rewrite lookup_alter_ne by assumption. reflexivity.
Qed.

Lemma PageGetItemId_lookup page offno itemid :
  PageGetItemId page offno = Some itemid ->
  pd_linp page !! Z.to_nat (offno - 1) = Some itemid.
Proof. unfold PageGetItemId. destruct (1 <=? offno); [auto | discriminate]. Qed.

Lemma force_kill_item_coupled rel0 rel blkno cur itemid s :
  (N.to_nat blkno < length (rd_pages rel))%nat ->
  PageGetItemId (s_page s) cur = Some itemid ->
  ItemIdIsNormal itemid = true ->
  visibility_coupled rel0 (set_page blkno (s_page s) (s_vm s) rel) ->
  visibility_coupled rel0
    (set_page blkno (s_page (force_kill_item blkno cur itemid s))
       (s_vm (force_kill_item blkno cur itemid s)) rel).
Proof.
  intros Hvalid Hget Hnormal Hinv b page0 Hp0 Hvis0.
  destruct (Hinv b page0 Hp0 Hvis0) as (page & Hpage & Hcases).
  apply PageGetItemId_lookup in Hget.
  simpl in Hpage.
  destruct (decide (b = blkno)) as [->|Hne].
  - rewrite list_lookup_insert_eq in Hpage by assumption.
    injection Hpage as <-.
    eexists. split; [simpl; apply list_lookup_insert_eq; assumption|].
    right. unfold force_kill_item.
    assert (Hflag : PageIsAllVisible
                      (set_item cur (ItemIdSetDead itemid) (s_page s)) =
                    PageIsAllVisible (s_page s)) by reflexivity.
    rewrite Hflag.
    destruct Hcases as [Heq|(Hmarked & Hvis & Hbit)].
    + rewrite Heq, Hvis0. simpl. split; [|split].
      * exists (Z.to_nat (cur - 1)), itemid, (ItemIdSetDead itemid).
        rewrite Heq in Hget.
        split; [exact Hget|]. split; [|split; [assumption | reflexivity]].
        simpl. apply list_lookup_insert_eq. eapply lookup_lt_Some; eassumption.
      * apply all_visible_cleared.
      * apply visibilitymap_clear_status.
    + rewrite Hvis. simpl. split; [|split; assumption].
      destruct Hmarked as (i & it & it' & H1 & H2 & Hn & Hd).
      exists i, it, it'. repeat split; try assumption.
      simpl. rewrite list_lookup_insert_ne; [assumption|].
      intros <-. assert (it' = itemid) by congruence. subst.
      unfold ItemIdIsNormal, ItemIdIsDead in *. destruct (lp_flags itemid); discriminate.
  - assert (Hidx : N.to_nat blkno <> N.to_nat b) by lia.
    rewrite list_lookup_insert_ne in Hpage by assumption.
    exists page. split; [simpl; rewrite list_lookup_insert_ne; assumption|].
    destruct Hcases as [->|(Hmarked & Hvis & Hbit)]; [by left|].
    right. split; [assumption|]. split; [assumption|].
    simpl. unfold force_kill_item.
    destruct (PageIsAllVisible (set_item cur (ItemIdSetDead itemid) (s_page s)));
      simpl; [|exact Hbit].
    rewrite visibilitymap_clear_status_ne by congruence. exact Hbit.
Qed.

Lemma world_step_kill_coupled rel0 w w' :
  world_step HEAP_FORCE_KILL w w' ->
  visibility_coupled rel0 (w_rel w) -> visibility_coupled rel0 (w_rel w').
Proof.
  destruct 1 as [w ev | rel blkno offno s s' Hvalid Hitem]; [auto|].
  destruct Hitem as [n _ | cur itemid _ Hget Hnormal | cur itemid Hopt _ _].
  - auto.
  - apply force_kill_item_coupled; assumption.
  - discriminate.
Qed.

(** C2.  A page that is all-visible when a force-kill call starts: if
    the call that returns has turned a normal line pointer of the page
    into a dead one, the page's all-visible flag and the all-visible
    bit of the block in the visibility map are clear afterwards; if it
    has not, the page is as it was, with the flag still set. *)
Theorem force_kill_visibility_coupling :
  forall fuel in_recovery is_owner ta w w' (blkno : BlockNumber) page,
    heap_force_kill fuel in_recovery is_owner ta w = Ok w' ->
    rd_pages (w_rel w) !! N.to_nat blkno = Some page ->
    PageIsAllVisible page = true ->
    exists page',
      rd_pages (w_rel w') !! N.to_nat blkno = Some page' /\
      (marked_dead page page' ->
       PageIsAllVisible page' = false /\
       Z.land (visibilitymap_get_status (rd_vm (w_rel w')) blkno)
         VISIBILITYMAP_ALL_VISIBLE = 0) /\
      (~ marked_dead page page' ->
       page' = page /\ PageIsAllVisible page' = true).
Proof.
  intros fuel in_recovery is_owner ta w w' blkno page H Hpage Hvis.
  apply heap_force_common_steps in H.
  assert (Hinv : visibility_coupled (w_rel w) (w_rel w')).
  { pattern w'. eapply rtc_ind_r; [| |exact H].
    - intros b p0 Hp0 _. exists p0. auto.
    - intros w1 w2 _ Hstep IH. eapply world_step_kill_coupled; eassumption. }
  destruct (Hinv blkno page Hpage Hvis) as (page' & Hpage' & Hcases).
  exists page'. split; [assumption|]. split.
  - intros Hmarked. destruct Hcases as [->|(_ & Hv & Hbit)]; [|auto].
    by apply not_marked_dead_self in Hmarked.
  - intros Hnot. destruct Hcases as [->|(Hmarked & _)]; [auto | contradiction].
Qed.

Lemma force_kill_visibility_coupling_witness :
  exists page',
    rd_pages (w_rel Sample.killed_world) !! N.to_nat 0 = Some page' /\
    (marked_dead Sample.page page' ->
     PageIsAllVisible page' = false /\
     Z.land (visibilitymap_get_status (rd_vm (w_rel Sample.killed_world)) 0)
       VISIBILITYMAP_ALL_VISIBLE = 0) /\
    (~ marked_dead Sample.page page' ->
     page' = Sample.page /\ PageIsAllVisible page' = true).
Proof.
  apply (force_kill_visibility_coupling 5 false true [Some (mkTid 0 2)] Sample.world
           Sample.killed_world 0 Sample.page); reflexivity.
Defined.

(** ** What a call can do to line pointers *)

#[global] Instance slot_preserved_refl : Reflexive slot_preserved.
Proof. intros it. by left. Qed.

#[global] Instance slot_preserved_trans : Transitive slot_preserved.
Proof.
  intros it0 it1 it2 [->|[Hn0 Hd1]] [->|[Hn1 Hd2]].
  - by left.
  - right. auto.
  - right. auto.
  - unfold ItemIdIsNormal, ItemIdIsDead in *. destruct (lp_flags it1); discriminate.
Qed.

#[global] Instance linp_preserved_refl : Reflexive linp_preserved.
Proof. intros p. unfold linp_preserved. reflexivity. Qed.

#[global] Instance linp_preserved_trans : Transitive linp_preserved.
Proof. intros p0 p1 p2. unfold linp_preserved. apply transitivity. Qed.

#[global] Instance pages_preserved_refl : Reflexive pages_preserved.
Proof. intros p. unfold pages_preserved. reflexivity. Qed.

#[global] Instance pages_preserved_trans : Transitive pages_preserved.
Proof. intros p0 p1 p2. unfold pages_preserved. apply transitivity. Qed.

Lemma item_step_preserved opt blkno offno s s' :
  item_step opt blkno offno s s' -> linp_preserved (s_page s) (s_page s').
Proof.
  destruct 1 as [n _ | cur itemid _ Hget Hnormal | cur itemid _ _ _]; simpl.
  - reflexivity.
  - apply PageGetItemId_lookup in Hget.
    assert (H : Forall2 slot_preserved (pd_linp (s_page s))
                  (<[Z.to_nat (cur - 1) := ItemIdSetDead itemid]> (pd_linp (s_page s)))).
    { rewrite <- (list_insert_id _ _ _ Hget) at 1.
      apply Forall2_insert; [reflexivity|]. right. auto. }
    unfold linp_preserved, force_kill_item.
    destruct (PageIsAllVisible _); exact H.
  - unfold linp_preserved. simpl. reflexivity.
Qed.

Lemma world_step_preserved opt w w' :
  world_step opt w w' -> pages_preserved (w_rel w) (w_rel w').
Proof.
  destruct 1 as [w ev | rel blkno offno s s' _ Hitem]; [reflexivity|].
  unfold pages_preserved. simpl.
  apply Forall2_insert; [reflexivity|].
  eapply item_step_preserved; eassumption.
Qed.

Lemma world_steps_preserved opt w w' :
  rtc (world_step opt) w w' -> pages_preserved (w_rel w) (w_rel w').
Proof.
  induction 1 as [w|w w1 w2 Hstep _ IH]; [reflexivity|].
  etransitivity; [eapply world_step_preserved; eassumption | exact IH].
Qed.

Lemma linp_preserved_item page0 page offno itemid0 :
  linp_preserved page0 page ->
  PageGetItemId page0 offno = Some itemid0 ->
  exists itemid,
    PageGetItemId page offno = Some itemid /\ slot_preserved itemid0 itemid.
Proof.
  unfold PageGetItemId. intros Hp. destruct (1 <=? offno); [|discriminate].
  intros H. eapply Forall2_lookup_l in H; [|exact Hp]. exact H.
Qed.

Lemma slot_preserved_redirect itemid0 itemid :
  slot_preserved itemid0 itemid ->
  ItemIdIsRedirected itemid = ItemIdIsRedirected itemid0 /\
  (ItemIdIsRedirected itemid0 = true -> itemid = itemid0).
Proof.
  intros [->|[Hn Hd]]; [auto|].
  unfold ItemIdIsNormal, ItemIdIsDead, ItemIdIsRedirected in *.
  destruct (lp_flags itemid0), (lp_flags itemid); try discriminate.
  split; [reflexivity | discriminate].
Qed.

Lemma slot_preserved_dead itemid0 itemid :
  slot_preserved itemid0 itemid ->
  ItemIdIsDead itemid0 = true -> ItemIdIsDead itemid = true.
Proof. intros [->|[_ Hd]]; auto. Qed.

(** Redirect chains are never rewired. *)
Lemma linp_preserved_resolves_in page0 page n offno cur :
  linp_preserved page0 page ->
  resolves_in page0 n offno cur -> resolves_in page n offno cur.
Proof.
  intros Hp. induction 1 as [offno it0 Hget Hred | n offno it0 cur Hget Hred _ IH].
  - destruct (linp_preserved_item _ _ _ _ Hp Hget) as (it & Hget' & Hslot).
    apply slot_preserved_redirect in Hslot as [Hsame _].
    econstructor; [eassumption | congruence].
  - destruct (linp_preserved_item _ _ _ _ Hp Hget) as (it & Hget' & Hslot).
    apply slot_preserved_redirect in Hslot as [_ Heq]. rewrite (Heq Hred) in Hget'.
    econstructor; eassumption.
Qed.

Lemma pages_preserved_page rel0 rel (blkno : BlockNumber) page0 :
  pages_preserved rel0 rel ->
  rd_pages rel0 !! N.to_nat blkno = Some page0 ->
  exists page, rd_pages rel !! N.to_nat blkno = Some page /\ linp_preserved page0 page.
Proof. intros Hp H. eapply Forall2_lookup_l in H; [|exact Hp]. exact H. Qed.

Lemma session_world_page blkno s rel :
  (N.to_nat blkno < length (rd_pages rel))%nat ->
  rd_pages (w_rel (session_world blkno s rel)) !! N.to_nat blkno = Some (s_page s).
Proof. intros H. simpl. apply list_lookup_insert_eq. assumption. Qed.

(** ** Targets that resolve to a dead line pointer *)

Lemma heap_force_item_Ok_follow fuel opt blkno maxoffset offno s s' :
  heap_force_item fuel opt blkno maxoffset offno s = Ok s' ->
  1 <= offno <= maxoffset ->
  exists cur itemid, follow_redirects fuel (s_page s) offno = Ok (cur, itemid).
Proof.
  unfold heap_force_item. intros H Hrange.
  replace (offno =? 0) with false in H by (symmetry; apply Z.eqb_neq; lia).
  replace (maxoffset <? offno) with false in H by (symmetry; apply Z.ltb_ge; lia).
  simpl in H.
  destruct (follow_redirects fuel (s_page s) offno) as [[cur itemid]| | |];
    try discriminate.
  eauto.
Qed.

Lemma follow_redirects_resolved page fuel n offno cur cur' itemid :
  resolves_in page n offno cur ->
  follow_redirects fuel page offno = Ok (cur', itemid) ->
  cur' = cur /\ PageGetItemId page cur = Some itemid.
Proof.
  intros Hres Hf.
  destruct (follow_redirects_Ok _ _ _ _ _ Hf) as (Hget & _ & m & _ & Hres').
  destruct (resolves_in_det _ _ _ _ _ _ Hres Hres') as [_ ->]. auto.
Qed.

(** The loop body on a target that resolves to a dead line pointer,
    for either option. *)
Lemma heap_force_item_dead fuel opt blkno offno s s' n cur itemid :
  heap_force_item fuel opt blkno (PageGetMaxOffsetNumber (s_page s)) offno s = Ok s' ->
  resolves_in (s_page s) n offno cur ->
  PageGetItemId (s_page s) cur = Some itemid ->
  ItemIdIsDead itemid = true ->
  s' = ereport_notice (AlreadyDead blkno offno) s.
Proof.
  intros H Hres Hget Hdead.
  pose proof (resolves_in_range _ _ _ _ Hres) as Hrange.
  destruct (heap_force_item_Ok_follow _ _ _ _ _ _ _ H Hrange) as (cur' & it' & Hf).
  destruct (follow_redirects_resolved _ _ _ _ _ _ _ Hres Hf) as [-> Hget'].
  assert (it' = itemid) by congruence. subst it'.
  assert (H0 : offno <> 0) by lia.
  assert (Hmax : offno <= PageGetMaxOffsetNumber (s_page s)) by lia.
  rewrite (heap_force_item_resolved _ opt blkno _ _ _ _ _ H0 Hmax Hf) in H.
  rewrite Hdead in H.
  assert (Hused : ItemIdIsUsed itemid = true).
  { unfold ItemIdIsUsed, ItemIdIsDead in *. destruct (lp_flags itemid); congruence. }
  rewrite Hused in H. simpl in H. congruence.
Qed.

(** C7 (as stated, refuted).  Force-freeze on a target whose line
    pointer is dead returns with the AlreadyDead notice in the trace. *)
Lemma force_freeze_emits_already_dead :
  exists w',
    heap_force_freeze 5 false true [Some (mkTid 0 4)] Sample.world = Ok w' /\
    EvNotice (AlreadyDead 0 4) ∈ w_log w'.
Proof.
  eexists. split; [reflexivity|].
  vm_compute. do 2 (apply list_elem_of_further). apply list_elem_of_here.
Qed.

(** C7 (amended).  The AlreadyDead notice belongs to both operations:
    in a call of either that returns, every row identifier of the batch
    whose redirections end at a line pointer that is dead when the call
    starts gets its AlreadyDead notice. *)
Theorem already_dead_notice_either_option :
  forall fuel in_recovery is_owner ta opt w w' tid page cur itemid,
    heap_force_common fuel in_recovery is_owner ta opt w = Ok w' ->
    Some tid ∈ ta ->
    rd_pages (w_rel w) !! N.to_nat (ip_blkid tid) = Some page ->
    resolves_to page (ip_posid tid) cur ->
    PageGetItemId page cur = Some itemid ->
    ItemIdIsDead itemid = true ->
    EvNotice (AlreadyDead (ip_blkid tid) (ip_posid tid)) ∈ w_log w'.
Proof.
  intros fuel in_recovery is_owner ta opt w w' tid page cur itemid
    H Hta Hpage [n Hres]%resolves_to_in Hget Hdead.
  assert (Hblk : (ip_blkid tid < RelationGetNumberOfBlocks (w_rel w))%N).
  { apply lookup_lt_Some in Hpage. unfold RelationGetNumberOfBlocks. lia. }
  destruct (heap_force_common_covers _ _ _ _ _ _ _ _ H Hta Hblk)
    as (rel1 & s1 & s2 & Hvalid & Hpre & Hitem & Hpost).
  apply world_steps_preserved in Hpre.
  destruct (pages_preserved_page _ _ _ _ Hpre Hpage) as (page1 & Hpage1 & Hlinp).
  rewrite session_world_page in Hpage1 by assumption. injection Hpage1 as <-.
  destruct (linp_preserved_item _ _ _ _ Hlinp Hget) as (it1 & Hget1 & Hslot).
  pose proof (slot_preserved_dead _ _ Hslot Hdead) as Hdead1.
  pose proof (linp_preserved_resolves_in _ _ _ _ _ Hlinp Hres) as Hres1.
  rewrite (heap_force_item_dead _ _ _ _ _ _ _ _ _ Hitem Hres1 Hget1 Hdead1) in Hpost.
  apply world_steps_log in Hpost as [evs ->]. simpl.
  rewrite !elem_of_app. left. right. apply list_elem_of_here.
Qed.

Lemma already_dead_notice_either_option_witness :
  EvNotice (AlreadyDead 0 4) ∈
    w_log (Sample.returned
             (heap_force_freeze 5 false true [Some (mkTid 0 4)] Sample.world)).
Proof.
  apply (already_dead_notice_either_option 5 false true [Some (mkTid 0 4)]
           HEAP_FORCE_FREEZE Sample.world _ (mkTid 0 4) Sample.page 4
           (mkItemId 0 LP_DEAD 0)).
  - reflexivity.
  - apply list_elem_of_here.
  - reflexivity.
  - eapply resolves_here; reflexivity.
  - reflexivity.
  - reflexivity.
Defined.

(** ** A second force-kill *)

Lemma heap_force_common_Ok_checks fuel in_recovery is_owner ta opt w w' :
  heap_force_common fuel in_recovery is_owner ta opt w = Ok w' ->
  fuel <> O /\ relkind_supported (w_rel w) = true.
Proof.
  unfold heap_force_common, relkind_supported.
  destruct in_recovery; [discriminate|].
  destruct (sanity_check_tid_array ta w) as [ntids| | |]; simpl; try discriminate.
  unfold sanity_check_relation.
  destruct (negb _ && negb _ && negb _); [discriminate|].
  destruct is_owner; [|discriminate].
  destruct fuel; simpl; [discriminate|]. auto.
Qed.

Lemma world_steps_relkind opt w w' :
  rtc (world_step opt) w w' -> rd_relkind (w_rel w') = rd_relkind (w_rel w).
Proof.
  induction 1 as [w|w w1 w2 Hstep _ IH]; [reflexivity|].
  rewrite IH. destruct Hstep; reflexivity.
Qed.

(** A call on the single tid [tid], which resolves to a dead line
    pointer: it returns, with the notice, and writes nothing. *)
Lemma heap_force_common_dead_target fuel opt w tid page n cur itemid :
  fuel <> O -> (n <= fuel)%nat ->
  relkind_supported (w_rel w) = true ->
  rd_pages (w_rel w) !! N.to_nat (ip_blkid tid) = Some page ->
  resolves_in page n (ip_posid tid) cur ->
  PageGetItemId page cur = Some itemid ->
  ItemIdIsDead itemid = true ->
  heap_force_common fuel false true [Some tid] opt w =
  Ok {| w_rel := w_rel w;
        w_log := w_log w ++
          untouched_page_events opt (ip_blkid tid) page
            (AlreadyDead (ip_blkid tid) (ip_posid tid)) |}.
Proof.
  intros Hfuel Hn Hkind Hpage Hres Hget Hdead.
  destruct fuel as [|fuel']; [done|]. set (fuel := S fuel') in *.
  unfold heap_force_common, sanity_check_tid_array, sanity_check_relation.
  unfold relkind_supported in Hkind. apply negb_true_iff in Hkind.
  simpl. rewrite Hkind. simpl.
  unfold tids_same_page_fetch_offnums. simpl.
  unfold ItemPointerGetBlockNumberNoCheck, ItemPointerGetOffsetNumberNoCheck.
  assert (Hblk : (RelationGetNumberOfBlocks (w_rel w) <=? ip_blkid tid)%N = false).
  { apply N.leb_gt. apply lookup_lt_Some in Hpage.
    unfold RelationGetNumberOfBlocks. lia. }
  unfold heap_force_page. simpl. rewrite Hblk, Hpage. simpl.
  destruct (follow_redirects_resolves_in _ _ _ _ Hres fuel Hn)
    as (it & Hf & Hget' & _).
  assert (it = itemid) by congruence. subst it.
  pose proof (resolves_in_range _ _ _ _ Hres) as Hrange.
  rewrite (heap_force_item_resolved fuel opt (ip_blkid tid)
             (PageGetMaxOffsetNumber page) (ip_posid tid)
             (session_start opt (ip_blkid tid) page (emit EvRelationOpen w))
             cur itemid); [|lia|lia|exact Hf].
  assert (Hused : ItemIdIsUsed itemid = true).
  { unfold ItemIdIsUsed, ItemIdIsDead in *. destruct (lp_flags itemid); congruence. }
  rewrite Hused, Hdead. simpl.
  unfold session_finish, emit, untouched_page_events. simpl.
  rewrite (set_page_id _ _ _ Hpage).
  f_equal. f_equal.
  destruct (pin_vm opt page); simpl; rewrite <- !app_assoc; reflexivity.
Qed.

Lemma force_kill_item_slot blkno cur itemid s :
  PageGetItemId (s_page s) cur = Some itemid ->
  PageGetItemId (s_page (force_kill_item blkno cur itemid s)) cur =
  Some (ItemIdSetDead itemid).
Proof.
  unfold PageGetItemId, force_kill_item.
  destruct (1 <=? cur); [|discriminate]. intros H%lookup_lt_Some.
  destruct (PageIsAllVisible _); simpl; apply list_lookup_insert_eq; assumption.
Qed.

(** After the loop body has dealt with a target whose redirections end
    at a normal or dead line pointer, that line pointer is dead. *)
Lemma heap_force_kill_item_leaves_dead fuel blkno offno s s' n cur itemid :
  heap_force_item fuel HEAP_FORCE_KILL blkno (PageGetMaxOffsetNumber (s_page s))
    offno s = Ok s' ->
  resolves_in (s_page s) n offno cur ->
  PageGetItemId (s_page s) cur = Some itemid ->
  ItemIdIsNormal itemid = true \/ ItemIdIsDead itemid = true ->
  (n <= fuel)%nat /\
  exists itemid',
    PageGetItemId (s_page s') cur = Some itemid' /\ ItemIdIsDead itemid' = true.
Proof.
  intros H Hres Hget Hflag.
  pose proof (resolves_in_range _ _ _ _ Hres) as Hrange.
  destruct (heap_force_item_Ok_follow _ _ _ _ _ _ _ H Hrange) as (cur' & it' & Hf).
  destruct (follow_redirects_resolved _ _ _ _ _ _ _ Hres Hf) as [-> Hget'].
  assert (it' = itemid) by congruence. subst it'.
  split.
  { destruct (follow_redirects_Ok _ _ _ _ _ Hf) as (_ & _ & m & Hm & Hres').
    destruct (resolves_in_det _ _ _ _ _ _ Hres Hres') as [-> _]. exact Hm. }
  assert (H0 : offno <> 0) by lia.
  assert (Hmax : offno <= PageGetMaxOffsetNumber (s_page s)) by lia.
  rewrite (heap_force_item_resolved _ HEAP_FORCE_KILL blkno _ _ _ _ _ H0 Hmax Hf) in H.
  destruct Hflag as [Hnormal|Hdead].
  - destruct (ItemIdIsNormal_inv _ Hnormal) as (Hused & Hdead & _).
    rewrite Hused, Hdead in H. simpl in H. injection H as <-.
    exists (ItemIdSetDead itemid). split; [|reflexivity].
    by apply force_kill_item_slot.
  - assert (Hused : ItemIdIsUsed itemid = true).
    { unfold ItemIdIsUsed, ItemIdIsDead in *. destruct (lp_flags itemid); congruence. }
    rewrite Hused, Hdead in H. simpl in H. injection H as <-.
    exists itemid. auto.
Qed.

(** C5.  A force-kill call that returns, with a row identifier in its
    batch whose redirections ended at a normal line pointer when the
    call started: afterwards that line pointer is dead, and a second
    force-kill on the row identifier returns (no error), leaves the
    relation with all its pages as it found it, and adds to the trace
    the AlreadyDead notice for the identifier and no other notice. *)
Theorem force_kill_twice :
  forall fuel in_recovery is_owner ta w w1 tid page cur itemid,
    heap_force_kill fuel in_recovery is_owner ta w = Ok w1 ->
    Some tid ∈ ta ->
    rd_pages (w_rel w) !! N.to_nat (ip_blkid tid) = Some page ->
    resolves_to page (ip_posid tid) cur ->
    PageGetItemId page cur = Some itemid ->
    ItemIdIsNormal itemid = true ->
    exists page1 itemid1,
      rd_pages (w_rel w1) !! N.to_nat (ip_blkid tid) = Some page1 /\
      PageGetItemId page1 cur = Some itemid1 /\
      ItemIdIsDead itemid1 = true /\
      heap_force_kill fuel false true [Some tid] w1 =
      Ok {| w_rel := w_rel w1;
            w_log := w_log w1 ++
              untouched_page_events HEAP_FORCE_KILL (ip_blkid tid) page1
                (AlreadyDead (ip_blkid tid) (ip_posid tid)) |}.
Proof.
  intros fuel in_recovery is_owner ta w w1 tid page cur itemid
    H Hta Hpage [n Hres]%resolves_to_in Hget Hnormal.
  unfold heap_force_kill in *.
  assert (Hblk : (ip_blkid tid < RelationGetNumberOfBlocks (w_rel w))%N).
  { apply lookup_lt_Some in Hpage. unfold RelationGetNumberOfBlocks. lia. }
  destruct (heap_force_common_Ok_checks _ _ _ _ _ _ _ H) as [Hfuel Hkind].
  pose proof (heap_force_common_steps _ _ _ _ _ _ _ H) as Hall.
  destruct (heap_force_common_covers _ _ _ _ _ _ _ _ H Hta Hblk)
    as (rel1 & s1 & s2 & Hvalid & Hpre & Hitem & Hpost).
  (* up to the turn of [tid] *)
  apply world_steps_preserved in Hpre.
  destruct (pages_preserved_page _ _ _ _ Hpre Hpage) as (pa & Hpa & Hlinp_a).
  rewrite session_world_page in Hpa by assumption. injection Hpa as <-.
  destruct (linp_preserved_item _ _ _ _ Hlinp_a Hget) as (it_a & Hget_a & Hslot_a).
  pose proof (linp_preserved_resolves_in _ _ _ _ _ Hlinp_a Hres) as Hres_a.
  assert (Hflag_a : ItemIdIsNormal it_a = true \/ ItemIdIsDead it_a = true).
  { destruct Hslot_a as [->|[_ Hd]]; auto. }
  (* the turn of [tid] *)
  destruct (heap_force_kill_item_leaves_dead _ _ _ _ _ _ _ _ Hitem Hres_a Hget_a Hflag_a)
    as (Hn & it_b & Hget_b & Hdead_b).
  (* from there to the end of the call *)
  apply world_steps_preserved in Hpost.
  destruct (pages_preserved_page _ _ (ip_blkid tid) (s_page s2) Hpost
              (session_world_page _ _ _ Hvalid)) as (page1 & Hpage1 & Hlinp_b).
  destruct (linp_preserved_item _ _ _ _ Hlinp_b Hget_b) as (it1 & Hget1 & Hslot1).
  pose proof (slot_preserved_dead _ _ Hslot1 Hdead_b) as Hdead1.
  exists page1, it1. repeat split; try assumption.
  (* the second call *)
  assert (Hlinp : linp_preserved page page1).
  { apply world_steps_preserved in Hall.
    destruct (pages_preserved_page _ _ _ _ Hall Hpage) as (p & Hp & Hl).
    congruence. }
  pose proof (linp_preserved_resolves_in _ _ _ _ _ Hlinp Hres) as Hres1.
  eapply heap_force_common_dead_target; try eassumption.
  unfold relkind_supported in *.
  rewrite (world_steps_relkind _ _ _ Hall). exact Hkind.
Qed.

Lemma force_kill_twice_witness :
  exists page1 itemid1,
    rd_pages (w_rel Sample.killed_world) !! N.to_nat 0 = Some page1 /\
    PageGetItemId page1 3 = Some itemid1 /\
    ItemIdIsDead itemid1 = true /\
    heap_force_kill 5 false true [Some (mkTid 0 2)] Sample.killed_world =
    Ok {| w_rel := w_rel Sample.killed_world;
          w_log := w_log Sample.killed_world ++
            untouched_page_events HEAP_FORCE_KILL 0 page1 (AlreadyDead 0 2) |}.
Proof.
  apply (force_kill_twice 5 false true [Some (mkTid 0 2)] Sample.world
           Sample.killed_world (mkTid 0 2) Sample.page 3 (mkItemId 200 LP_NORMAL 28)).
  - reflexivity.
  - apply list_elem_of_here.
  - reflexivity.
  - eapply resolves_redirect; [reflexivity | reflexivity |].
    eapply resolves_here; reflexivity.
  - reflexivity.
  - reflexivity.
Defined.

(** ** Blocks past the end of the relation *)

Lemma extends_refl P log : extends P log log.
Proof. exists []. split; [by rewrite app_nil_r | constructor]. Qed.

Lemma extends_trans P log0 log1 log2 :
  extends P log0 log1 -> extends P log1 log2 -> extends P log0 log2.
Proof.
  intros (evs1 & -> & H1) (evs2 & -> & H2). exists (evs1 ++ evs2).
  split; [by rewrite app_assoc | by apply Forall_app].
Qed.

Lemma extends_snoc P log0 log ev :
  extends P log0 log -> P ev -> extends P log0 (log ++ [ev]).
Proof.
  intros H Hev. eapply extends_trans; [exact H|].
  exists [ev]. split; [reflexivity | by constructor].
Qed.

Lemma extends_emit_if P log0 log b ev :
  extends P log0 log -> P ev -> extends P log0 (emit_if b ev log).
Proof. intros H Hev. destruct b; simpl; [by apply extends_snoc | exact H]. Qed.

Lemma item_step_in_range_events opt blkno offno s s' :
  item_step opt blkno offno s s' ->
  extends (in_range_event blkno) (s_log s) (s_log s').
Proof.
  destruct 1 as [n Hn | cur itemid _ _ _ | cur itemid _ _ _]; simpl.
  - apply extends_snoc; [apply extends_refl|]. destruct Hn; by split.
  - unfold force_kill_item. destruct (PageIsAllVisible _); simpl.
    + apply extends_snoc; [apply extends_refl | by split].
    + apply extends_refl.
  - apply extends_refl.
Qed.

Lemma heap_force_items_in_range_events fuel opt blkno maxoffset offnos : forall s s',
  heap_force_items fuel opt blkno maxoffset offnos s = Ok s' ->
  extends (in_range_event blkno) (s_log s) (s_log s').
Proof.
  induction offnos as [|offno rest IH]; intros s s'; simpl.
  - intros [= <-]. apply extends_refl.
  - destruct (heap_force_item fuel opt blkno maxoffset offno s) as [s1| | |] eqn:H1;
      simpl; try discriminate.
    intros H. eapply extends_trans; [|apply IH; exact H].
    eapply item_step_in_range_events, heap_force_item_step; eassumption.
Qed.

Lemma heap_force_page_in_range_events fuel opt nblocks blkno offnos w w' :
  (blkno < nblocks)%N ->
  heap_force_page fuel opt nblocks blkno offnos w = Ok w' ->
  extends (in_range_event blkno) (w_log w ++ [EvReadBuffer blkno]) (w_log w').
Proof.
  intros Hin H.
  destruct (heap_force_page_in_range _ _ _ _ _ _ _ Hin H)
    as (page & s & Hpage & Hitems & ->).
  apply heap_force_items_in_range_events in Hitems.
  unfold session_finish. simpl.
  repeat first [ apply extends_emit_if; [|by split]
               | apply extends_snoc; [|by split] ].
  eapply extends_trans; [|exact Hitems].
  unfold session_start. simpl.
  apply extends_emit_if; [apply extends_refl | by split].
Qed.

Lemma heap_force_page_events fuel opt nblocks blkno offnos w w' :
  heap_force_page fuel opt nblocks blkno offnos w = Ok w' ->
  exists evs,
    w_log w' = w_log w ++ evs /\
    Forall (out_of_range_only_notice nblocks) evs /\
    ((nblocks <= blkno)%N -> evs = [EvNotice (BlockOutOfRange blkno)]) /\
    ((blkno < nblocks)%N -> EvReadBuffer blkno ∈ evs).
Proof.
  destruct (N.le_gt_cases nblocks blkno) as [Hout|Hin].
  - rewrite heap_force_page_out_of_range by assumption. intros [= <-].
    exists [EvNotice (BlockOutOfRange blkno)]. split; [reflexivity|].
    split; [|split; [auto | lia]].
    constructor; [|constructor]. intros b [= <-] _. reflexivity.
  - intros H. apply heap_force_page_in_range_events in H as (evs & -> & Hevs);
      [|assumption].
    exists (EvReadBuffer blkno :: evs). split; [by rewrite <- app_assoc|].
    split; [|split; [lia | intros _; apply list_elem_of_here]].
    constructor.
    + intros b [= <-] ?. lia.
    + eapply Forall_impl; [exact Hevs|]. intros ev [Hb _] b Hb' ?.
      rewrite Hb in Hb'. injection Hb' as <-. lia.
Qed.

Lemma run_groups_events fuel opt nblocks groups : forall w w',
  run_groups (heap_force_page fuel opt nblocks) groups w = Ok w' ->
  exists evs,
    w_log w' = w_log w ++ evs /\
    Forall (out_of_range_only_notice nblocks) evs /\
    forall blkno offnos,
      (blkno, offnos) ∈ groups ->
      ((nblocks <= blkno)%N -> EvNotice (BlockOutOfRange blkno) ∈ evs) /\
      ((blkno < nblocks)%N -> EvReadBuffer blkno ∈ evs).
Proof.
  induction groups as [|[b offs] groups IH]; intros w w'; simpl.
  - intros [= <-]. exists []. split; [by rewrite app_nil_r|].
    split; [constructor|]. intros ? ? Hin. inversion Hin.
  - destruct (heap_force_page fuel opt nblocks b offs w) as [w1| | |] eqn:H1;
      simpl; try discriminate.
    intros H. destruct (heap_force_page_events _ _ _ _ _ _ _ H1)
      as (evs1 & Hlog1 & Hall1 & Hout1 & Hin1).
    destruct (IH _ _ H) as (evs2 & Hlog2 & Hall2 & Hgroups).
    exists (evs1 ++ evs2). split; [by rewrite Hlog2, Hlog1, app_assoc|].
    split; [by apply Forall_app|].
    intros blkno offnos [[= -> ->]|Hin]%elem_of_cons.
    + split; intros Hb; apply elem_of_app; left.
      * rewrite (Hout1 Hb). apply list_elem_of_here.
      * by apply Hin1.
    + destruct (Hgroups _ _ Hin) as [Ho Hi].
      split; intros Hb; apply elem_of_app; right; auto.
Qed.

(** ** Calls that return *)

Lemma linp_preserved_length page0 page :
  linp_preserved page0 page -> length (pd_linp page) = length (pd_linp page0).
Proof. intros H. symmetry. eapply Forall2_length. exact H. Qed.

Lemma page_chains_ok_preserved page0 page :
  linp_preserved page0 page -> page_chains_ok page0 -> page_chains_ok page.
Proof.
  intros Hp Hok offno Hrange.
  unfold PageGetMaxOffsetNumber in *. rewrite (linp_preserved_length _ _ Hp) in Hrange.
  destruct (Hok offno Hrange) as [cur [n Hres]%resolves_to_in].
  exists cur. apply resolves_to_in. exists n.
  eapply linp_preserved_resolves_in; eassumption.
Qed.

Lemma heap_force_item_returns fuel opt blkno offno s :
  0 <= offno ->
  page_chains_ok (s_page s) ->
  (length (pd_linp (s_page s)) <= fuel)%nat ->
  exists s', heap_force_item fuel opt blkno (PageGetMaxOffsetNumber (s_page s)) offno s
             = Ok s'.
Proof.
  intros Hoff Hok Hfuel. unfold heap_force_item.
  destruct ((offno =? 0) || (PageGetMaxOffsetNumber (s_page s) <? offno)) eqn:Hrange;
    [eauto|].
  apply orb_false_iff in Hrange as [H0%Z.eqb_neq Hmax%Z.ltb_ge].
  destruct (Hok offno) as [cur [n Hres]%resolves_to_in]; [lia|].
  pose proof (resolves_in_bound _ _ _ _ Hres) as Hn.
  destruct (follow_redirects_resolves_in _ _ _ _ Hres fuel) as (it & -> & _); [lia|].
  simpl. destruct (ItemIdIsUsed it), (ItemIdIsDead it), opt; simpl; eauto.
Qed.

Lemma heap_force_items_returns fuel opt blkno page0 offnos : forall s,
  Forall (Z.le 0) offnos ->
  linp_preserved page0 (s_page s) ->
  page_chains_ok page0 ->
  (length (pd_linp page0) <= fuel)%nat ->
  exists s',
    heap_force_items fuel opt blkno (PageGetMaxOffsetNumber page0) offnos s = Ok s' /\
    linp_preserved page0 (s_page s').
Proof.
  induction offnos as [|offno rest IH]; intros s Hoffs Hp Hok Hfuel; simpl; [eauto|].
  inversion Hoffs as [|? ? Hoff Hrest]; subst.
  pose proof (linp_preserved_length _ _ Hp) as Hlen.
  destruct (heap_force_item_returns fuel opt blkno offno s Hoff) as [s1 H1].
  { eapply page_chains_ok_preserved; eassumption. }
  { lia. }
  unfold PageGetMaxOffsetNumber in *. rewrite Hlen in H1. rewrite H1. simpl.
  apply IH; try assumption.
  etransitivity; [exact Hp|].
  eapply item_step_preserved, heap_force_item_step. exact H1.
Qed.

Lemma heap_force_page_returns fuel opt nblocks blkno offnos w :
  Forall (Z.le 0) offnos ->
  relation_ok nblocks fuel (w_rel w) ->
  exists w',
    heap_force_page fuel opt nblocks blkno offnos w = Ok w' /\
    relation_ok nblocks fuel (w_rel w').
Proof.
  intros Hoffs [Hlen Hpages].
  destruct (N.le_gt_cases nblocks blkno) as [Hout|Hin].
  - rewrite heap_force_page_out_of_range by assumption.
    eexists. split; [reflexivity|]. by split.
  - unfold heap_force_page.
    replace (nblocks <=? blkno)%N with false by (symmetry; apply N.leb_gt; assumption).
    destruct (lookup_lt_is_Some_2 (rd_pages (w_rel w)) (N.to_nat blkno)) as [page Hpage];
      [lia|].
    rewrite Hpage.
    destruct (Forall_lookup_1 _ _ _ _ Hpages Hpage) as [Hok Hfuel].
    destruct (heap_force_items_returns fuel opt blkno page offnos
                (session_start opt blkno page w) Hoffs) as (s & Hs & Hp);
      [reflexivity | assumption | assumption |].
    rewrite Hs. simpl. eexists. split; [reflexivity|].
    split; simpl.
    + rewrite length_insert. assumption.
    + apply Forall_insert; [assumption|]. split.
      * eapply page_chains_ok_preserved; eassumption.
      * rewrite (linp_preserved_length _ _ Hp). assumption.
Qed.

Lemma run_groups_returns fuel opt nblocks groups : forall w,
  Forall (fun g => Forall (Z.le 0) (snd g)) groups ->
  relation_ok nblocks fuel (w_rel w) ->
  exists w', run_groups (heap_force_page fuel opt nblocks) groups w = Ok w'.
Proof.
  induction groups as [|[b offs] groups IH]; intros w Hgroups Hok; simpl; [eauto|].
  inversion Hgroups as [|? ? Hoffs Hrest]; subst. simpl in Hoffs.
  destruct (heap_force_page_returns fuel opt nblocks b offs w Hoffs Hok)
    as (w1 & -> & Hok1).
  simpl. by apply IH.
Qed.

Lemma group_tids_offsets tids :
  Forall (fun tid => 0 <= ip_posid tid) tids ->
  Forall (fun g => Forall (Z.le 0) (snd g)) (group_tids tids).
Proof.
  intros H. rewrite Forall_forall. intros [b offs] Hin. simpl.
  rewrite Forall_forall. intros o Ho.
  assert (Htid : mkTid b o ∈ tids).
  { rewrite <- (ungroup_group_tids tids). apply elem_of_ungroup. eauto. }
  rewrite Forall_forall in H. apply (H _ Htid).
Qed.

(** A validated batch the cursors can index, on a relation whose
    redirect chains end: the page loop returns, and the call with
    it. *)
Lemma heap_force_common_runs fuel opt tids w :
  tids <> [] ->
  Z.of_nat (length tids) <= 65535 ->
  Forall tid_wf tids ->
  relkind_supported (w_rel w) = true ->
  relation_ok (RelationGetNumberOfBlocks (w_rel w)) fuel (w_rel w) ->
  (length tids <= fuel)%nat ->
  exists w1,
    run_groups (heap_force_page fuel opt (RelationGetNumberOfBlocks (w_rel w)))
      (group_tids (sorted_tids tids)) (emit EvRelationOpen w) = Ok w1 /\
    heap_force_common fuel false true (Some <$> tids) opt w =
      Ok (emit EvRelationClose w1).
Proof.
  intros Hne Hsmall Hwf Hkind Hok Hfuel.
  assert (Hoffs : Forall (fun tid => 0 <= ip_posid tid) tids).
  { eapply Forall_impl; [exact Hwf|]. intros tid [_ [H _]]. exact H. }
  destruct (run_groups_returns fuel opt (RelationGetNumberOfBlocks (w_rel w))
              (group_tids (sorted_tids tids)) (emit EvRelationOpen w)) as [w1 Hrun].
  { apply group_tids_offsets. rewrite Forall_forall in *.
    intros tid Hin. apply Hoffs. by rewrite <- (sorted_tids_perm tids). }
  { exact Hok. }
  exists w1. split; [exact Hrun|].
  unfold heap_force_common, sanity_check_tid_array, sanity_check_relation.
  assert (Hnull : array_contains_nulls (Some <$> tids) = false).
  { destruct (array_contains_nulls (Some <$> tids)) eqn:E; [|reflexivity].
    apply array_contains_nulls_spec, list_elem_of_fmap in E as (? & ? & _).
    discriminate. }
  rewrite Hnull, length_fmap.
  replace (Z.of_nat (length tids) =? 0) with false
    by (symmetry; apply Z.eqb_neq; destruct tids; [done | simpl; lia]).
  unfold relkind_supported in Hkind. apply negb_true_iff in Hkind.
  simpl. rewrite Hkind. simpl.
  rewrite ARR_DATA_PTR_fmap. fold (sorted_tids tids).
  rewrite <- (sorted_tids_length tids).
  rewrite page_group_loop_run_groups.
  - change (drop (Z.to_nat 0) (sorted_tids tids)) with (sorted_tids tids).
    simpl in Hrun. rewrite Hrun. reflexivity.
  - by rewrite sorted_tids_length.
  - rewrite sorted_tids_length. destruct tids; [done | simpl; lia].
  - rewrite Nat2Z.id. apply length_replicate.
  - rewrite sorted_tids_length. lia.
Qed.

(** A call on a validated batch of at most 65535 tids, against a
    relation whose redirect chains all end, returns when the fuel
    covers the batch and the line pointer arrays. *)
Theorem heap_force_common_returns :
  forall fuel opt tids w,
    tids <> [] ->
    Z.of_nat (length tids) <= 65535 ->
    Forall tid_wf tids ->
    relkind_supported (w_rel w) = true ->
    relation_ok (RelationGetNumberOfBlocks (w_rel w)) fuel (w_rel w) ->
    (length tids <= fuel)%nat ->
    exists w', heap_force_common fuel false true (Some <$> tids) opt w = Ok w'.
Proof.
  intros fuel opt tids w Hne Hsmall Hwf Hkind Hok Hfuel.
  destruct (heap_force_common_runs fuel opt tids w Hne Hsmall Hwf Hkind Hok Hfuel)
    as (w1 & _ & Hcall).
  exists (emit EvRelationClose w1). exact Hcall.
Qed.

(** ** A whole force-freeze call *)

Lemma freeze_header_visibility blkno offno htup :
  frozen_visibility (freeze_header blkno offno htup).
Proof.
  destruct (freeze_header_frozen blkno offno htup). repeat split; assumption.
Qed.

Lemma item_step_freeze_preserved blkno offno off s s' :
  item_step HEAP_FORCE_FREEZE blkno offno s s' ->
  freeze_preserved blkno off (s_page s) (s_page s').
Proof.
  destruct 1 as [n _ | cur itemid Hopt _ _ | cur itemid _ _ _]; simpl.
  - by split.
  - discriminate.
  - split; [reflexivity|]. simpl. intros H.
    destruct (Z.eqb_spec off (lp_off itemid)); [|exact H].
    split; [apply freeze_header_visibility|].
    rewrite freeze_header_ctid. reflexivity.
Qed.

Lemma world_step_freeze_preserved (blkno : BlockNumber) off w w' page :
  world_step HEAP_FORCE_FREEZE w w' ->
  rd_pages (w_rel w) !! N.to_nat blkno = Some page ->
  exists page',
    rd_pages (w_rel w') !! N.to_nat blkno = Some page' /\
    freeze_preserved blkno off page page'.
Proof.
  destruct 1 as [w ev | rel b offno s s' Hvalid Hitem]; simpl.
  - intros H. exists page. split; [assumption | by split].
  - destruct (decide (b = blkno)) as [->|Hne].
    + rewrite list_lookup_insert_eq by assumption. intros [= <-].
      exists (s_page s'). split; [apply list_lookup_insert_eq; assumption|].
      eapply item_step_freeze_preserved; eassumption.
    + assert (N.to_nat b <> N.to_nat blkno) by lia.
      rewrite !list_lookup_insert_ne by assumption.
      intros H'. exists page. split; [assumption | by split].
Qed.

Lemma world_steps_freeze_preserved (blkno : BlockNumber) off w w' :
  rtc (world_step HEAP_FORCE_FREEZE) w w' ->
  forall page,
    rd_pages (w_rel w) !! N.to_nat blkno = Some page ->
    exists page',
      rd_pages (w_rel w') !! N.to_nat blkno = Some page' /\
      freeze_preserved blkno off page page'.
Proof.
  induction 1 as [w|w w1 w2 Hstep _ IH]; intros page Hpage.
  - exists page. split; [assumption | by split].
  - destruct (world_step_freeze_preserved blkno off _ _ _ Hstep Hpage)
      as (page1 & Hpage1 & [Hl1 Hf1]).
    destruct (IH _ Hpage1) as (page2 & Hpage2 & [Hl2 Hf2]).
    exists page2. split; [assumption|]. split; [congruence | auto].
Qed.

(** A force-freeze call that returns leaves the header of every
    targeted tuple that resolves to a normal line pointer frozen: xmin
    and xmax are the sentinels, the HEAP_XACT_MASK bits are exactly
    xmin-frozen and xmax-invalid, hot-updated and keys-updated are
    clear, and the self-pointer is on the tuple's block. *)
Theorem force_freeze_call_freezes :
  forall fuel in_recovery is_owner ta w w' tid page cur itemid,
    heap_force_freeze fuel in_recovery is_owner ta w = Ok w' ->
    Some tid ∈ ta ->
    rd_pages (w_rel w) !! N.to_nat (ip_blkid tid) = Some page ->
    resolves_to page (ip_posid tid) cur ->
    PageGetItemId page cur = Some itemid ->
    ItemIdIsNormal itemid = true ->
    exists page',
      rd_pages (w_rel w') !! N.to_nat (ip_blkid tid) = Some page' /\
      pd_linp page' = pd_linp page /\
      frozen_visibility (PageGetItem page' itemid) /\
      ip_blkid (t_ctid (PageGetItem page' itemid)) = ip_blkid tid.
Proof.
  intros fuel in_recovery is_owner ta w w' tid page cur itemid
    H Hta Hpage [n Hres]%resolves_to_in Hget Hnormal.
  unfold heap_force_freeze in H.
  assert (Hblk : (ip_blkid tid < RelationGetNumberOfBlocks (w_rel w))%N).
  { apply lookup_lt_Some in Hpage. unfold RelationGetNumberOfBlocks. lia. }
  destruct (heap_force_common_covers _ _ _ _ _ _ _ _ H Hta Hblk)
    as (rel1 & s1 & s2 & Hvalid & Hpre & Hitem & Hpost).
  destruct (world_steps_freeze_preserved (ip_blkid tid) (lp_off itemid) _ _ Hpre _ Hpage)
    as (pa & Hpa & [Hlinp_a _]).
  rewrite session_world_page in Hpa by assumption. injection Hpa as <-.
  assert (Hres_a : resolves_in (s_page s1) n (ip_posid tid) cur).
  { eapply linp_preserved_resolves_in; [|exact Hres].
    unfold linp_preserved. rewrite Hlinp_a. reflexivity. }
  assert (Hget_a : PageGetItemId (s_page s1) cur = Some itemid).
  { unfold PageGetItemId in *. rewrite Hlinp_a. exact Hget. }
  pose proof (resolves_in_range _ _ _ _ Hres_a) as Hrange.
  destruct (heap_force_item_Ok_follow _ _ _ _ _ _ _ Hitem Hrange) as (cur' & it' & Hf).
  destruct (follow_redirects_resolved _ _ _ _ _ _ _ Hres_a Hf) as [-> Hget'].
  assert (it' = itemid) by congruence. subst it'.
  assert (H0 : ip_posid tid <> 0) by lia.
  assert (Hmax : ip_posid tid <= PageGetMaxOffsetNumber (s_page s1)) by lia.
  rewrite (heap_force_item_resolved _ HEAP_FORCE_FREEZE (ip_blkid tid) _ _ _ _ _
             H0 Hmax Hf) in Hitem.
  destruct (ItemIdIsNormal_inv _ Hnormal) as (Hused & Hdead & _).
  rewrite Hused, Hdead in Hitem. simpl in Hitem. injection Hitem as <-.
  destruct (world_steps_freeze_preserved (ip_blkid tid) (lp_off itemid) _ _ Hpost
              _ (session_world_page _ _ _ Hvalid)) as (page' & Hpage' & [Hlinp' Hfrozen]).
  exists page'. split; [assumption|]. split; [simpl in Hlinp'; congruence|].
  apply Hfrozen. simpl. rewrite Z.eqb_refl.
  split; [apply freeze_header_visibility|].
  rewrite freeze_header_ctid. reflexivity.
Qed.

(** No call on more than 65535 tids returns. *)
Corollary heap_force_common_large_batch fuel in_recovery is_owner ta opt w w' :
  65535 < Z.of_nat (length ta) ->
  heap_force_common fuel in_recovery is_owner ta opt w <> Ok w'.
Proof.
  intros Hbig H.
  apply heap_force_common_Ok in H as (tids & _ & _ & _ & -> & _ & Hsmall & _).
  rewrite length_fmap in Hbig. lia.
Qed.

(** ** The 16-bit cursor on a batch of 65536 tids *)

Lemma same_block_run_replicate n tid :
  same_block_run (ip_blkid tid) (replicate n tid) = replicate n tid.
Proof.
  induction n as [|n IH]; simpl; [reflexivity|].
  rewrite N.eqb_refl, IH. reflexivity.
Qed.

Lemma tids_same_page_fetch_offnums_replicate n tid offnos :
  length offnos = S n ->
  exists offnos',
    tids_same_page_fetch_offnums (replicate (S n) tid) 0 offnos =
      (ip_blkid tid, uint16 (Z.of_nat (S n)), offnos') /\
    length offnos' = S n.
Proof.
  intros Hlen.
  destruct (tids_same_page_fetch_offnums_run (replicate (S n) tid) 0 offnos tid
              (replicate n tid)) as (offnos' & Hf & Hl & _).
  - lia.
  - reflexivity.
  - rewrite length_replicate. lia.
  - rewrite same_block_run_replicate, length_replicate in Hf.
    exists offnos'. split; [|congruence].
    rewrite Hf. do 3 f_equal. lia.
Qed.

Lemma sorted_tids_replicate n tid :
  sorted_tids (replicate n tid) = replicate n tid.
Proof.
  symmetry. apply replicate_Permutation. symmetry. apply sorted_tids_perm.
Qed.

(** C4 at a batch of 65536 tids that all name tuple (0, 1).  Sorting
    leaves the array as it is.  Whatever [offnos] holds, the fetch at
    cursor 0 returns block 0 and stores 65536 into the 16-bit cursor,
    which makes it 0 again: the next group starts at [tids[0]] once
    more and is on block 0 again, so block numbers do not increase from
    group to group and block 0 is in more than one group.  The grouping
    loop never finishes, and no call on the batch returns. *)
Theorem page_groups_cursor_wraps :
  (forall offnos,
     length offnos = length (sorted_tids Sample.big_batch) ->
     exists offnos',
       tids_same_page_fetch_offnums (sorted_tids Sample.big_batch) 0 offnos =
         (0%N, 0, offnos') /\
       length offnos' = length (sorted_tids Sample.big_batch)) /\
  (forall fuel, page_groups fuel (sorted_tids Sample.big_batch) = Timeout) /\
  (forall fuel in_recovery is_owner opt w w',
     heap_force_common fuel in_recovery is_owner (Some <$> Sample.big_batch) opt w
     <> Ok w').
Proof.
  split; [|split].
  3:{ intros fuel in_recovery is_owner opt w w'.
      apply heap_force_common_large_batch.
      unfold Sample.big_batch. rewrite length_fmap, length_replicate. lia. }
  all: unfold Sample.big_batch; rewrite sorted_tids_replicate;
    replace (Z.to_nat 65536) with (S (Z.to_nat 65535)) by lia.
  - intros offnos Hlen. rewrite length_replicate in *.
    destruct (tids_same_page_fetch_offnums_replicate _ (mkTid 0%N 1) offnos Hlen)
      as (offnos' & Hf & Hl).
    exists offnos'. split; [|assumption]. rewrite Hf.
    replace (Z.of_nat (S (Z.to_nat 65535))) with 65536 by lia. reflexivity.
  - apply page_groups_no_exit. rewrite length_replicate. lia.
Qed.

(** * Further properties of heap_surgery.c *)

(** ** The comparator *)

(** [tidcmp] answers -1, 0 or +1, swaps sign with its arguments, finds
    two tids equal only when they are the same tid, and is transitive:
    it is a comparator [qsort] can sort by. *)
Theorem tidcmp_comparator :
  forall a b c : ItemPointerData,
    (tidcmp a b = -1 \/ tidcmp a b = 0 \/ tidcmp a b = 1) /\
    tidcmp b a = - tidcmp a b /\
    (tidcmp a b = 0 <-> a = b) /\
    (tidcmp a b <= 0 -> tidcmp b c <= 0 -> tidcmp a c <= 0).
Proof.
  intros a b c. split; [|split; [|split]].
  - unfold tidcmp, ItemPointerCompare. repeat case_match; auto.
  - unfold tidcmp, ItemPointerCompare, ItemPointerGetBlockNumberNoCheck,
      ItemPointerGetOffsetNumberNoCheck.
    destruct (N.ltb_spec (ip_blkid a) (ip_blkid b)),
      (N.ltb_spec (ip_blkid b) (ip_blkid a)),
      (Z.ltb_spec (ip_posid a) (ip_posid b)),
      (Z.ltb_spec (ip_posid b) (ip_posid a)); lia.
  - apply ItemPointerCompare_eq.
  - apply tid_le_trans.
Qed.

(** ** Freezing a header twice *)

Lemma header_eq (h1 h2 : HeapTupleHeaderData) :
  t_xmin h1 = t_xmin h2 -> t_xmax h1 = t_xmax h2 -> t_xvac h1 = t_xvac h2 ->
  t_ctid h1 = t_ctid h2 -> t_infomask2 h1 = t_infomask2 h2 ->
  t_infomask h1 = t_infomask h2 -> h1 = h2.
Proof. destruct h1, h2. simpl. intros. congruence. Qed.

Lemma freeze_header_xvac blkno offno htup :
  t_xvac (freeze_header blkno offno htup) =
  if negb (Z.land (t_infomask htup) HEAP_MOVED =? 0) then
    if negb (Z.land (t_infomask htup) HEAP_MOVED_OFF =? 0)
    then InvalidTransactionId else FrozenTransactionId
  else t_xvac htup.
Proof.
  unfold freeze_header.
  destruct (negb (ItemPointerEquals _ _)); simpl;
    destruct (negb (Z.land (t_infomask htup) HEAP_MOVED =? 0)); simpl;
    try destruct (negb (Z.land (t_infomask htup) HEAP_MOVED_OFF =? 0)); reflexivity.
Qed.

Lemma land_submask_cleared (m mask bits sub : Z) :
  Z.land sub mask = sub -> Z.land bits sub = 0 ->
  Z.land (Z.lor (Z.land m (Z.lnot mask)) bits) sub = 0.
Proof.
  intros Hsub Hbits.
  rewrite Z.land_lor_distr_l, Hbits, Z.lor_0_r.
  rewrite <- Hsub, (Z.land_comm sub mask), Z.land_assoc, land_cleared.
  reflexivity.
Qed.

Lemma freeze_header_no_moved blkno offno htup :
  Z.land (t_infomask (freeze_header blkno offno htup)) HEAP_MOVED = 0.
Proof. rewrite freeze_header_infomask. apply land_submask_cleared; reflexivity. Qed.

(** The legacy MOVED bits (lines 258-265): a header marked MOVED_OFF
    gets xvac = InvalidTransactionId, one marked MOVED_IN only gets
    xvac = FrozenTransactionId, any other keeps its xvac; either way
    the frozen header carries no MOVED bit. *)
Theorem freeze_header_moved :
  forall blkno offno htup,
    (Z.land (t_infomask htup) HEAP_MOVED_OFF <> 0 ->
     t_xvac (freeze_header blkno offno htup) = InvalidTransactionId) /\
    (Z.land (t_infomask htup) HEAP_MOVED_OFF = 0 ->
     Z.land (t_infomask htup) HEAP_MOVED_IN <> 0 ->
     t_xvac (freeze_header blkno offno htup) = FrozenTransactionId) /\
    (Z.land (t_infomask htup) HEAP_MOVED = 0 ->
     t_xvac (freeze_header blkno offno htup) = t_xvac htup) /\
    Z.land (t_infomask (freeze_header blkno offno htup)) HEAP_MOVED = 0.
Proof.
  intros blkno offno htup.
  assert (Hsplit : Z.land (t_infomask htup) HEAP_MOVED =
                   Z.lor (Z.land (t_infomask htup) HEAP_MOVED_OFF)
                         (Z.land (t_infomask htup) HEAP_MOVED_IN)).
  { unfold HEAP_MOVED. apply Z.land_lor_distr_r. }
  rewrite freeze_header_xvac.
  split; [|split; [|split]].
  - intros Hoff.
    assert (Z.land (t_infomask htup) HEAP_MOVED <> 0).
    { rewrite Hsplit. intros H%Z.lor_eq_0_iff. tauto. }
    destruct (Z.eqb_spec (Z.land (t_infomask htup) HEAP_MOVED) 0); [tauto|].
    destruct (Z.eqb_spec (Z.land (t_infomask htup) HEAP_MOVED_OFF) 0); [tauto|].
    reflexivity.
  - intros Hoff Hin.
    assert (Z.land (t_infomask htup) HEAP_MOVED <> 0).
    { rewrite Hsplit. intros H%Z.lor_eq_0_iff. tauto. }
    destruct (Z.eqb_spec (Z.land (t_infomask htup) HEAP_MOVED) 0); [tauto|].
    destruct (Z.eqb_spec (Z.land (t_infomask htup) HEAP_MOVED_OFF) 0); [|tauto].
    reflexivity.
  - intros ->. reflexivity.
  - apply freeze_header_no_moved.
Qed.

Lemma freeze_header_moved_witness :
  t_xvac (freeze_header 0 1 (set_t_infomask HEAP_MOVED_OFF (Sample.hdr 100))) =
  InvalidTransactionId.
Proof.
  apply (proj1 (freeze_header_moved 0 1 (set_t_infomask HEAP_MOVED_OFF (Sample.hdr 100)))).
  vm_compute. lia.
Defined.

(** Equations between [Z.land]/[Z.lor] combinations, bit by bit. *)
Ltac bitwise :=
  apply Z.bits_inj'; intros ? ?;
  rewrite ?Z.land_spec, ?Z.lor_spec;
  repeat match goal with
         | |- context [Z.testbit ?a ?n] => destruct (Z.testbit a n)
         end;
  reflexivity.

Lemma freeze_header_absorbs blkno1 offno1 blkno2 offno2 htup :
  freeze_header blkno2 offno2 (freeze_header blkno1 offno1 htup) =
  freeze_header blkno2 offno2 htup.
Proof.
  pose proof (freeze_header_no_moved blkno1 offno1 htup) as Hmoved.
  apply header_eq.
  - rewrite !freeze_header_xmin. reflexivity.
  - rewrite !freeze_header_xmax. reflexivity.
  - rewrite (freeze_header_xvac blkno2 offno2 (freeze_header _ _ _)), Hmoved.
    change (negb (0 =? 0)) with false. cbv iota.
    rewrite !freeze_header_xvac. reflexivity.
  - rewrite !freeze_header_ctid. reflexivity.
  - rewrite !freeze_header_infomask2.
    generalize (t_infomask2 htup), (Z.lnot HEAP_HOT_UPDATED),
      (Z.lnot HEAP_KEYS_UPDATED). intros x h k. bitwise.
  - rewrite !freeze_header_infomask.
    rewrite land_clear_keep by reflexivity. reflexivity.
Qed.

(** Freezing an already frozen header changes nothing but the
    self-pointer: the later of two freezes decides the header, and a
    repeated freeze of the same tid is the identity. *)
Theorem freeze_header_twice :
  forall blkno1 offno1 blkno2 offno2 htup,
    freeze_header blkno2 offno2 (freeze_header blkno1 offno1 htup) =
      freeze_header blkno2 offno2 htup /\
    freeze_header blkno1 offno1 (freeze_header blkno1 offno1 htup) =
      freeze_header blkno1 offno1 htup.
Proof. intros. split; apply freeze_header_absorbs. Qed.

(** ** Errors *)

(** Which error is raised: recovery comes first, then a null in the
    array, then the empty array, all before the relation is opened;
    then the relation kind, and only then ownership. *)
Theorem heap_force_common_error_precedence :
  forall fuel in_recovery is_owner ta opt w,
    (in_recovery = true ->
     heap_force_common fuel in_recovery is_owner ta opt w =
       Error RecoveryInProgress w) /\
    (in_recovery = false -> None ∈ ta ->
     heap_force_common fuel in_recovery is_owner ta opt w =
       Error NullValueNotAllowed w) /\
    (in_recovery = false -> ta = [] ->
     heap_force_common fuel in_recovery is_owner ta opt w =
       Error EmptyTidArray w) /\
    (in_recovery = false -> None ∉ ta -> ta <> [] ->
     relkind_supported (w_rel w) = false ->
     heap_force_common fuel in_recovery is_owner ta opt w =
       Error WrongObjectType (emit EvRelationOpen w)) /\
    (in_recovery = false -> None ∉ ta -> ta <> [] ->
     relkind_supported (w_rel w) = true -> is_owner = false ->
     heap_force_common fuel in_recovery is_owner ta opt w =
       Error NotOwner (emit EvRelationOpen w)).
Proof.
  intros fuel in_recovery is_owner ta opt w.
  assert (Hnonull : None ∉ ta -> array_contains_nulls ta = false).
  { intros H. destruct (array_contains_nulls ta) eqn:E; [|reflexivity].
    by apply array_contains_nulls_spec in E. }
  assert (Hnonempty : ta <> [] -> (Z.of_nat (length ta) =? 0) = false).
  { intros H. apply Z.eqb_neq. destruct ta; [done | simpl; lia]. }
  unfold heap_force_common, sanity_check_tid_array, sanity_check_relation,
    relkind_supported.
  repeat split.
  - intros ->. reflexivity.
  - intros -> Hnull%array_contains_nulls_spec. rewrite Hnull. reflexivity.
  - intros -> ->. reflexivity.
  - intros -> Hn He Hkind%negb_false_iff.
    rewrite (Hnonull Hn), (Hnonempty He). simpl. rewrite Hkind. reflexivity.
  - intros -> Hn He Hkind%negb_true_iff ->.
    rewrite (Hnonull Hn), (Hnonempty He). simpl. rewrite Hkind. reflexivity.
Qed.

Lemma heap_force_common_error_precedence_witness :
  heap_force_common 3 false false [Some (mkTid 0 1)] HEAP_FORCE_FREEZE
    Sample.index_world =
  Error WrongObjectType (emit EvRelationOpen Sample.index_world).
Proof.
  apply (heap_force_common_error_precedence 3 false false [Some (mkTid 0 1)]
           HEAP_FORCE_FREEZE Sample.index_world).
  - reflexivity.
  - intros H. apply list_elem_of_singleton in H. discriminate.
  - discriminate.
  - reflexivity.
Defined.

(** ** The order of the batch *)

Lemma array_contains_nulls_perm (ta ta' : ArrayType) :
  ta ≡ₚ ta' -> array_contains_nulls ta = array_contains_nulls ta'.
Proof.
  intros Hp.
  destruct (array_contains_nulls ta) eqn:E, (array_contains_nulls ta') eqn:E';
    try reflexivity.
  - apply array_contains_nulls_spec in E. rewrite Hp in E.
    apply array_contains_nulls_spec in E. congruence.
  - apply array_contains_nulls_spec in E'. rewrite <- Hp in E'.
    apply array_contains_nulls_spec in E'. congruence.
Qed.

Lemma sorted_array_perm (ta ta' : ArrayType) :
  ta ≡ₚ ta' ->
  (if 1 <? Z.of_nat (length ta) then qsort tidcmp (ARR_DATA_PTR ta)
   else ARR_DATA_PTR ta) =
  (if 1 <? Z.of_nat (length ta') then qsort tidcmp (ARR_DATA_PTR ta')
   else ARR_DATA_PTR ta').
Proof.
  intros Hp. rewrite <- (Permutation_length Hp).
  destruct (Z.ltb_spec 1 (Z.of_nat (length ta))) as [Hlong|Hshort].
  - apply qsort_tidcmp_unique; [apply qsort_tidcmp_sorted|].
    rewrite qsort_tidcmp_perm. unfold ARR_DATA_PTR. by rewrite Hp.
  - destruct ta as [|x [|y ta]]; simpl in Hshort; try lia.
    + apply Permutation_nil_l in Hp as <-. reflexivity.
    + apply Permutation_singleton_l in Hp as <-. reflexivity.
Qed.

(** The order in which the caller lists the row identifiers does not
    matter: two arrays with the same elements give the same outcome,
    trace included. *)
Theorem heap_force_common_batch_order :
  forall fuel in_recovery is_owner ta ta' opt w,
    ta ≡ₚ ta' ->
    heap_force_common fuel in_recovery is_owner ta opt w =
    heap_force_common fuel in_recovery is_owner ta' opt w.
Proof.
  intros fuel in_recovery is_owner ta ta' opt w Hp.
  unfold heap_force_common, sanity_check_tid_array.
  rewrite (array_contains_nulls_perm _ _ Hp), (Permutation_length Hp).
  destruct in_recovery; [reflexivity|].
  destruct (array_contains_nulls ta'); [reflexivity|].
  destruct (Z.of_nat (length ta') =? 0); [reflexivity|].
  simpl. destruct (sanity_check_relation is_owner (w_rel w) (emit EvRelationOpen w));
    simpl; try reflexivity.
  rewrite <- (Permutation_length Hp) at 1.
  rewrite (sorted_array_perm _ _ Hp). reflexivity.
Qed.

Lemma heap_force_common_batch_order_witness :
  heap_force_common 5 false true [Some (mkTid 0 3); Some (mkTid 0 1)]
    HEAP_FORCE_KILL Sample.world =
  heap_force_common 5 false true [Some (mkTid 0 1); Some (mkTid 0 3)]
    HEAP_FORCE_KILL Sample.world.
Proof.
  apply (heap_force_common_batch_order 5 false true
           [Some (mkTid 0 3); Some (mkTid 0 1)] [Some (mkTid 0 1); Some (mkTid 0 3)]).
  apply perm_swap.
Defined.

(** ** Skipped row identifiers *)

Lemma notice_in_call_trace opt w w' blkno s1 rel1 n :
  rtc (world_step opt) w (session_world blkno s1 rel1) ->
  rtc (world_step opt) (session_world blkno (ereport_notice n s1) rel1) w' ->
  exists evs, w_log w' = w_log w ++ evs /\ EvNotice n ∈ evs.
Proof.
  intros [evs1 H1]%world_steps_log [evs3 H3]%world_steps_log. simpl in *.
  exists (evs1 ++ [EvNotice n] ++ evs3). split.
  - rewrite H3, H1, <- !app_assoc. reflexivity.
  - rewrite !elem_of_app. right. left. apply list_elem_of_here.
Qed.

(** Lines 183-189.  In a call of either operation that returns, every
    row identifier of the batch on a block of the relation whose offset
    is zero or beyond the page's line pointers gets the
    OffsetOutOfRange notice. *)
Theorem offset_out_of_range_skipped :
  forall fuel in_recovery is_owner ta opt w w' tid page,
    heap_force_common fuel in_recovery is_owner ta opt w = Ok w' ->
    Some tid ∈ ta ->
    rd_pages (w_rel w) !! N.to_nat (ip_blkid tid) = Some page ->
    ip_posid tid = 0 \/ PageGetMaxOffsetNumber page < ip_posid tid ->
    exists evs,
      w_log w' = w_log w ++ evs /\
      EvNotice (OffsetOutOfRange (ip_blkid tid) (ip_posid tid)) ∈ evs.
Proof.
  intros fuel in_recovery is_owner ta opt w w' tid page H Hta Hpage Hoff.
  assert (Hblk : (ip_blkid tid < RelationGetNumberOfBlocks (w_rel w))%N).
  { apply lookup_lt_Some in Hpage. unfold RelationGetNumberOfBlocks. lia. }
  destruct (heap_force_common_covers _ _ _ _ _ _ _ _ H Hta Hblk)
    as (rel1 & s1 & s2 & Hvalid & Hpre & Hitem & Hpost).
  pose proof (world_steps_preserved _ _ _ Hpre) as Hpres.
  destruct (pages_preserved_page _ _ _ _ Hpres Hpage) as (p1 & Hp1 & Hlinp).
  rewrite session_world_page in Hp1 by assumption. injection Hp1 as <-.
  apply linp_preserved_length in Hlinp.
  unfold heap_force_item, PageGetMaxOffsetNumber in *. rewrite Hlinp in Hitem.
  replace ((ip_posid tid =? 0) || (Z.of_nat (length (pd_linp page)) <? ip_posid tid))
    with true in Hitem.
  2:{ symmetry. apply orb_true_iff. destruct Hoff as [->|Hoff]; [by left|].
      right. apply Z.ltb_lt. exact Hoff. }
  injection Hitem as <-.
  eapply notice_in_call_trace; eassumption.
Qed.

Lemma offset_out_of_range_skipped_witness :
  exists evs,
    w_log (Sample.returned
             (heap_force_freeze 5 false true [Some (mkTid 0 9)] Sample.world)) =
      w_log Sample.world ++ evs /\
    EvNotice (OffsetOutOfRange 0 9) ∈ evs.
Proof.
  apply (offset_out_of_range_skipped 5 false true [Some (mkTid 0 9)]
           HEAP_FORCE_FREEZE Sample.world _ (mkTid 0 9) Sample.page).
  - reflexivity.
  - apply list_elem_of_here.
  - reflexivity.
  - right. reflexivity.
Defined.

Lemma heap_force_item_unused fuel opt blkno offno s s' n cur itemid :
  heap_force_item fuel opt blkno (PageGetMaxOffsetNumber (s_page s)) offno s = Ok s' ->
  resolves_in (s_page s) n offno cur ->
  PageGetItemId (s_page s) cur = Some itemid ->
  ItemIdIsUsed itemid = false ->
  s' = ereport_notice (AlreadyUnused blkno offno) s.
Proof.
  intros H Hres Hget Hunused.
  pose proof (resolves_in_range _ _ _ _ Hres) as Hrange.
  destruct (heap_force_item_Ok_follow _ _ _ _ _ _ _ H Hrange) as (cur' & it' & Hf).
  destruct (follow_redirects_resolved _ _ _ _ _ _ _ Hres Hf) as [-> Hget'].
  assert (it' = itemid) by congruence. subst it'.
  assert (H0 : offno <> 0) by lia.
  assert (Hmax : offno <= PageGetMaxOffsetNumber (s_page s)) by lia.
  rewrite (heap_force_item_resolved _ opt blkno _ _ _ _ _ H0 Hmax Hf) in H.
  rewrite Hunused in H. simpl in H. congruence.
Qed.

(** Lines 201-207.  In a call of either operation that returns, every
    row identifier of the batch whose redirections end at an unused
    line pointer gets the AlreadyUnused notice. *)
Theorem already_unused_skipped :
  forall fuel in_recovery is_owner ta opt w w' tid page cur itemid,
    heap_force_common fuel in_recovery is_owner ta opt w = Ok w' ->
    Some tid ∈ ta ->
    rd_pages (w_rel w) !! N.to_nat (ip_blkid tid) = Some page ->
    resolves_to page (ip_posid tid) cur ->
    PageGetItemId page cur = Some itemid ->
    ItemIdIsUsed itemid = false ->
    exists evs,
      w_log w' = w_log w ++ evs /\
      EvNotice (AlreadyUnused (ip_blkid tid) (ip_posid tid)) ∈ evs.
Proof.
  intros fuel in_recovery is_owner ta opt w w' tid page cur itemid
    H Hta Hpage [n Hres]%resolves_to_in Hget Hunused.
  assert (Hblk : (ip_blkid tid < RelationGetNumberOfBlocks (w_rel w))%N).
  { apply lookup_lt_Some in Hpage. unfold RelationGetNumberOfBlocks. lia. }
  destruct (heap_force_common_covers _ _ _ _ _ _ _ _ H Hta Hblk)
    as (rel1 & s1 & s2 & Hvalid & Hpre & Hitem & Hpost).
  pose proof (world_steps_preserved _ _ _ Hpre) as Hpres.
  destruct (pages_preserved_page _ _ _ _ Hpres Hpage) as (p1 & Hp1 & Hlinp).
  rewrite session_world_page in Hp1 by assumption. injection Hp1 as <-.
  destruct (linp_preserved_item _ _ _ _ Hlinp Hget) as (it1 & Hget1 & Hslot).
  assert (it1 = itemid) as ->.
  { destruct Hslot as [->|[Hn _]]; [reflexivity|].
    unfold ItemIdIsNormal, ItemIdIsUsed in *. destruct (lp_flags itemid); discriminate. }
  pose proof (linp_preserved_resolves_in _ _ _ _ _ Hlinp Hres) as Hres1.
  rewrite (heap_force_item_unused _ _ _ _ _ _ _ _ _ Hitem Hres1 Hget1 Hunused) in Hpost.
  eapply notice_in_call_trace; eassumption.
Qed.

Lemma already_unused_skipped_witness :
  exists evs,
    w_log (Sample.returned
             (heap_force_kill 5 false true [Some (mkTid 0 5)] Sample.world)) =
      w_log Sample.world ++ evs /\
    EvNotice (AlreadyUnused 0 5) ∈ evs.
Proof.
  apply (already_unused_skipped 5 false true [Some (mkTid 0 5)]
           HEAP_FORCE_KILL Sample.world _ (mkTid 0 5) Sample.page 5
           (mkItemId 0 LP_UNUSED 0)).
  - reflexivity.
  - apply list_elem_of_here.
  - reflexivity.
  - eapply resolves_here; reflexivity.
  - reflexivity.
  - reflexivity.
Defined.

(** ** What a force-kill may write *)

Lemma land_lnot_idem (a m : Z) :
  Z.land (Z.land a (Z.lnot m)) (Z.lnot m) = Z.land a (Z.lnot m).
Proof. rewrite <- Z.land_assoc, Z.land_diag. reflexivity. Qed.

Lemma land_lnot_absent (a m : Z) : Z.land a m = 0 -> Z.land a (Z.lnot m) = a.
Proof.
  intros H. rewrite <- (Z.land_m1_r a) at 2.
  rewrite <- (Z.lor_lnot_diag m), Z.land_lor_distr_r, H, Z.lor_0_l.
  reflexivity.
Qed.

Lemma not_all_visible_flags page :
  PageIsAllVisible page = false ->
  pd_flags page = Z.land (pd_flags page) (Z.lnot PD_ALL_VISIBLE).
Proof.
  unfold PageIsAllVisible. intros H%negb_false_iff%Z.eqb_eq.
  symmetry. apply land_lnot_absent. exact H.
Qed.

#[global] Instance killed_slot_refl : Reflexive killed_slot.
Proof. intros it. by left. Qed.

#[global] Instance killed_slot_trans : Transitive killed_slot.
Proof.
  intros it0 it1 it2 [->|[Hn0 ->]] [->|[Hn1 ->]].
  - by left.
  - right. auto.
  - right. auto.
  - discriminate.
Qed.

#[global] Instance kill_frame_page_refl : Reflexive kill_frame_page.
Proof. intros p. split; [reflexivity|]. split; [reflexivity | by left]. Qed.

#[global] Instance kill_frame_page_trans : Transitive kill_frame_page.
Proof.
  intros p0 p1 p2 (Hl1 & Ht1 & Hf1) (Hl2 & Ht2 & Hf2).
  split; [etransitivity; eassumption|]. split; [congruence|].
  destruct Hf2 as [->|Hf2]; [assumption|].
  right. destruct Hf1 as [->|Hf1]; [assumption|].
  rewrite Hf2, Hf1. apply land_lnot_idem.
Qed.

#[global] Instance kill_frame_refl : Reflexive kill_frame.
Proof. intros rel. split; [reflexivity | by left]. Qed.

#[global] Instance kill_frame_trans : Transitive kill_frame.
Proof.
  intros r0 r1 r2 [Hp1 Hv1] [Hp2 Hv2].
  split; [etransitivity; eassumption|].
  intros blkno. destruct (Hv2 blkno) as [-> | ->]; [apply Hv1|].
  right. destruct (Hv1 blkno) as [-> | ->]; [reflexivity|].
  destruct (rd_vm r0 !! blkno); simpl; [|reflexivity].
  f_equal. apply land_lnot_idem.
Qed.

Lemma item_step_kill_frame blkno offno s s' :
  item_step HEAP_FORCE_KILL blkno offno s s' ->
  kill_frame_page (s_page s) (s_page s') /\
  (s_vm s' = s_vm s \/
   s_vm s' = visibilitymap_clear blkno VISIBILITYMAP_ALL_VISIBLE (s_vm s)).
Proof.
  destruct 1 as [n _ | cur itemid _ Hget Hnormal | cur itemid Hopt _ _]; simpl.
  - split; [reflexivity | by left].
  - apply PageGetItemId_lookup in Hget.
    assert (Hl : Forall2 killed_slot (pd_linp (s_page s))
                   (<[Z.to_nat (cur - 1) := ItemIdSetDead itemid]> (pd_linp (s_page s)))).
    { rewrite <- (list_insert_id _ _ _ Hget) at 1.
      apply Forall2_insert; [reflexivity|]. right. auto. }
    unfold force_kill_item.
    destruct (PageIsAllVisible (set_item cur (ItemIdSetDead itemid) (s_page s)))
      eqn:Hav; simpl.
    + split; [|by right]. split; [exact Hl|]. split; [reflexivity | by right].
    + split; [|by left]. split; [exact Hl|]. split; [reflexivity|].
      right. apply (not_all_visible_flags _ Hav).
  - discriminate.
Qed.

Lemma world_step_kill_frame w w' :
  world_step HEAP_FORCE_KILL w w' -> kill_frame (w_rel w) (w_rel w').
Proof.
  destruct 1 as [w ev | rel blkno offno s s' _ Hitem]; [reflexivity|].
  destruct (item_step_kill_frame _ _ _ _ Hitem) as [Hpage Hvm].
  split; simpl.
  - apply Forall2_insert; [reflexivity | exact Hpage].
  - intros b. destruct Hvm as [-> | ->]; [by left|].
    unfold visibilitymap_clear. destruct (decide (blkno = b)) as [->|Hne].
    + right. apply lookup_alter_eq.
    + left. apply lookup_alter_ne. assumption.
Qed.

(** Lines 219-236.  All that a force-kill call that returns has
    written: a line pointer that changed was normal and is now dead
    with no storage (offset and length zero); no tuple header is
    written; a page's flags change only by losing PD_ALL_VISIBLE; the
    visibility map bits of a block change only by losing the
    all-visible bit. *)
Theorem force_kill_frame :
  forall fuel in_recovery is_owner ta w w',
    heap_force_kill fuel in_recovery is_owner ta w = Ok w' ->
    kill_frame (w_rel w) (w_rel w').
Proof.
  intros fuel in_recovery is_owner ta w w' H.
  apply heap_force_common_steps in H.
  induction H as [w|w w1 w2 Hstep _ IH]; [reflexivity|].
  etransitivity; [apply world_step_kill_frame; exact Hstep | exact IH].
Qed.

Lemma force_kill_frame_witness :
  kill_frame (w_rel Sample.world) (w_rel Sample.killed_world).
Proof.
  apply (force_kill_frame 5 false true [Some (mkTid 0%N 2)] Sample.world).
  reflexivity.
Defined.

(** ** What a force-freeze may write *)

Lemma freeze_frame_page_refl blkno page : freeze_frame_page blkno page page.
Proof. split; [reflexivity|]. split; [reflexivity|]. intros off. by left. Qed.

Lemma freeze_frame_page_trans blkno p0 p1 p2 :
  freeze_frame_page blkno p0 p1 -> freeze_frame_page blkno p1 p2 ->
  freeze_frame_page blkno p0 p2.
Proof.
  intros (Hl1 & Hf1 & Ht1) (Hl2 & Hf2 & Ht2).
  split; [congruence|]. split; [congruence|]. intros off.
  destruct (Ht2 off) as [->|(o2 & it2 & Hin2 & Hn2 & Ho2 & ->)]; [apply Ht1|].
  right. exists o2, it2. rewrite Hl1 in Hin2. repeat split; try assumption.
  destruct (Ht1 off) as [->|(o1 & it1 & _ & _ & _ & ->)]; [reflexivity|].
  apply freeze_header_absorbs.
Qed.

Lemma freeze_frame_refl rel : freeze_frame rel rel.
Proof.
  split; [reflexivity|]. split; [reflexivity|]. intros blkno page Hpage.
  exists page. split; [assumption | apply freeze_frame_page_refl].
Qed.

Lemma freeze_frame_trans r0 r1 r2 :
  freeze_frame r0 r1 -> freeze_frame r1 r2 -> freeze_frame r0 r2.
Proof.
  intros (Hv1 & Hn1 & Hp1) (Hv2 & Hn2 & Hp2).
  split; [congruence|]. split; [congruence|]. intros blkno p0 H0.
  destruct (Hp1 _ _ H0) as (p1 & H1 & Hf1).
  destruct (Hp2 _ _ H1) as (p2 & H2 & Hf2).
  exists p2. split; [assumption|]. eapply freeze_frame_page_trans; eassumption.
Qed.

Lemma item_step_freeze_frame blkno offno s s' :
  item_step HEAP_FORCE_FREEZE blkno offno s s' ->
  freeze_frame_page blkno (s_page s) (s_page s') /\ s_vm s' = s_vm s.
Proof.
  destruct 1 as [n _ | cur itemid Hopt _ _ | cur itemid _ Hget Hnormal]; simpl.
  - split; [apply freeze_frame_page_refl | reflexivity].
  - discriminate.
  - split; [|reflexivity]. split; [reflexivity|]. split; [reflexivity|].
    intros off. simpl. destruct (Z.eqb_spec off (lp_off itemid)) as [->|Hne].
    + right. exists offno, itemid. repeat split; try assumption.
      apply PageGetItemId_lookup in Hget. eapply list_elem_of_lookup_2. exact Hget.
    + by left.
Qed.

Lemma world_step_freeze_frame w w' :
  world_step HEAP_FORCE_FREEZE w w' -> freeze_frame (w_rel w) (w_rel w').
Proof.
  destruct 1 as [w ev | rel blkno offno s s' Hvalid Hitem]; [apply freeze_frame_refl|].
  destruct (item_step_freeze_frame _ _ _ _ Hitem) as [Hpage Hvm].
  split; [exact Hvm|]. simpl. split; [by rewrite !length_insert|].
  intros b p0. destruct (decide (blkno = b)) as [->|Hne].
  - rewrite list_lookup_insert_eq by assumption. intros [= <-].
    exists (s_page s'). split; [apply list_lookup_insert_eq; assumption | exact Hpage].
  - assert (N.to_nat blkno <> N.to_nat b) by lia.
    rewrite !list_lookup_insert_ne by assumption.
    intros Hp. exists p0. split; [assumption | apply freeze_frame_page_refl].
Qed.

(** Lines 237-276.  All that a force-freeze call that returns has
    written: no line pointer, no page flag, no visibility map bit; a
    tuple header that changed is the header of a normal line pointer
    of its page, and is exactly one [freeze_header] of what it was
    before the call, however many tids of the batch reached it. *)
Theorem force_freeze_frame :
  forall fuel in_recovery is_owner ta w w',
    heap_force_freeze fuel in_recovery is_owner ta w = Ok w' ->
    freeze_frame (w_rel w) (w_rel w').
Proof.
  intros fuel in_recovery is_owner ta w w' H.
  apply heap_force_common_steps in H.
  induction H as [w|w w1 w2 Hstep _ IH]; [apply freeze_frame_refl|].
  eapply freeze_frame_trans; [apply world_step_freeze_frame; exact Hstep | exact IH].
Qed.

Lemma force_freeze_frame_witness :
  freeze_frame (w_rel Sample.world) (w_rel Sample.frozen_world).
Proof.
  apply (force_freeze_frame 5 false true [Some (mkTid 0%N 2)] Sample.world).
  reflexivity.
Defined.

(** ** One pass over a page *)

Lemma emit_if_opt_ev b ev log : emit_if b ev log = log ++ opt_ev b ev.
Proof. destruct b; simpl; [reflexivity | by rewrite app_nil_r]. Qed.

Lemma session_extends_refl opt blkno offnos s : session_extends opt blkno offnos s s [].
Proof.
  split; auto.
  - by rewrite app_nil_r.
  - intros H. inversion H.
Qed.

Lemma session_extends_trans opt blkno offnos s s1 s2 evs1 evs2 :
  session_extends opt blkno offnos s s1 evs1 ->
  session_extends opt blkno offnos s1 s2 evs2 ->
  session_extends opt blkno offnos s s2 (evs1 ++ evs2).
Proof.
  intros H1 H2. split.
  - rewrite (se_log _ _ _ _ _ _ H2), (se_log _ _ _ _ _ _ H1), app_assoc. reflexivity.
  - apply Forall_app. split; [apply H1 | apply H2].
  - intros Hf. rewrite (se_page_kept _ _ _ _ _ _ H2 Hf).
    apply (se_page_kept _ _ _ _ _ _ H1).
    destruct (did_modify_page s1) eqn:E; [|reflexivity].
    rewrite (se_page_flag _ _ _ _ _ _ H2 E) in Hf. discriminate.
  - intros Hf. apply (se_page_flag _ _ _ _ _ _ H2), (se_page_flag _ _ _ _ _ _ H1), Hf.
  - intros Hf. rewrite (se_vm_kept _ _ _ _ _ _ H2 Hf).
    apply (se_vm_kept _ _ _ _ _ _ H1).
    destruct (did_modify_vm s1) eqn:E; [|reflexivity].
    rewrite (se_vm_flag _ _ _ _ _ _ H2 E) in Hf. discriminate.
  - intros Hf. apply (se_vm_flag _ _ _ _ _ _ H2), (se_vm_flag _ _ _ _ _ _ H1), Hf.
  - intros Hf. rewrite elem_of_app.
    destruct (se_vm_cleared _ _ _ _ _ _ H2 Hf) as [Hf1|Hin]; [|auto].
    destruct (se_vm_cleared _ _ _ _ _ _ H1 Hf1); auto.
  - intros [Hin|Hin]%elem_of_app.
    + destruct (se_clear _ _ _ _ _ _ H1 Hin) as (Hav & Hopt & Hp & Hv).
      repeat split; try assumption.
      * apply (se_page_flag _ _ _ _ _ _ H2 Hp).
      * apply (se_vm_flag _ _ _ _ _ _ H2 Hv).
    + destruct (se_clear _ _ _ _ _ _ H2 Hin) as (Hav & Hopt & Hp & Hv).
      repeat split; try assumption.
      apply (se_all_visible _ _ _ _ _ _ H1 Hav).
  - intros Hav. apply (se_all_visible _ _ _ _ _ _ H1), (se_all_visible _ _ _ _ _ _ H2), Hav.
  - intros b Hb. rewrite (se_vm_frame _ _ _ _ _ _ H2 b Hb).
    apply (se_vm_frame _ _ _ _ _ _ H1 b Hb).
Qed.

Ltac absent_event :=
  let H := fresh in
  intros H; repeat (apply elem_of_cons in H as [H|H]; [discriminate|]); inversion H.

Lemma item_step_extends opt blkno offnos offno s s' :
  offno ∈ offnos ->
  item_step opt blkno offno s s' ->
  exists evs, session_extends opt blkno offnos s s' evs.
Proof.
  intros Hin [n Hn | cur itemid Hopt Hget Hnormal | cur itemid Hopt Hget Hnormal].
  - exists [EvNotice n]. split; simpl; auto; try absent_event.
    constructor; [|constructor]. left. eauto.
  - unfold force_kill_item.
    destruct (PageIsAllVisible (set_item cur (ItemIdSetDead itemid) (s_page s)))
      eqn:Hav.
    + exists [EvVmClear blkno]. split; simpl; auto; try discriminate.
      * constructor; [|constructor]. by right.
      * intros _. right. apply list_elem_of_here.
      * intros b Hb. unfold visibilitymap_clear. apply lookup_alter_ne. auto.
    + exists []. split; simpl; auto; try discriminate; try absent_event.
      * by rewrite app_nil_r.
  - exists []. split; simpl; auto; try discriminate; try absent_event.
    + by rewrite app_nil_r.
Qed.

Lemma heap_force_items_extends fuel opt blkno maxoffset all offnos : forall s s',
  offnos ⊆ all ->
  heap_force_items fuel opt blkno maxoffset offnos s = Ok s' ->
  exists evs, session_extends opt blkno all s s' evs.
Proof.
  induction offnos as [|offno rest IH]; intros s s' Hsub; simpl.
  - intros [= <-]. exists []. apply session_extends_refl.
  - destruct (heap_force_item fuel opt blkno maxoffset offno s) as [s1| | |] eqn:H1;
      simpl; try discriminate.
    intros H. apply heap_force_item_step in H1.
    destruct (item_step_extends opt blkno all offno s s1) as [evs1 He1];
      [apply Hsub; apply list_elem_of_here | assumption |].
    destruct (IH s1 s') as [evs2 He2]; [|assumption|].
    { intros o Ho. apply Hsub. by right. }
    exists (evs1 ++ evs2). eapply session_extends_trans; eassumption.
Qed.

(** A pass over a block of the relation, from the lock to the
    release. *)
Lemma heap_force_page_session fuel opt nblocks blkno offnos w w' :
  (blkno < nblocks)%N ->
  heap_force_page fuel opt nblocks blkno offnos w = Ok w' ->
  exists page s ievs,
    rd_pages (w_rel w) !! N.to_nat blkno = Some page /\
    session_extends opt blkno offnos (session_start opt blkno page w) s ievs /\
    w' = session_finish opt blkno page s w.
Proof.
  intros Hlt H.
  destruct (heap_force_page_in_range _ _ _ _ _ _ _ Hlt H)
    as (page & s & Hpage & Hitems & ->).
  destruct (heap_force_items_extends _ _ _ _ offnos _ _ _ (reflexivity _) Hitems)
    as [ievs He].
  exists page, s, ievs. auto.
Qed.

Lemma session_log opt blkno offnos page s ievs w :
  session_extends opt blkno offnos (session_start opt blkno page w) s ievs ->
  w_log (session_finish opt blkno page s w) =
  w_log w ++
    ([EvReadBuffer blkno] ++ opt_ev (pin_vm opt page) (EvVmPin blkno) ++ ievs ++
     opt_ev (did_modify_page s) (EvMarkBufferDirty blkno) ++
     opt_ev (did_modify_page s && rd_needs_wal (w_rel w)) (EvLogNewPage blkno) ++
     opt_ev (did_modify_vm s && rd_needs_wal (w_rel w)) (EvLogNewVmPage blkno) ++
     [EvUnlockReleaseBuffer blkno] ++
     opt_ev (pin_vm opt page) (EvReleaseVmBuffer blkno)).
Proof.
  intros He. unfold session_finish. simpl.
  rewrite !emit_if_opt_ev, (se_log _ _ _ _ _ _ He). simpl.
  rewrite emit_if_opt_ev, <- !app_assoc. reflexivity.
Qed.

(** ** Blocks the batch does not name, and pages that changed *)

Ltac in_trace :=
  simpl; repeat (rewrite elem_of_cons || rewrite elem_of_app); intuition auto.

Lemma page_written_trans blkno r0 r1 r2 evs1 evs2 :
  rd_needs_wal r1 = rd_needs_wal r0 ->
  page_written blkno r0 r1 evs1 -> page_written blkno r1 r2 evs2 ->
  page_written blkno r0 r2 (evs1 ++ evs2).
Proof.
  intros Hwal [H1|[H1 H1']] [H2|[H2 H2']].
  - left. congruence.
  - right. rewrite <- Hwal. rewrite !elem_of_app. auto.
  - right. rewrite !elem_of_app. auto.
  - right. rewrite !elem_of_app. auto.
Qed.

Lemma vm_written_trans blkno r0 r1 r2 evs1 evs2 :
  rd_needs_wal r1 = rd_needs_wal r0 ->
  vm_written blkno r0 r1 evs1 -> vm_written blkno r1 r2 evs2 ->
  vm_written blkno r0 r2 (evs1 ++ evs2).
Proof.
  intros Hwal [H1|[H1 H1']] [H2|[H2 H2']].
  - left. congruence.
  - right. rewrite <- Hwal. rewrite !elem_of_app. auto.
  - right. rewrite !elem_of_app. auto.
  - right. rewrite !elem_of_app. auto.
Qed.

Lemma heap_force_page_effect fuel opt nblocks blkno offnos w w' :
  heap_force_page fuel opt nblocks blkno offnos w = Ok w' ->
  rd_relkind (w_rel w') = rd_relkind (w_rel w) /\
  rd_needs_wal (w_rel w') = rd_needs_wal (w_rel w) /\
  length (rd_pages (w_rel w')) = length (rd_pages (w_rel w)) /\
  (forall b : BlockNumber, b <> blkno ->
     rd_pages (w_rel w') !! N.to_nat b = rd_pages (w_rel w) !! N.to_nat b /\
     rd_vm (w_rel w') !! b = rd_vm (w_rel w) !! b) /\
  exists evs,
    w_log w' = w_log w ++ evs /\
    page_written blkno (w_rel w) (w_rel w') evs /\
    vm_written blkno (w_rel w) (w_rel w') evs.
Proof.
  destruct (N.le_gt_cases nblocks blkno) as [Hout|Hin].
  - rewrite heap_force_page_out_of_range by assumption. intros [= <-]. simpl.
    repeat split; try reflexivity.
    exists [EvNotice (BlockOutOfRange blkno)]. split; [reflexivity|].
    split; by left.
  - intros H. destruct (heap_force_page_session _ _ _ _ _ _ _ Hin H)
      as (page & s & ievs & Hpage & He & ->).
    rewrite (session_log _ _ _ _ _ _ _ He).
    pose proof (lookup_lt_Some _ _ _ Hpage) as Hvalid.
    simpl. split; [reflexivity|]. split; [reflexivity|].
    split; [apply length_insert|]. split.
    + intros b Hb. split.
      * apply list_lookup_insert_ne. lia.
      * apply (se_vm_frame _ _ _ _ _ _ He b Hb).
    + eexists. split; [reflexivity|]. split.
      * destruct (did_modify_page s) eqn:Hmod.
        -- right. simpl. split.
           ++ in_trace.
           ++ intros ->. in_trace.
        -- left. simpl. rewrite list_lookup_insert_eq by assumption.
           rewrite (se_page_kept _ _ _ _ _ _ He Hmod). simpl. auto.
      * destruct (did_modify_vm s) eqn:Hmod.
        -- right. simpl.
           destruct (se_vm_cleared _ _ _ _ _ _ He Hmod) as [Hf|Hclear];
             [discriminate|].
           split.
           ++ in_trace.
           ++ intros ->. in_trace.
        -- left. simpl. rewrite (se_vm_kept _ _ _ _ _ _ He Hmod). reflexivity.
Qed.

Lemma run_groups_effect fuel opt nblocks groups : forall w w',
  run_groups (heap_force_page fuel opt nblocks) groups w = Ok w' ->
  rd_relkind (w_rel w') = rd_relkind (w_rel w) /\
  rd_needs_wal (w_rel w') = rd_needs_wal (w_rel w) /\
  length (rd_pages (w_rel w')) = length (rd_pages (w_rel w)) /\
  (forall b : BlockNumber, b ∉ map fst groups ->
     rd_pages (w_rel w') !! N.to_nat b = rd_pages (w_rel w) !! N.to_nat b /\
     rd_vm (w_rel w') !! b = rd_vm (w_rel w) !! b) /\
  exists evs,
    w_log w' = w_log w ++ evs /\
    forall b : BlockNumber,
      page_written b (w_rel w) (w_rel w') evs /\
      vm_written b (w_rel w) (w_rel w') evs.
Proof.
  induction groups as [|[b1 offs] groups IH]; intros w w'; simpl.
  - intros [= <-]. repeat split; try reflexivity.
    exists []. split; [by rewrite app_nil_r|]. intros b. split; by left.
  - destruct (heap_force_page fuel opt nblocks b1 offs w) as [w1| | |] eqn:H1;
      simpl; try discriminate.
    intros H.
    destruct (heap_force_page_effect _ _ _ _ _ _ _ H1)
      as (Hk1 & Hw1 & Hn1 & Hf1 & evs1 & Hl1 & Hwr1).
    destruct (IH _ _ H) as (Hk2 & Hw2 & Hn2 & Hf2 & evs2 & Hl2 & Hwr2).
    split; [congruence|]. split; [congruence|]. split; [congruence|]. split.
    + intros b Hb. apply not_elem_of_cons in Hb as [Hb1 Hb2].
      destruct (Hf1 b Hb1) as [E1 E2]. destruct (Hf2 b Hb2) as [E3 E4].
      split; congruence.
    + exists (evs1 ++ evs2). split; [by rewrite Hl2, Hl1, app_assoc|].
      intros b. destruct (Hwr2 b) as [Hp2 Hv2].
      destruct (decide (b = b1)) as [->|Hne].
      * destruct Hwr1 as [Hp1 Hv1]. split.
        -- eapply page_written_trans; eassumption.
        -- eapply vm_written_trans; eassumption.
      * destruct (Hf1 b Hne) as [Hp1 Hv1]. split.
        -- eapply page_written_trans; [eassumption | by left | eassumption].
        -- eapply vm_written_trans; [eassumption | by left | eassumption].
Qed.

Lemma group_tids_blocks blkno offnos tids :
  (blkno, offnos) ∈ group_tids tids ->
  exists tid, tid ∈ tids /\ ip_blkid tid = blkno.
Proof.
  revert blkno offnos. induction tids as [|tid rest IH]; intros blkno offnos; simpl.
  - intros H. inversion H.
  - destruct (group_tids rest) as [|[b offs] groups] eqn:Hg.
    + intros [= -> ->]%list_elem_of_singleton. exists tid. split; [by left | reflexivity].
    + destruct (N.eqb_spec (ip_blkid tid) b) as [Heq|Hne].
      * intros [[= -> ->]|Hin]%elem_of_cons.
        -- exists tid. split; [by left | assumption].
        -- destruct (IH blkno offnos) as (t & Ht & Hb); [by right|].
           exists t. split; [by right | assumption].
      * intros [[= -> ->]|Hin]%elem_of_cons.
        -- exists tid. split; [by left | reflexivity].
        -- destruct (IH blkno offnos Hin) as (t & Ht & Hb).
           exists t. split; [by right | assumption].
Qed.

(** A call that returns leaves the kind, the persistence and the
    number of blocks of the relation as they were, and leaves the page
    and the visibility map bits of every block that no row identifier
    of the batch names exactly as they were. *)
Theorem unnamed_blocks_untouched :
  forall fuel in_recovery is_owner ta opt w w',
    heap_force_common fuel in_recovery is_owner ta opt w = Ok w' ->
    rd_relkind (w_rel w') = rd_relkind (w_rel w) /\
    rd_needs_wal (w_rel w') = rd_needs_wal (w_rel w) /\
    RelationGetNumberOfBlocks (w_rel w') = RelationGetNumberOfBlocks (w_rel w) /\
    forall blkno : BlockNumber,
      (forall tid, Some tid ∈ ta -> ip_blkid tid <> blkno) ->
      rd_pages (w_rel w') !! N.to_nat blkno = rd_pages (w_rel w) !! N.to_nat blkno /\
      rd_vm (w_rel w') !! blkno = rd_vm (w_rel w) !! blkno.
Proof.
  intros fuel in_recovery is_owner ta opt w w' H.
  apply heap_force_common_Ok in H
    as (tids & w1 & _ & _ & -> & _ & _ & Hrun & ->).
  destruct (run_groups_effect _ _ _ _ _ _ Hrun) as (Hk & Hw & Hn & Hf & _).
  simpl in *. split; [exact Hk|]. split; [exact Hw|].
  split; [unfold RelationGetNumberOfBlocks; by rewrite Hn|].
  intros blkno Hnot. apply Hf.
  intros ([b offs] & Hb & Hin)%list_elem_of_fmap. simpl in Hb. subst b.
  apply group_tids_blocks in Hin as (tid & Htid & Hblk).
  rewrite (sorted_tids_perm tids) in Htid.
  apply (Hnot tid); [|exact Hblk].
  apply list_elem_of_fmap. eauto.
Qed.

Lemma unnamed_blocks_untouched_witness :
  rd_pages (w_rel (Sample.returned
     (heap_force_kill 5 false true [Some (mkTid 0 1)] Sample.two_block_world)))
    !! N.to_nat 1 = rd_pages (w_rel Sample.two_block_world) !! N.to_nat 1 /\
  rd_vm (w_rel (Sample.returned
     (heap_force_kill 5 false true [Some (mkTid 0 1)] Sample.two_block_world)))
    !! 1%N = rd_vm (w_rel Sample.two_block_world) !! 1%N.
Proof.
  apply (unnamed_blocks_untouched 5 false true [Some (mkTid 0 1)] HEAP_FORCE_KILL
           Sample.two_block_world).
  - reflexivity.
  - intros tid Hin. apply list_elem_of_singleton in Hin. injection Hin as ->.
    simpl. lia.
Defined.

(** Lines 279-295.  In a call that returns, for every block: its page
    is as it was before the call, or the trace has the MarkBufferDirty
    of its buffer and, when the relation needs WAL, the log_newpage of
    that buffer; its visibility map bits are as they were, or the trace
    has their clearing and, when the relation needs WAL, the
    log_newpage of the visibility map buffer. *)
Theorem modified_pages_logged :
  forall fuel in_recovery is_owner ta opt w w',
    heap_force_common fuel in_recovery is_owner ta opt w = Ok w' ->
    exists evs,
      w_log w' = w_log w ++ evs /\
      forall blkno : BlockNumber,
        page_written blkno (w_rel w) (w_rel w') evs /\
        vm_written blkno (w_rel w) (w_rel w') evs.
Proof.
  intros fuel in_recovery is_owner ta opt w w' H.
  apply heap_force_common_Ok in H
    as (tids & w1 & _ & _ & -> & _ & _ & Hrun & ->).
  destruct (run_groups_effect _ _ _ _ _ _ Hrun) as (_ & _ & _ & _ & evs & Hlog & Hwr).
  simpl in *. exists ([EvRelationOpen] ++ evs ++ [EvRelationClose]).
  split; [rewrite Hlog, <- !app_assoc; reflexivity|].
  intros blkno. destruct (Hwr blkno) as [Hp Hv]. split.
  - apply (page_written_trans _ _ (w_rel w)); [reflexivity | by left |].
    apply (page_written_trans _ _ (w_rel w1)); [|exact Hp | by left].
    destruct (run_groups_effect _ _ _ _ _ _ Hrun) as (_ & Hw & _). exact Hw.
  - apply (vm_written_trans _ _ (w_rel w)); [reflexivity | by left |].
    apply (vm_written_trans _ _ (w_rel w1)); [|exact Hv | by left].
    destruct (run_groups_effect _ _ _ _ _ _ Hrun) as (_ & Hw & _). exact Hw.
Qed.

Lemma modified_pages_logged_witness :
  exists evs,
    w_log Sample.killed_world = w_log Sample.world ++ evs /\
    forall blkno : BlockNumber,
      page_written blkno (w_rel Sample.world) (w_rel Sample.killed_world) evs /\
      vm_written blkno (w_rel Sample.world) (w_rel Sample.killed_world) evs.
Proof.
  apply (modified_pages_logged 5 false true [Some (mkTid 0%N 2)] HEAP_FORCE_KILL
           Sample.world).
  reflexivity.
Defined.

(** ** The trace of a call *)

Lemma heap_force_page_trace fuel opt nblocks blkno offnos w w' :
  heap_force_page fuel opt nblocks blkno offnos w = Ok w' ->
  exists evs,
    w_log w' = w_log w ++ evs /\
    group_events opt (rd_needs_wal (w_rel w)) nblocks (blkno, offnos) evs.
Proof.
  unfold group_events. simpl.
  destruct (N.leb_spec nblocks blkno) as [Hout|Hin].
  - rewrite heap_force_page_out_of_range by assumption. intros [= <-]. eauto.
  - intros H. destruct (heap_force_page_session _ _ _ _ _ _ _ Hin H)
      as (page & s & ievs & Hpage & He & ->).
    eexists. split; [apply (session_log _ _ _ _ _ _ _ He)|].
    exists (pin_vm opt page), (did_modify_page s), (did_modify_vm s), ievs.
    split; [reflexivity|]. split; [apply He|].
    assert (Hclear : EvVmClear blkno ∈ ievs -> pin_vm opt page = true).
    { intros Hc. destruct (se_clear _ _ _ _ _ _ He Hc) as (Hav & -> & _).
      exact Hav. }
    split; [|split; [|exact Hclear]].
    + unfold pin_vm. destruct opt; [reflexivity | discriminate].
    + intros Hmod. apply Hclear.
      destruct (se_vm_cleared _ _ _ _ _ _ He Hmod) as [Hf|Hc];
        [discriminate | exact Hc].
Qed.

Lemma run_groups_trace fuel opt nblocks groups : forall w w',
  run_groups (heap_force_page fuel opt nblocks) groups w = Ok w' ->
  exists evss,
    w_log w' = w_log w ++ concat evss /\
    Forall2 (group_events opt (rd_needs_wal (w_rel w)) nblocks) groups evss.
Proof.
  induction groups as [|[b offs] groups IH]; intros w w'; simpl.
  - intros [= <-]. exists []. split; [by rewrite app_nil_r | constructor].
  - destruct (heap_force_page fuel opt nblocks b offs w) as [w1| | |] eqn:H1;
      simpl; try discriminate.
    intros H. destruct (heap_force_page_trace _ _ _ _ _ _ _ H1) as (evs1 & Hl1 & Hg1).
    destruct (heap_force_page_effect _ _ _ _ _ _ _ H1) as (_ & Hwal & _).
    destruct (IH _ _ H) as (evss & Hl2 & Hg2). rewrite Hwal in Hg2.
    exists (evs1 :: evss). split; [|by constructor].
    simpl. rewrite Hl2, Hl1, app_assoc. reflexivity.
Qed.

(** The trace of a call that returns: the opening of the relation, the
    events of each group of the sorted batch in turn, the closing. *)
Lemma heap_force_common_trace fuel in_recovery is_owner ta opt w w' :
  heap_force_common fuel in_recovery is_owner ta opt w = Ok w' ->
  exists tids evss,
    ta = Some <$> tids /\
    Forall2 (group_events opt (rd_needs_wal (w_rel w))
               (RelationGetNumberOfBlocks (w_rel w)))
      (group_tids (sorted_tids tids)) evss /\
    w_log w' = w_log w ++ [EvRelationOpen] ++ concat evss ++ [EvRelationClose].
Proof.
  intros H. apply heap_force_common_Ok in H
    as (tids & w1 & _ & _ & -> & _ & _ & Hrun & ->).
  destruct (run_groups_trace _ _ _ _ _ _ Hrun) as (evss & Hlog & Hg).
  exists tids, evss. split; [reflexivity|]. split; [exact Hg|].
  simpl in *. rewrite Hlog, <- !app_assoc. reflexivity.
Qed.

(** ** The buffer protocol *)

Lemma protocol_run_app st evs1 evs2 :
  protocol_run st (evs1 ++ evs2) =
  match protocol_run st evs1 with
  | Some st' => protocol_run st' evs2
  | None => None
  end.
Proof.
  revert st. induction evs1 as [|ev evs1 IH]; intros st; simpl; [reflexivity|].
  destruct (protocol_step st ev); [apply IH | reflexivity].
Qed.

Lemma protocol_run_items opt blkno offnos pinned dirty ievs :
  Forall (item_event opt blkno offnos) ievs ->
  (EvVmClear blkno ∈ ievs -> pinned = true) ->
  protocol_run (PLocked blkno pinned dirty) ievs = Some (PLocked blkno pinned dirty).
Proof.
  induction 1 as [|ev ievs Hev _ IH]; intros Hclear; [reflexivity|].
  assert (Hstep : protocol_step (PLocked blkno pinned dirty) ev =
                  Some (PLocked blkno pinned dirty)).
  { destruct Hev as [(offno & n & _ & Hn & ->)|[_ ->]].
    - destruct Hn; simpl; unfold event_about; simpl; rewrite N.eqb_refl; reflexivity.
    - simpl. unfold event_about. simpl. rewrite N.eqb_refl.
      rewrite Hclear by apply list_elem_of_here. reflexivity. }
  cbn [protocol_run]. rewrite Hstep. apply IH. intros Hin. apply Hclear. by right.
Qed.

Ltac protocol_steps :=
  repeat (progress (simpl; unfold event_about; simpl; rewrite ?N.eqb_refl)).

Lemma protocol_run_session opt wal blkno offnos evs :
  session_events opt wal blkno offnos evs ->
  protocol_run POpen evs = Some POpen.
Proof.
  intros (pinned & modified & vm_modified & ievs & -> & Hall & _ & Hvm & Hclear).
  assert (Hitems : forall dirty,
            protocol_run (PLocked blkno pinned dirty) ievs =
            Some (PLocked blkno pinned dirty)).
  { intros dirty. eapply protocol_run_items; eassumption. }
  destruct pinned.
  - simpl. unfold event_about. simpl. rewrite N.eqb_refl.
    rewrite protocol_run_app, Hitems.
    destruct modified, vm_modified, wal; protocol_steps; reflexivity.
  - assert (vm_modified = false) as ->.
    { destruct vm_modified; [|reflexivity]. symmetry. by apply Hvm. }
    simpl. rewrite protocol_run_app, Hitems.
    destruct modified, wal; protocol_steps; reflexivity.
Qed.

Lemma protocol_run_groups opt wal nblocks groups evss :
  Forall2 (group_events opt wal nblocks) groups evss ->
  protocol_run POpen (concat evss) = Some POpen.
Proof.
  induction 1 as [|[b offs] evs groups evss Hg _ IH]; [reflexivity|].
  simpl. rewrite protocol_run_app.
  unfold group_events in Hg. simpl in Hg.
  destruct (nblocks <=? b)%N.
  - subst evs. simpl. exact IH.
  - rewrite (protocol_run_session _ _ _ _ _ Hg). exact IH.
Qed.

(** The storage accesses of a call that returns follow the buffer
    protocol from the opening of the relation to its closing: one
    buffer is locked at a time and every lock is released; the
    visibility map page is pinned at most once per pass, cleared and
    logged only while pinned, and released after the heap buffer; a
    page is logged only after its buffer was marked dirty. *)
Theorem heap_force_common_protocol :
  forall fuel in_recovery is_owner ta opt w w',
    heap_force_common fuel in_recovery is_owner ta opt w = Ok w' ->
    exists evs,
      w_log w' = w_log w ++ evs /\
      protocol_run PIdle evs = Some PClosed.
Proof.
  intros fuel in_recovery is_owner ta opt w w' H.
  apply heap_force_common_trace in H as (tids & evss & _ & Hg & Hlog).
  eexists. split; [exact Hlog|].
  simpl. rewrite protocol_run_app, (protocol_run_groups _ _ _ _ _ Hg).
  reflexivity.
Qed.

Lemma heap_force_common_protocol_witness :
  exists evs,
    w_log Sample.killed_world = w_log Sample.world ++ evs /\
    protocol_run PIdle evs = Some PClosed.
Proof.
  apply (heap_force_common_protocol 5 false true [Some (mkTid 0%N 2)]
           HEAP_FORCE_KILL Sample.world).
  reflexivity.
Defined.

(** ** The pages a call reads *)

Lemma read_blocks_app evs1 evs2 :
  read_blocks (evs1 ++ evs2) = read_blocks evs1 ++ read_blocks evs2.
Proof. apply omap_app. Qed.

Lemma read_blocks_items opt blkno offnos ievs :
  Forall (item_event opt blkno offnos) ievs -> read_blocks ievs = [].
Proof.
  induction 1 as [|ev ievs Hev _ IH]; [reflexivity|].
  destruct Hev as [(offno & n & _ & _ & ->)|[_ ->]]; exact IH.
Qed.

Lemma read_blocks_session opt wal blkno offnos evs :
  session_events opt wal blkno offnos evs -> read_blocks evs = [blkno].
Proof.
  intros (pinned & modified & vm_modified & ievs & -> & Hall & _).
  rewrite !read_blocks_app, (read_blocks_items _ _ _ _ Hall).
  destruct pinned, modified, vm_modified, wal; reflexivity.
Qed.

Lemma read_blocks_groups opt wal nblocks groups evss :
  Forall2 (group_events opt wal nblocks) groups evss ->
  read_blocks (concat evss) = filter (fun b => (b < nblocks)%N) (map fst groups).
Proof.
  induction 1 as [|[b offs] evs groups evss Hg _ IH]; [reflexivity|].
  simpl. rewrite read_blocks_app, IH.
  unfold group_events in Hg. simpl in Hg.
  destruct (N.leb_spec nblocks b) as [Hout|Hin].
  - subst evs. rewrite filter_cons_False by lia. reflexivity.
  - rewrite (read_blocks_session _ _ _ _ _ Hg), filter_cons_True by assumption.
    reflexivity.
Qed.

Lemma StronglySorted_filter {A} (R : relation A) (P : A -> Prop)
    `{forall x, Decision (P x)} (l : list A) :
  StronglySorted R l -> StronglySorted R (filter P l).
Proof.
  induction 1 as [|x l _ IH Hx]; [constructor|].
  rewrite filter_cons. destruct (decide (P x)); [|exact IH].
  constructor; [exact IH|].
  rewrite Forall_forall in *. intros y [_ Hy]%list_elem_of_filter. auto.
Qed.

(** Lines 107-166.  A call that returns reads and locks each block of
    the relation that the batch names exactly once, in ascending order
    of block number, and reads no other block. *)
Theorem pages_read_once_in_order :
  forall fuel in_recovery is_owner ta opt w w',
    heap_force_common fuel in_recovery is_owner ta opt w = Ok w' ->
    exists evs,
      w_log w' = w_log w ++ evs /\
      StronglySorted N.lt (read_blocks evs) /\
      forall blkno : BlockNumber,
        blkno ∈ read_blocks evs <->
        (blkno < RelationGetNumberOfBlocks (w_rel w))%N /\
        exists tid, Some tid ∈ ta /\ ip_blkid tid = blkno.
Proof.
  intros fuel in_recovery is_owner ta opt w w' H.
  apply heap_force_common_trace in H as (tids & evss & -> & Hg & Hlog).
  eexists. split; [exact Hlog|].
  assert (Hreads :
    read_blocks ([EvRelationOpen] ++ concat evss ++ [EvRelationClose]) =
    filter (fun b => (b < RelationGetNumberOfBlocks (w_rel w))%N)
      (map fst (group_tids (sorted_tids tids)))).
  { rewrite !read_blocks_app, (read_blocks_groups _ _ _ _ _ Hg).
    simpl. apply app_nil_r. }
  rewrite Hreads. split.
  - apply StronglySorted_filter.
    apply (blocks_increasing _ (group_tids_ordered _ (sorted_tids_sorted tids))).
  - intros blkno. rewrite list_elem_of_filter. split.
    + intros [Hlt ([b offs] & Hb & Hin)%list_elem_of_fmap]. simpl in Hb. subst b.
      split; [exact Hlt|].
      apply group_tids_blocks in Hin as (tid & Htid & Hblk).
      rewrite (sorted_tids_perm tids) in Htid.
      exists tid. split; [|exact Hblk]. apply list_elem_of_fmap. eauto.
    + intros [Hlt (tid & Htid & <-)]. split; [exact Hlt|].
      apply list_elem_of_fmap in Htid as (tid' & [= <-] & Htid).
      rewrite <- (sorted_tids_perm tids) in Htid.
      apply elem_of_group_tids in Htid as (offnos & Hin & _).
      apply list_elem_of_fmap. exists (ip_blkid tid, offnos). auto.
Qed.

Lemma pages_read_once_in_order_witness :
  exists evs,
    w_log (Sample.returned
             (heap_force_freeze 5 false true
                [Some (mkTid 1 3); Some (mkTid 7 1); Some (mkTid 0 1); Some (mkTid 1 1)]
                Sample.two_block_world)) =
      w_log Sample.two_block_world ++ evs /\
    StronglySorted N.lt (read_blocks evs) /\
    forall blkno : BlockNumber,
      blkno ∈ read_blocks evs <->
      (blkno < RelationGetNumberOfBlocks (w_rel Sample.two_block_world))%N /\
      exists tid,
        Some tid ∈ [Some (mkTid 1 3); Some (mkTid 7 1); Some (mkTid 0 1);
                    Some (mkTid 1 1)] /\
        ip_blkid tid = blkno.
Proof.
  apply (pages_read_once_in_order 5 false true
           [Some (mkTid 1 3); Some (mkTid 7 1); Some (mkTid 0 1); Some (mkTid 1 1)]
           HEAP_FORCE_FREEZE Sample.two_block_world).
  reflexivity.
Defined.

(** ** The events an operation can produce *)

Lemma Forall_opt_ev (P : Event -> Prop) b ev :
  (b = true -> P ev) -> Forall P (opt_ev b ev).
Proof. destruct b; simpl; [|constructor]. intros H. constructor; [auto | constructor]. Qed.

Lemma session_events_allowed opt wal blkno offnos evs :
  session_events opt wal blkno offnos evs ->
  Forall (fun ev => event_allowed opt wal ev = true) evs.
Proof.
  intros (pinned & modified & vm_modified & ievs & -> & Hall & Hpin & Hvm & _).
  repeat apply Forall_app_2.
  - constructor; [reflexivity | constructor].
  - apply Forall_opt_ev. intros ->%Hpin. reflexivity.
  - eapply Forall_impl; [exact Hall|].
    intros ev [(offno & n & _ & _ & ->)|[-> ->]]; reflexivity.
  - apply Forall_opt_ev. reflexivity.
  - apply Forall_opt_ev. intros [_ ->]%andb_true_iff. reflexivity.
  - apply Forall_opt_ev. intros [Hm ->]%andb_true_iff.
    rewrite (Hpin (Hvm Hm)). reflexivity.
  - constructor; [reflexivity | constructor].
  - apply Forall_opt_ev. intros ->%Hpin. reflexivity.
Qed.

(** A force-freeze call never pins, clears, logs or releases a
    visibility map page, and a call on a relation that needs no WAL
    (lines 290, 294) logs nothing. *)
Theorem call_events_allowed :
  forall fuel in_recovery is_owner ta opt w w',
    heap_force_common fuel in_recovery is_owner ta opt w = Ok w' ->
    exists evs,
      w_log w' = w_log w ++ evs /\
      Forall (fun ev => event_allowed opt (rd_needs_wal (w_rel w)) ev = true) evs.
Proof.
  intros fuel in_recovery is_owner ta opt w w' H.
  apply heap_force_common_trace in H as (tids & evss & _ & Hg & Hlog).
  eexists. split; [exact Hlog|].
  apply Forall_app_2; [constructor; [reflexivity | constructor]|].
  apply Forall_app_2; [|constructor; [reflexivity | constructor]].
  apply Forall_concat.
  clear Hlog. induction Hg as [|[b offs] evs groups evss Hg1 _ IH]; [constructor|].
  constructor; [|exact IH].
  unfold group_events in Hg1. simpl in Hg1.
  destruct (_ <=? b)%N.
  - subst evs. constructor; [reflexivity | constructor].
  - eapply session_events_allowed. exact Hg1.
Qed.

Lemma call_events_allowed_witness :
  exists evs,
    w_log (Sample.returned
             (heap_force_kill 5 false true [Some (mkTid 0 1)] Sample.two_block_world)) =
      w_log Sample.two_block_world ++ evs /\
    Forall (fun ev => event_allowed HEAP_FORCE_KILL
                        (rd_needs_wal (w_rel Sample.two_block_world)) ev = true) evs.
Proof.
  apply (call_events_allowed 5 false true [Some (mkTid 0 1)] HEAP_FORCE_KILL
           Sample.two_block_world).
  reflexivity.
Defined.

(** ** What the notices report *)

Lemma linp_preserved_item_back page0 page offno itemid :
  linp_preserved page0 page ->
  PageGetItemId page offno = Some itemid ->
  exists itemid0,
    PageGetItemId page0 offno = Some itemid0 /\ slot_preserved itemid0 itemid.
Proof.
  unfold PageGetItemId, linp_preserved. intros Hl.
  destruct (1 <=? offno); [|discriminate]. intros Hget.
  destruct (Forall2_lookup_r _ _ _ _ _ Hl Hget) as (itemid0 & H0 & Hs). eauto.
Qed.

Lemma chain_target_back page0 page offno cur itemid :
  linp_preserved page0 page ->
  chain_target page offno cur itemid ->
  exists itemid0,
    chain_target page0 offno cur itemid0 /\ slot_preserved itemid0 itemid.
Proof.
  intros Hl [Hres Hget].
  induction Hres as [offno it Hit Hred | offno it cur Hit Hred _ IH].
  - assert (it = itemid) by congruence. subst it.
    destruct (linp_preserved_item_back _ _ _ _ Hl Hget) as (it0 & H0 & Hs).
    exists it0. split; [|exact Hs]. split; [|exact H0].
    eapply resolves_here; [exact H0|].
    destruct (slot_preserved_redirect _ _ Hs) as [<- _]. exact Hred.
  - destruct (IH Hget) as (itemid0 & [Hres0 Hget0] & Hs).
    exists itemid0. split; [|exact Hs]. split; [|exact Hget0].
    destruct (linp_preserved_item_back _ _ _ _ Hl Hit) as (it0 & H0 & Hs0).
    destruct (slot_preserved_redirect _ _ Hs0) as [Hr Heq].
    rewrite Hred in Hr. symmetry in Hr. rewrite (Heq Hr) in *.
    eapply resolves_redirect; eassumption.
Qed.

#[global] Instance page_between_refl opt : Reflexive (page_between opt).
Proof. intros p. split; [reflexivity | auto]. Qed.

#[global] Instance page_between_trans opt : Transitive (page_between opt).
Proof.
  intros p0 p1 p2 [Hl1 Hf1] [Hl2 Hf2]. split; [etransitivity; eassumption|].
  intros Hopt. rewrite (Hf2 Hopt). auto.
Qed.

Lemma item_step_between opt blkno offno s s' :
  item_step opt blkno offno s s' -> page_between opt (s_page s) (s_page s').
Proof.
  intros H. split; [eapply item_step_preserved; exact H|].
  intros ->. destruct H as [n _ | cur itemid Hopt _ _ | cur itemid _ _ _];
    [reflexivity | discriminate | reflexivity].
Qed.

Lemma notice_reason_back opt page0 page n :
  page_between opt page0 page ->
  notice_reason opt page n -> notice_reason opt page0 n.
Proof.
  intros [Hl Hfreeze]. destruct n as [b | b o | b o | b o]; simpl.
  - auto.
  - unfold PageGetMaxOffsetNumber. rewrite (linp_preserved_length _ _ Hl). auto.
  - intros (cur & itemid & Ht & Hunused).
    destruct (chain_target_back _ _ _ _ _ Hl Ht) as (itemid0 & Ht0 & Hs).
    exists cur, itemid0. split; [exact Ht0|].
    destruct Hs as [->|[_ Hd]]; [exact Hunused|].
    unfold ItemIdIsUsed, ItemIdIsDead in *. destruct (lp_flags itemid); discriminate.
  - intros (cur & itemid & Ht & Hwhy).
    destruct (chain_target_back _ _ _ _ _ Hl Ht) as (itemid0 & Ht0 & Hs).
    exists cur, itemid0. split; [exact Ht0|].
    destruct Hs as [->|[Hn0 Hd]]; [exact Hwhy|].
    destruct opt; [right; auto|].
    exfalso. destruct Ht as [_ Hget], Ht0 as [_ Hget0].
    unfold PageGetItemId in *. rewrite (Hfreeze eq_refl) in Hget.
    assert (itemid0 = itemid) by congruence. subst.
    unfold ItemIdIsNormal, ItemIdIsDead in *. destruct (lp_flags itemid); discriminate.
Qed.

(** The notice of one trip round the [for] loop, with its reason in
    the page as the trip found it. *)
Lemma heap_force_item_notice fuel opt blkno offno s s' :
  heap_force_item fuel opt blkno (PageGetMaxOffsetNumber (s_page s)) offno s = Ok s' ->
  exists evs,
    s_log s' = s_log s ++ evs /\
    forall n, EvNotice n ∈ evs ->
      item_notice blkno offno n /\ notice_reason opt (s_page s) n.
Proof.
  unfold heap_force_item.
  destruct ((offno =? 0) || (PageGetMaxOffsetNumber (s_page s) <? offno)) eqn:Hrange.
  { intros [= <-]. exists [EvNotice (OffsetOutOfRange blkno offno)].
    split; [reflexivity|]. intros n [[= ->]|H]%elem_of_cons; [|inversion H].
    split; [constructor|]. simpl.
    apply orb_true_iff in Hrange as [H%Z.eqb_eq|H%Z.ltb_lt]; auto. }
  destruct (follow_redirects fuel (s_page s) offno) as [[cur itemid]| | |] eqn:Hf;
    simpl; try discriminate.
  destruct (follow_redirects_Ok _ _ _ _ _ Hf) as (Hget & _ & m & _ & Hres).
  apply resolves_in_to in Hres.
  destruct (ItemIdIsUsed itemid) eqn:Hused; simpl.
  2:{ intros [= <-]. exists [EvNotice (AlreadyUnused blkno offno)].
      split; [reflexivity|]. intros n [[= ->]|H]%elem_of_cons; [|inversion H].
      split; [constructor|]. exists cur, itemid. split; [split|]; assumption. }
  destruct (ItemIdIsDead itemid) eqn:Hdead.
  { intros [= <-]. exists [EvNotice (AlreadyDead blkno offno)].
    split; [reflexivity|]. intros n [[= ->]|H]%elem_of_cons; [|inversion H].
    split; [constructor|]. exists cur, itemid. split; [split; assumption | by left]. }
  destruct opt; intros [= <-].
  - unfold force_kill_item. destruct (PageIsAllVisible _); simpl.
    + exists [EvVmClear blkno]. split; [reflexivity|].
      intros n [H|H]%elem_of_cons; [discriminate | inversion H].
    + exists []. split; [by rewrite app_nil_r|]. intros n H. inversion H.
  - exists []. split; [by rewrite app_nil_r|]. intros n H. inversion H.
Qed.

Lemma heap_force_items_notices fuel opt blkno page0 offnos : forall s s',
  page_between opt page0 (s_page s) ->
  heap_force_items fuel opt blkno (PageGetMaxOffsetNumber page0) offnos s = Ok s' ->
  page_between opt page0 (s_page s') /\
  exists evs,
    s_log s' = s_log s ++ evs /\
    forall n, EvNotice n ∈ evs ->
      exists offno,
        offno ∈ offnos /\ item_notice blkno offno n /\ notice_reason opt page0 n.
Proof.
  induction offnos as [|offno rest IH]; intros s s' Hb; simpl.
  - intros [= <-]. split; [exact Hb|]. exists []. split; [by rewrite app_nil_r|].
    intros n H. inversion H.
  - destruct (heap_force_item fuel opt blkno (PageGetMaxOffsetNumber page0) offno s)
      as [s1| | |] eqn:H1; simpl; try discriminate.
    intros H.
    assert (Hb1 : page_between opt page0 (s_page s1)).
    { etransitivity; [exact Hb|].
      eapply item_step_between, heap_force_item_step. exact H1. }
    assert (Hmax : PageGetMaxOffsetNumber page0 = PageGetMaxOffsetNumber (s_page s)).
    { unfold PageGetMaxOffsetNumber.
      rewrite (linp_preserved_length _ _ (proj1 Hb)). reflexivity. }
    rewrite Hmax in H1.
    destruct (heap_force_item_notice _ _ _ _ _ _ H1) as (evs1 & Hl1 & Hn1).
    destruct (IH _ _ Hb1 H) as (Hb2 & evs2 & Hl2 & Hn2).
    split; [exact Hb2|]. exists (evs1 ++ evs2).
    split; [by rewrite Hl2, Hl1, app_assoc|].
    intros n [Hin|Hin]%elem_of_app.
    + destruct (Hn1 n Hin) as [Hitem Hwhy]. exists offno.
      split; [by left|]. split; [exact Hitem|].
      apply (notice_reason_back _ _ _ _ Hb Hwhy).
    + destruct (Hn2 n Hin) as (o & Ho & Hrest). exists o. split; [by right | exact Hrest].
Qed.

Lemma elem_of_opt_ev_notice n b ev :
  EvNotice n ∈ opt_ev b ev -> EvNotice n = ev.
Proof.
  destruct b; simpl; [|intros H; inversion H].
  intros [H|H]%elem_of_cons; [exact H | inversion H].
Qed.

Lemma heap_force_page_notices fuel opt nblocks rel0 blkno offnos w w' :
  Forall2 (page_between opt) (rd_pages rel0) (rd_pages (w_rel w)) ->
  heap_force_page fuel opt nblocks blkno offnos w = Ok w' ->
  Forall2 (page_between opt) (rd_pages rel0) (rd_pages (w_rel w')) /\
  exists evs,
    w_log w' = w_log w ++ evs /\
    forall n, EvNotice n ∈ evs ->
      ((nblocks <= blkno)%N /\ n = BlockOutOfRange blkno) \/
      ((blkno < nblocks)%N /\
       exists offno page0,
         offno ∈ offnos /\ rd_pages rel0 !! N.to_nat blkno = Some page0 /\
         item_notice blkno offno n /\ notice_reason opt page0 n).
Proof.
  intros Hinv.
  destruct (N.le_gt_cases nblocks blkno) as [Hout|Hin].
  - rewrite heap_force_page_out_of_range by assumption. intros [= <-].
    split; [exact Hinv|]. exists [EvNotice (BlockOutOfRange blkno)].
    split; [reflexivity|].
    intros n [[= ->]|H]%elem_of_cons; [by left | inversion H].
  - intros H. destruct (heap_force_page_in_range _ _ _ _ _ _ _ Hin H)
      as (page & s & Hpage & Hitems & ->).
    destruct (Forall2_lookup_r _ _ _ _ _ Hinv Hpage) as (page0 & Hpage0 & Hb).
    assert (Hmax : PageGetMaxOffsetNumber page = PageGetMaxOffsetNumber page0).
    { unfold PageGetMaxOffsetNumber.
      rewrite (linp_preserved_length _ _ (proj1 Hb)). reflexivity. }
    rewrite Hmax in Hitems.
    destruct (heap_force_items_notices _ _ _ page0 _
                (session_start opt blkno page w) _ Hb Hitems)
      as (Hb' & ievs & Hlog & Hn).
    split.
    + simpl. rewrite <- (list_insert_id _ _ _ Hpage0).
      apply Forall2_insert; assumption.
    + unfold session_finish. simpl. rewrite !emit_if_opt_ev, Hlog. simpl.
      rewrite emit_if_opt_ev, <- !app_assoc. eexists. split; [reflexivity|].
      intros n Hin'. right. split; [exact Hin|].
      assert (Hi : EvNotice n ∈ ievs).
      { repeat (apply elem_of_app in Hin' as [Hin'|Hin']);
          try (apply elem_of_opt_ev_notice in Hin'; discriminate);
          try (apply elem_of_cons in Hin' as [Hin'|Hin']; [discriminate | inversion Hin']).
        exact Hin'. }
      destruct (Hn n Hi) as (offno & Ho & Hitem & Hwhy).
      exists offno, page0. auto.
Qed.

Lemma run_groups_notices fuel opt nblocks rel0 groups : forall w w',
  Forall2 (page_between opt) (rd_pages rel0) (rd_pages (w_rel w)) ->
  run_groups (heap_force_page fuel opt nblocks) groups w = Ok w' ->
  exists evs,
    w_log w' = w_log w ++ evs /\
    forall n, EvNotice n ∈ evs ->
      exists blkno offnos,
        (blkno, offnos) ∈ groups /\
        (((nblocks <= blkno)%N /\ n = BlockOutOfRange blkno) \/
         ((blkno < nblocks)%N /\
          exists offno page0,
            offno ∈ offnos /\ rd_pages rel0 !! N.to_nat blkno = Some page0 /\
            item_notice blkno offno n /\ notice_reason opt page0 n)).
Proof.
  induction groups as [|[b offs] groups IH]; intros w w' Hinv; simpl.
  - intros [= <-]. exists []. split; [by rewrite app_nil_r|]. intros n H. inversion H.
  - destruct (heap_force_page fuel opt nblocks b offs w) as [w1| | |] eqn:H1;
      simpl; try discriminate.
    intros H.
    destruct (heap_force_page_notices _ _ _ _ _ _ _ _ Hinv H1)
      as (Hinv1 & evs1 & Hl1 & Hn1).
    destruct (IH _ _ Hinv1 H) as (evs2 & Hl2 & Hn2).
    exists (evs1 ++ evs2). split; [by rewrite Hl2, Hl1, app_assoc|].
    intros n [Hin|Hin]%elem_of_app.
    + exists b, offs. split; [by left | auto].
    + destruct (Hn2 n Hin) as (b' & offs' & Hg & Hrest).
      exists b', offs'. split; [by right | exact Hrest].
Qed.



(** ** Redirections that never end *)

(** Lines 194-199.  The [while] loop that follows redirections has no
    bound: a call whose batch names a row identifier, on a block of
    the relation, whose redirections run in a cycle does not return,
    however long it runs. *)
Theorem redirect_cycle_never_returns :
  forall fuel in_recovery is_owner ta opt w w' tid page,
    Some tid ∈ ta ->
    rd_pages (w_rel w) !! N.to_nat (ip_blkid tid) = Some page ->
    redirect_cycle page (ip_posid tid) ->
    heap_force_common fuel in_recovery is_owner ta opt w <> Ok w'.
Proof.
  intros fuel in_recovery is_owner ta opt w w' tid page Hta Hpage Hcycle H.
  assert (Hblk : (ip_blkid tid < RelationGetNumberOfBlocks (w_rel w))%N).
  { apply lookup_lt_Some in Hpage. unfold RelationGetNumberOfBlocks. lia. }
  destruct (heap_force_common_covers _ _ _ _ _ _ _ _ H Hta Hblk)
    as (rel1 & s1 & s2 & Hvalid & Hpre & Hitem & _).
  pose proof (world_steps_preserved _ _ _ Hpre) as Hpres.
  destruct (pages_preserved_page _ _ _ _ Hpres Hpage) as (p1 & Hp1 & Hlinp).
  rewrite session_world_page in Hp1 by assumption. injection Hp1 as <-.
  assert (Hrange : 1 <= ip_posid tid <= PageGetMaxOffsetNumber (s_page s1)).
  { destruct Hcycle as (offnos & Hin & Hall). rewrite Forall_forall in Hall.
    destruct (Hall _ Hin) as (it & Hit & _).
    apply PageGetItemId_range in Hit. unfold PageGetMaxOffsetNumber in *.
    rewrite (linp_preserved_length _ _ Hlinp). exact Hit. }
  destruct (heap_force_item_Ok_follow _ _ _ _ _ _ _ Hitem Hrange) as (cur & it & Hf).
  destruct (follow_redirects_Ok _ _ _ _ _ Hf) as (Hget & _ & m & _ & Hres).
  apply resolves_in_to in Hres.
  destruct (chain_target_back _ _ _ _ _ Hlinp (conj Hres Hget)) as (it0 & [Hres0 _] & _).
  exact (redirect_cycle_unresolved _ _ _ Hcycle Hres0).
Qed.

Lemma redirect_cycle_never_returns_witness :
  heap_force_common 9 false true [Some (mkTid 0 1)] HEAP_FORCE_FREEZE
    Sample.cyclic_world <> Ok Sample.cyclic_world.
Proof.
  apply (redirect_cycle_never_returns 9 false true [Some (mkTid 0 1)]
           HEAP_FORCE_FREEZE Sample.cyclic_world Sample.cyclic_world
           (mkTid 0 1) Sample.cyclic_page).
  - apply list_elem_of_here.
  - reflexivity.
  - exists [1]. split; [apply list_elem_of_here|].
    constructor; [|constructor].
    exists (mkItemId 1 LP_REDIRECT 0).
    split; [reflexivity|]. split; [reflexivity | apply list_elem_of_here].
Defined.

(** ** Sample calls that return, freeze and group *)

Lemma sample_page_chains_ok : page_chains_ok Sample.page.
Proof.
  intros offno Hoff.
  assert (Hcases : offno = 1 \/ offno = 2 \/ offno = 3 \/ offno = 4 \/ offno = 5).
  { unfold PageGetMaxOffsetNumber in Hoff. simpl in Hoff. lia. }
  destruct Hcases as [-> | [-> | [-> | [-> | ->]]]].
  - exists 1. eapply resolves_here; reflexivity.
  - exists 3. eapply resolves_redirect; [reflexivity | reflexivity |].
    eapply resolves_here; reflexivity.
  - exists 3. eapply resolves_here; reflexivity.
  - exists 4. eapply resolves_here; reflexivity.
  - exists 5. eapply resolves_here; reflexivity.
Defined.

Lemma heap_force_common_returns_witness :
  exists w',
    heap_force_common 5 false true (Some <$> [mkTid 0 2; mkTid 0 9; mkTid 4 1])
      HEAP_FORCE_KILL Sample.world = Ok w'.
Proof.
  apply (heap_force_common_returns 5 HEAP_FORCE_KILL
           [mkTid 0 2; mkTid 0 9; mkTid 4 1] Sample.world).
  - discriminate.
  - simpl. lia.
  - repeat constructor; simpl; lia.
  - reflexivity.
  - split; [reflexivity|]. constructor; [|constructor].
    split; [exact sample_page_chains_ok | simpl; lia].
  - simpl. lia.
Defined.

Lemma force_freeze_call_freezes_witness :
  exists page',
    rd_pages (w_rel Sample.frozen_world) !! N.to_nat 0 = Some page' /\
    pd_linp page' = pd_linp Sample.page /\
    frozen_visibility (PageGetItem page' (mkItemId 200 LP_NORMAL 28)) /\
    ip_blkid (t_ctid (PageGetItem page' (mkItemId 200 LP_NORMAL 28))) = 0%N.
Proof.
  apply (force_freeze_call_freezes 5 false true [Some (mkTid 0 2)] Sample.world
           Sample.frozen_world (mkTid 0 2) Sample.page 3 (mkItemId 200 LP_NORMAL 28)).
  - reflexivity.
  - apply list_elem_of_here.
  - reflexivity.
  - eapply resolves_redirect; [reflexivity | reflexivity |].
    eapply resolves_here; reflexivity.
  - reflexivity.
  - reflexivity.
Defined.

Lemma page_groups_ordered_witness :
  exists groups,
    page_groups 3 (sorted_tids [mkTid 1 3; mkTid 0 4; mkTid 1 1]) = Ok groups /\
    ungroup groups = sorted_tids [mkTid 1 3; mkTid 0 4; mkTid 1 1] /\
    groups_ordered groups.
Proof.
  apply (page_groups_ordered [mkTid 1 3; mkTid 0 4; mkTid 1 1]).
  - discriminate.
  - simpl. lia.
Defined.

(** ** Blocks past the end of the relation, in calls that return *)

(** C6.  A call of either operation on a validated batch, against a
    relation whose redirect chains end, returns, whatever block
    numbers the batch holds.  For every row identifier of the batch
    whose block number is at or past the relation's block count, the
    trace of the call holds the BlockOutOfRange notice for that block
    and no other event about the block (no buffer read, no pin, no
    write); the groups on blocks of the relation are read all the
    same. *)
Theorem block_out_of_range_skipped :
  forall fuel opt tids w,
    tids <> [] ->
    Z.of_nat (length tids) <= 65535 ->
    Forall tid_wf tids ->
    relkind_supported (w_rel w) = true ->
    relation_ok (RelationGetNumberOfBlocks (w_rel w)) fuel (w_rel w) ->
    (length tids <= fuel)%nat ->
    exists w' evs,
      heap_force_common fuel false true (Some <$> tids) opt w = Ok w' /\
      w_log w' = w_log w ++ evs /\
      forall tid,
        tid ∈ tids ->
        ((RelationGetNumberOfBlocks (w_rel w) <= ip_blkid tid)%N ->
         EvNotice (BlockOutOfRange (ip_blkid tid)) ∈ evs /\
         forall ev, ev ∈ evs -> event_block ev = Some (ip_blkid tid) ->
                    ev = EvNotice (BlockOutOfRange (ip_blkid tid))) /\
        ((ip_blkid tid < RelationGetNumberOfBlocks (w_rel w))%N ->
         EvReadBuffer (ip_blkid tid) ∈ evs /\
         EvNotice (BlockOutOfRange (ip_blkid tid)) ∉ evs).
Proof.
  intros fuel opt tids w Hne Hsmall Hwf Hkind Hok Hfuel.
  destruct (heap_force_common_runs fuel opt tids w Hne Hsmall Hwf Hkind Hok Hfuel)
    as (w1 & Hrun & Hcall).
  pose proof Hrun as Hrun'.
  apply run_groups_events in Hrun as (evs & Hlog & Hall & Hgroups).
  exists (emit EvRelationClose w1), (EvRelationOpen :: evs ++ [EvRelationClose]).
  split; [exact Hcall|].
  split; [simpl; rewrite Hlog; simpl; by rewrite <- !app_assoc|].
  intros tid Hin.
  rewrite <- (sorted_tids_perm tids) in Hin.
  apply elem_of_group_tids in Hin as (offnos & Hgroup & _).
  destruct (Hgroups _ _ Hgroup) as [Hout Hread].
  split.
  - intros Hb. split.
    + apply list_elem_of_further, elem_of_app. left. by apply Hout.
    + intros ev [->|[Hev| ->%list_elem_of_singleton]%elem_of_app]%elem_of_cons Hblk;
        try discriminate.
      rewrite Forall_forall in Hall. by apply (Hall ev Hev).
  - intros Hb. split.
    + apply list_elem_of_further, elem_of_app. left. by apply Hread.
    + intros [Hev|[Hev|Hev%list_elem_of_singleton]%elem_of_app]%elem_of_cons;
        try discriminate.
      destruct (run_groups_notices _ _ _ (w_rel w) _ (emit EvRelationOpen w) _
                  (reflexivity _) Hrun') as (evs' & Hlog' & Hn).
      rewrite Hlog in Hlog'. apply app_inv_head in Hlog'. subst evs'.
      destruct (Hn _ Hev) as (b & offs & _ & [[Hle [= <-]]|(_ & o & p & _ & _ & Hitem & _)]).
      * lia.
      * inversion Hitem.
Qed.

Lemma block_out_of_range_skipped_witness :
  exists w' evs,
    heap_force_common 5 false true
      (Some <$> [mkTid 7 1; mkTid 1 1; mkTid 0 1]) HEAP_FORCE_KILL Sample.world =
      Ok w' /\
    w_log w' = w_log Sample.world ++ evs /\
    forall tid,
      tid ∈ [mkTid 7 1; mkTid 1 1; mkTid 0 1] ->
      ((RelationGetNumberOfBlocks (w_rel Sample.world) <= ip_blkid tid)%N ->
       EvNotice (BlockOutOfRange (ip_blkid tid)) ∈ evs /\
       forall ev, ev ∈ evs -> event_block ev = Some (ip_blkid tid) ->
                  ev = EvNotice (BlockOutOfRange (ip_blkid tid))) /\
      ((ip_blkid tid < RelationGetNumberOfBlocks (w_rel Sample.world))%N ->
       EvReadBuffer (ip_blkid tid) ∈ evs /\
       EvNotice (BlockOutOfRange (ip_blkid tid)) ∉ evs).
Proof.
  apply (block_out_of_range_skipped 5 HEAP_FORCE_KILL
           [mkTid 7 1; mkTid 1 1; mkTid 0 1] Sample.world).
  - discriminate.
  - simpl. lia.
  - repeat constructor; simpl; lia.
  - reflexivity.
  - split; [reflexivity|]. constructor; [|constructor].
    split; [exact sample_page_chains_ok | simpl; lia].
  - simpl. lia.
Defined.

(** ** Batches with nothing to do *)

Lemma heap_force_item_skips fuel opt blkno maxoffset offno s s' :
  (forall cur itemid,
     chain_target (s_page s) offno cur itemid -> ItemIdIsNormal itemid = false) ->
  heap_force_item fuel opt blkno maxoffset offno s = Ok s' ->
  exists n, s' = ereport_notice n s.
Proof.
  intros Hskip. unfold heap_force_item.
  destruct ((offno =? 0) || (maxoffset <? offno)); [intros [= <-]; eauto|].
  destruct (follow_redirects fuel (s_page s) offno) as [[cur itemid]| | |] eqn:Hf;
    simpl; try discriminate.
  destruct (follow_redirects_Ok _ _ _ _ _ Hf) as (Hget & Hred & m & _ & Hres).
  apply resolves_in_to in Hres.
  destruct (ItemIdIsUsed itemid) eqn:Hused; simpl; [|intros [= <-]; eauto].
  destruct (ItemIdIsDead itemid) eqn:Hdead; [intros [= <-]; eauto|].
  pose proof (Hskip cur itemid (conj Hres Hget)) as Hn.
  rewrite (ItemId_flag_cases _ Hused Hdead Hred) in Hn. discriminate.
Qed.

Lemma heap_force_items_skip fuel opt blkno maxoffset page offnos : forall s s',
  s_page s = page ->
  Forall (fun offno => forall cur itemid,
            chain_target page offno cur itemid -> ItemIdIsNormal itemid = false)
    offnos ->
  heap_force_items fuel opt blkno maxoffset offnos s = Ok s' ->
  s_page s' = page /\ s_vm s' = s_vm s /\
  did_modify_page s' = did_modify_page s /\ did_modify_vm s' = did_modify_vm s /\
  exists evs, s_log s' = s_log s ++ evs /\ Forall (fun ev => event_writes ev = false) evs.
Proof.
  induction offnos as [|offno rest IH]; intros s s' Hpage Hall; simpl.
  - intros [= <-]. repeat split; try assumption.
    exists []. split; [by rewrite app_nil_r | constructor].
  - destruct (heap_force_item fuel opt blkno maxoffset offno s) as [s1| | |] eqn:H1;
      simpl; try discriminate.
    intros H. apply Forall_cons in Hall as [Hoff Hrest].
    rewrite <- Hpage in Hoff.
    destruct (heap_force_item_skips _ _ _ _ _ _ _ Hoff H1) as [n ->].
    destruct (IH (ereport_notice n s) s' Hpage Hrest H)
      as (Hp & Hv & Hmp & Hmv & evs & Hlog & Hall').
    simpl in *. repeat split; try assumption.
    exists (EvNotice n :: evs). split.
    + rewrite Hlog. simpl. rewrite <- app_assoc. reflexivity.
    + constructor; [reflexivity | exact Hall'].
Qed.

Lemma heap_force_page_skips fuel opt nblocks blkno offnos w w' :
  (forall page offno cur itemid,
     rd_pages (w_rel w) !! N.to_nat blkno = Some page -> offno ∈ offnos ->
     chain_target page offno cur itemid -> ItemIdIsNormal itemid = false) ->
  heap_force_page fuel opt nblocks blkno offnos w = Ok w' ->
  w_rel w' = w_rel w /\
  exists evs, w_log w' = w_log w ++ evs /\ Forall (fun ev => event_writes ev = false) evs.
Proof.
  intros Hskip.
  destruct (N.le_gt_cases nblocks blkno) as [Hout|Hin].
  - rewrite heap_force_page_out_of_range by assumption. intros [= <-].
    split; [reflexivity|]. exists [EvNotice (BlockOutOfRange blkno)].
    split; [reflexivity|]. constructor; [reflexivity | constructor].
  - intros H. destruct (heap_force_page_in_range _ _ _ _ _ _ _ Hin H)
      as (page & s & Hpage & Hitems & ->).
    assert (Hall0 : Forall (fun offno => forall cur itemid,
                chain_target page offno cur itemid -> ItemIdIsNormal itemid = false)
              offnos).
    { apply Forall_forall. intros o Ho cur it. exact (Hskip page o cur it Hpage Ho). }
    destruct (heap_force_items_skip _ _ _ _ page _
                (session_start opt blkno page w) _ (eq_refl _) Hall0 Hitems)
      as (Hp & Hv & Hmp & Hmv & evs & Hlog & Hall).
    simpl in Hv, Hmp, Hmv, Hlog.
    unfold session_finish. rewrite Hp, Hv, Hmp, Hmv. simpl.
    split; [apply set_page_id; exact Hpage|].
    rewrite Hlog, !emit_if_opt_ev. simpl. rewrite <- !app_assoc.
    eexists. split; [reflexivity|].
    repeat apply Forall_app_2; try assumption;
      try (apply Forall_opt_ev; reflexivity);
      repeat constructor.
Qed.

Lemma run_groups_skips fuel opt nblocks groups : forall w w',
  (forall blkno offnos page offno cur itemid,
     (blkno, offnos) ∈ groups ->
     rd_pages (w_rel w) !! N.to_nat blkno = Some page -> offno ∈ offnos ->
     chain_target page offno cur itemid -> ItemIdIsNormal itemid = false) ->
  run_groups (heap_force_page fuel opt nblocks) groups w = Ok w' ->
  w_rel w' = w_rel w /\
  exists evs, w_log w' = w_log w ++ evs /\ Forall (fun ev => event_writes ev = false) evs.
Proof.
  induction groups as [|[b offs] groups IH]; intros w w' Hskip; simpl.
  - intros [= <-]. split; [reflexivity|]. exists [].
    split; [by rewrite app_nil_r | constructor].
  - destruct (heap_force_page fuel opt nblocks b offs w) as [w1| | |] eqn:H1;
      simpl; try discriminate.
    intros H.
    assert (Hhere : (b, offs) ∈ (b, offs) :: groups) by apply list_elem_of_here.
    destruct (heap_force_page_skips _ _ _ _ _ _ _
                (fun page o cur it => Hskip b offs page o cur it Hhere) H1)
      as (Hrel1 & evs1 & Hl1 & Hall1).
    destruct (IH w1 w') as (Hrel2 & evs2 & Hl2 & Hall2); [|exact H|].
    { rewrite Hrel1. intros b' offs' page o cur it Hg.
      apply Hskip. by right. }
    split; [congruence|]. exists (evs1 ++ evs2).
    split; [by rewrite Hl2, Hl1, app_assoc | by apply Forall_app_2].
Qed.

(** A call that returns and whose batch reaches no normal line pointer
    (every row identifier is out of range, or its redirections end at
    an unused or dead line pointer) leaves the relation exactly as it
    was and writes nothing: no buffer is marked dirty, no visibility
    map bit is cleared, nothing is logged. *)
Theorem nothing_to_do_writes_nothing :
  forall fuel in_recovery is_owner ta opt w w',
    heap_force_common fuel in_recovery is_owner ta opt w = Ok w' ->
    nothing_to_do ta (w_rel w) ->
    w_rel w' = w_rel w /\
    exists evs,
      w_log w' = w_log w ++ evs /\ Forall (fun ev => event_writes ev = false) evs.
Proof.
  intros fuel in_recovery is_owner ta opt w w' H Hskip.
  apply heap_force_common_Ok in H
    as (tids & w1 & _ & _ & -> & _ & _ & Hrun & ->).
  assert (Hskip' : forall blkno offnos page offno cur itemid,
            (blkno, offnos) ∈ group_tids (sorted_tids tids) ->
            rd_pages (w_rel (emit EvRelationOpen w)) !! N.to_nat blkno = Some page ->
            offno ∈ offnos ->
            chain_target page offno cur itemid -> ItemIdIsNormal itemid = false).
  { intros blkno offnos page offno cur itemid Hg Hpage Ho Ht.
    apply (Hskip (mkTid blkno offno) page cur itemid); try assumption.
    apply list_elem_of_fmap. exists (mkTid blkno offno). split; [reflexivity|].
    rewrite <- (sorted_tids_perm tids), <- (ungroup_group_tids (sorted_tids tids)).
    apply elem_of_ungroup. exists offnos. auto. }
  destruct (run_groups_skips _ _ _ _ _ _ Hskip' Hrun) as (Hrel & evs & Hlog & Hall).
  simpl in *. split; [exact Hrel|].
  exists ([EvRelationOpen] ++ evs ++ [EvRelationClose]).
  split; [rewrite Hlog, <- !app_assoc; reflexivity|].
  repeat apply Forall_app_2; try assumption; repeat constructor.
Qed.

Lemma sample_nothing_to_do :
  nothing_to_do [Some (mkTid 0 4); Some (mkTid 0 5); Some (mkTid 0 0); Some (mkTid 2 1)]
    (w_rel Sample.world).
Proof.
  intros tid page cur itemid Hin Hpage [Hres Hget].
  repeat (apply elem_of_cons in Hin as [Hin|Hin]; [injection Hin as ->|]);
    [| | | |inversion Hin];
    simpl in Hpage; try discriminate; injection Hpage as <-;
    inversion Hres as [o it Hit Hred|o it c Hit Hred Hnext]; subst;
    vm_compute in Hit; try discriminate; injection Hit as <-;
    try discriminate; vm_compute in Hget; injection Hget as <-; reflexivity.
Defined.

Lemma nothing_to_do_writes_nothing_witness :
  w_rel (Sample.returned
           (heap_force_kill 5 false true
              [Some (mkTid 0 4); Some (mkTid 0 5); Some (mkTid 0 0); Some (mkTid 2 1)]
              Sample.world)) = w_rel Sample.world /\
  exists evs,
    w_log (Sample.returned
             (heap_force_kill 5 false true
                [Some (mkTid 0 4); Some (mkTid 0 5); Some (mkTid 0 0); Some (mkTid 2 1)]
                Sample.world)) = w_log Sample.world ++ evs /\
    Forall (fun ev => event_writes ev = false) evs.
Proof.
  apply (nothing_to_do_writes_nothing 5 false true
           [Some (mkTid 0 4); Some (mkTid 0 5); Some (mkTid 0 0); Some (mkTid 2 1)]
           HEAP_FORCE_KILL Sample.world).
  - reflexivity.
  - exact sample_nothing_to_do.
Defined.

(** ** Tuples the batch does not reach *)

Lemma untouched_page_refl opt named page : untouched_page opt named page page.
Proof. split; [reflexivity|]. split; auto. Qed.

Lemma PageGetItemId_set_item_ne page cur cur' itemid itemid' :
  PageGetItemId page cur = Some itemid' -> cur' <> cur ->
  PageGetItemId (set_item cur itemid page) cur' = PageGetItemId page cur'.
Proof.
  intros Hget Hne. apply PageGetItemId_range in Hget.
  unfold PageGetItemId, set_item. simpl.
  destruct (Z.leb_spec 1 cur'); [|reflexivity].
  apply list_lookup_insert_ne. lia.
Qed.

Lemma heap_force_item_untouched fuel opt blkno maxoffset named page0 offno s s' :
  named offno ->
  untouched_page opt named page0 (s_page s) ->
  heap_force_item fuel opt blkno maxoffset offno s = Ok s' ->
  untouched_page opt named page0 (s_page s').
Proof.
  intros Hnamed Hinv H.
  assert (Hb' : page_between opt page0 (s_page s')).
  { etransitivity; [apply Hinv|].
    eapply item_step_between, heap_force_item_step. exact H. }
  destruct Hinv as (Hb & Hslots & Htuples).
  revert H. unfold heap_force_item.
  destruct ((offno =? 0) || (maxoffset <? offno));
    [intros [= <-]; exact (conj Hb (conj Hslots Htuples))|].
  destruct (follow_redirects fuel (s_page s) offno) as [[cur itemid]| | |] eqn:Hf;
    simpl; try discriminate.
  destruct (follow_redirects_Ok _ _ _ _ _ Hf) as (Hget & Hred & m & _ & Hres).
  apply resolves_in_to in Hres.
  destruct (chain_target_back _ _ _ _ _ (proj1 Hb) (conj Hres Hget))
    as (itemid0 & Ht0 & Hs).
  destruct (ItemIdIsUsed itemid) eqn:Hused; simpl;
    [|intros [= <-]; exact (conj Hb (conj Hslots Htuples))].
  destruct (ItemIdIsDead itemid) eqn:Hdead;
    [intros [= <-]; exact (conj Hb (conj Hslots Htuples))|].
  pose proof (ItemId_flag_cases _ Hused Hdead Hred) as Hnormal.
  destruct opt; intros [= <-]; (split; [exact Hb'|]); split.
  - intros cur' Hun. rewrite <- (Hslots cur' Hun).
    assert (Hne : cur' <> cur).
    { intros ->. exact (Hun offno Hnamed (proj1 Ht0)). }
    unfold force_kill_item. destruct (PageIsAllVisible _); simpl;
      apply (PageGetItemId_set_item_ne _ _ _ _ _ Hget Hne).
  - intros off Hun. rewrite <- (Htuples off Hun).
    unfold force_kill_item. destruct (PageIsAllVisible _); reflexivity.
  - intros cur' Hun. rewrite <- (Hslots cur' Hun). reflexivity.
  - intros off Hun. rewrite <- (Htuples off Hun). simpl.
    assert (itemid0 = itemid) as ->.
    { destruct Hs as [->|[_ Hd]]; [reflexivity|]. congruence. }
    destruct (Z.eqb_spec off (lp_off itemid)) as [->|Hne]; [|reflexivity].
    exfalso. exact (Hun offno cur itemid Hnamed Ht0 Hnormal eq_refl).
Qed.

Lemma heap_force_items_untouched fuel opt blkno maxoffset named page0 offnos :
  forall s s',
    Forall named offnos ->
    untouched_page opt named page0 (s_page s) ->
    heap_force_items fuel opt blkno maxoffset offnos s = Ok s' ->
    untouched_page opt named page0 (s_page s').
Proof.
  induction offnos as [|offno rest IH]; intros s s' Hall Hinv; simpl.
  - intros [= <-]. exact Hinv.
  - destruct (heap_force_item fuel opt blkno maxoffset offno s) as [s1| | |] eqn:H1;
      simpl; try discriminate.
    apply Forall_cons in Hall as [Hoff Hrest].
    apply IH; [exact Hrest|].
    eapply heap_force_item_untouched; eassumption.
Qed.

Lemma run_groups_untouched fuel opt nblocks named (blkno : BlockNumber) page0 groups :
  forall w w' page,
    (forall offnos, (blkno, offnos) ∈ groups -> Forall named offnos) ->
    rd_pages (w_rel w) !! N.to_nat blkno = Some page ->
    untouched_page opt named page0 page ->
    run_groups (heap_force_page fuel opt nblocks) groups w = Ok w' ->
    exists page',
      rd_pages (w_rel w') !! N.to_nat blkno = Some page' /\
      untouched_page opt named page0 page'.
Proof.
  induction groups as [|[b offs] groups IH]; intros w w' page Hnamed Hpage Hinv; simpl.
  - intros [= <-]. eauto.
  - destruct (heap_force_page fuel opt nblocks b offs w) as [w1| | |] eqn:H1;
      simpl; try discriminate.
    intros H.
    assert (Hrest : forall offnos, (blkno, offnos) ∈ groups -> Forall named offnos).
    { intros offnos Hin. apply Hnamed. by right. }
    assert (Hstep : exists page1,
              rd_pages (w_rel w1) !! N.to_nat blkno = Some page1 /\
              untouched_page opt named page0 page1).
    { destruct (decide (b = blkno)) as [->|Hne].
      - destruct (N.le_gt_cases nblocks blkno) as [Hout|Hin].
        + rewrite heap_force_page_out_of_range in H1 by assumption.
          injection H1 as <-. eauto.
        + destruct (heap_force_page_in_range _ _ _ _ _ _ _ Hin H1)
            as (p & s & Hp & Hitems & ->).
          assert (p = page) by congruence. subst p.
          exists (s_page s). split.
          * simpl. apply list_lookup_insert_eq. eapply lookup_lt_Some. exact Hpage.
          * assert (Hoffs : Forall named offs) by (apply Hnamed; by left).
            exact (heap_force_items_untouched _ _ _ _ named page0 offs
                     (session_start opt blkno page w) s Hoffs Hinv Hitems).
      - destruct (heap_force_page_effect _ _ _ _ _ _ _ H1) as (_ & _ & _ & Hf & _).
        assert (Hne' : blkno <> b) by auto.
        destruct (Hf blkno Hne') as [Hsame _].
        exists page. split; [congruence | exact Hinv]. }
    destruct Hstep as (page1 & Hpage1 & Hinv1).
    eapply IH; eassumption.
Qed.

(** The surgery touches only what the batch reaches.  After a call
    that returns, on every block: a line pointer at which the
    redirections of no row identifier of the batch end is as it was,
    and a tuple header is as it was unless a row identifier of the
    batch reaches a normal line pointer that points to it. *)
Theorem unreached_tuples_untouched :
  forall fuel in_recovery is_owner ta opt w w' (blkno : BlockNumber) page,
    heap_force_common fuel in_recovery is_owner ta opt w = Ok w' ->
    rd_pages (w_rel w) !! N.to_nat blkno = Some page ->
    exists page',
      rd_pages (w_rel w') !! N.to_nat blkno = Some page' /\
      (forall cur,
         ~ reached ta blkno page cur ->
         PageGetItemId page' cur = PageGetItemId page cur) /\
      (forall off,
         (forall cur itemid,
            reached ta blkno page cur -> PageGetItemId page cur = Some itemid ->
            ItemIdIsNormal itemid = true -> lp_off itemid <> off) ->
         pd_tuples page' off = pd_tuples page off).
Proof.
  intros fuel in_recovery is_owner ta opt w w' blkno page H Hpage.
  apply heap_force_common_Ok in H
    as (tids & w1 & _ & _ & -> & _ & _ & Hrun & ->).
  set (named := fun offno => Some (mkTid blkno offno) ∈ Some <$> tids).
  assert (Hnamed : forall offnos,
            (blkno, offnos) ∈ group_tids (sorted_tids tids) -> Forall named offnos).
  { intros offnos Hg. apply Forall_forall. intros o Ho. unfold named.
    apply list_elem_of_fmap. exists (mkTid blkno o). split; [reflexivity|].
    rewrite <- (sorted_tids_perm tids), <- (ungroup_group_tids (sorted_tids tids)).
    apply elem_of_ungroup. exists offnos. auto. }
  destruct (run_groups_untouched _ _ _ named blkno page _
              (emit EvRelationOpen w) w1 page
              Hnamed Hpage (untouched_page_refl _ _ _) Hrun)
    as (page' & Hpage' & _ & Hslots & Htuples).
  exists page'. split; [exact Hpage'|]. split.
  - intros cur Hun. apply Hslots. intros offno Ho Hres. apply Hun.
    exists (mkTid blkno offno). auto.
  - intros off Hun. apply Htuples. intros offno cur itemid Ho [Hres Hget].
    apply (Hun cur); [|exact Hget]. exists (mkTid blkno offno). auto.
Qed.

Lemma unreached_tuples_untouched_witness :
  exists page',
    rd_pages (w_rel Sample.frozen_world) !! N.to_nat 0 = Some page' /\
    (forall cur,
       ~ reached [Some (mkTid 0 2)] 0 Sample.page cur ->
       PageGetItemId page' cur = PageGetItemId Sample.page cur) /\
    (forall off,
       (forall cur itemid,
          reached [Some (mkTid 0 2)] 0 Sample.page cur ->
          PageGetItemId Sample.page cur = Some itemid ->
          ItemIdIsNormal itemid = true -> lp_off itemid <> off) ->
       pd_tuples page' off = pd_tuples Sample.page off).
Proof.
  apply (unreached_tuples_untouched 5 false true [Some (mkTid 0 2)]
           HEAP_FORCE_FREEZE Sample.world Sample.frozen_world 0%N Sample.page).
  - reflexivity.
  - reflexivity.
Defined.
